(** * Dendrite room server: event authorization, room input and state
      snapshot storage.

    A shallow embedding of
    - [gomatrixserverlib/eventauth.go] (module [EventAuth]),
    - [roomserver/input/event.go] (module [Input]),
    - the state snapshot table of [roomserver/storage] (module [Storage]),
    followed by the properties established about them. *)

From Stdlib Require Import ZArith String Ascii List Lia Bool Permutation Sorted.
From stdpp Require Import base option list sorting gmap strings.

Local Open Scope Z_scope.
Local Open Scope string_scope.
Local Open Scope list_scope.

(** ** Go errors

    A Go [error] value is either the [*NotAllowed] of eventauth.go, an
    error made by [fmt.Errorf], or an error of some other dynamic type.
    [errorf] builds a [NotAllowed] whose [Message] is
    [fmt.Sprintf(message, args...)]; formatted messages are kept as the
    format string together with its arguments. *)

Inductive arg : Type :=
| AString (s : string)
| AStringPtr (s : option string)
| AInt (z : Z).

Inductive error : Type :=
| NotAllowed (message : string) (args : list arg)
| Errorf (format : string) (args : list arg)
| InvalidID (id : string)
| OtherError (text : string).

Definition errorf (message : string) (args : list arg) : error :=
  NotAllowed message args.

(** The result of a Go function declared to return [error] that may also
    panic: [ok] is the nil error. *)
Inductive outcome : Type :=
| ok
| err (e : error)
| panic (text : string).

Definition string_eqb (a b : string) : bool := bool_decide (a = b).

Module EventReference.
Record t : Type := Build { EventID : string }.
End EventReference.

(** Modelled from the spec: the parsed event of the Event Model (4.1),
    whose Go declaration is not part of the sources.  [StateKey] is [None]
    for an absent state_key, which is distinct from a present empty one. *)
Record Event : Type := {
  EventID : string;
  RoomID : string;
  Sender : string;
  Type_ : string;
  StateKey : option string;
  PrevEvents : list EventReference.t;
  Content : string;
  Redacts : string
}.

(** Modelled from the spec: [StateKeyEquals(s)] holds when the state_key is
    present and equal to [s]. *)
Definition StateKeyEquals (event : Event) (s : string) : bool :=
  match StateKey event with
  | Some k => string_eqb k s
  | None => false
  end.

(** Go's [len] of a slice, as an [int]. *)
Definition len {A : Type} (l : list A) : Z := Z.of_nat (length l).

(** [for k := range m]: Go leaves the order unspecified; the embedding
    visits the keys in the order of [map_to_list].  The properties below
    only depend on the set of keys. *)
Definition rangeKeys (m : gmap string Z) : list string := (map_to_list m).*1.

(** * gomatrixserverlib/eventauth.go *)
Module EventAuth.

Definition join := "join".
Definition ban := "ban".
Definition leave := "leave".
Definition invite := "invite".
Definition public := "public".

(** Modelled from the spec: the content structures of the auth events,
    whose Go declarations are not part of the sources, with the fields that
    eventauth.go reads and the m.federate flag of the create content. *)
Record createContent : Type := {
  roomID : string;
  eventID : string;
  Creator : string;
  Federate : option bool
}.

Record memberContent : Type := {
  Membership : string;
  ThirdPartyInvite : string
}.

Record joinRuleContent : Type := { JoinRule : string }.

Record powerLevelContent : Type := {
  banLevel : Z;
  inviteLevel : Z;
  kickLevel : Z;
  redactLevel : Z;
  userLevels : gmap string Z;
  userDefaultLevel : Z;
  eventLevels : gmap string Z;
  eventDefaultLevel : Z;
  stateDefaultLevel : Z
}.

(** [AuthEvents] are the state events needed to authenticate an event. *)
Record AuthEvents : Type := {
  Create : option Event * option error;
  JoinRules : option Event * option error;
  PowerLevels : option Event * option error;
  Member : string -> option Event * option error;
  ThirdPartyInviteEvent : string -> option Event * option error
}.

(** The helpers of eventauth.go that are declared elsewhere in the
    package; the rules are stated for any implementation of them.  Each Go
    [(T, error)] result is a pair; [domainFromID], whose value is never
    read on failure, is a sum.  [userLevel] and [eventLevel] are the
    methods of the power level content. *)
Class ContentOps : Type := {
  domainFromID : string -> error + string;
  isValidUserID : string -> bool;
  userLevel : powerLevelContent -> string -> Z;
  eventLevel : powerLevelContent -> string -> bool -> Z;
  userIDAllowed : createContent -> string -> option error;
  domainAllowed : createContent -> string -> option error;
  newCreateContentFromAuthEvents : AuthEvents -> createContent * option error;
  newMemberContentFromAuthEvents :
    AuthEvents -> string -> memberContent * option error;
  newMemberContentFromEvent : Event -> memberContent * option error;
  newPowerLevelContentFromAuthEvents :
    AuthEvents -> string -> powerLevelContent * option error;
  newPowerLevelContentFromEvent : Event -> powerLevelContent * option error;
  newJoinRuleContentFromAuthEvents : AuthEvents -> joinRuleContent * option error
}.

Section Rules.
Context {ops : ContentOps}.

(** createEventAllowed checks whether the m.room.create event is allowed. *)
Definition createEventAllowed (event : Event) : outcome :=
  if negb (StateKeyEquals event EmptyString) then
    err (errorf "create event state key is not empty: %v"
           [AStringPtr (StateKey event)])
  else
    match domainFromID (RoomID event) with
    | inl e => err e
    | inr roomIDDomain =>
      match domainFromID (Sender event) with
      | inl e => err e
      | inr senderDomain =>
        if negb (string_eqb senderDomain roomIDDomain) then
          err (errorf "create event room ID domain does not match sender: %q != %q"
                 [AString roomIDDomain; AString senderDomain])
        else if (len (PrevEvents event) >? 0)%Z then
          err (errorf "create event must be the first event in the room: found %d prev_events"
                 [AInt (len (PrevEvents event))])
        else ok
      end
    end.

(** aliasEventAllowed: the error of [newCreateContentFromAuthEvents] is
    overwritten by the next assignment to [err], as in the source. *)
Definition aliasEventAllowed (event : Event) (authEvents : AuthEvents) : outcome :=
  let create := fst (newCreateContentFromAuthEvents authEvents) in
  match domainFromID (Sender event) with
  | inl e => err e
  | inr senderDomain =>
    if negb (string_eqb (RoomID event) (roomID create)) then
      err (errorf "create event has different roomID: %q != %q"
             [AString (RoomID event); AString (roomID create)])
    else
      match domainAllowed create senderDomain with
      | Some e => err e
      | None =>
        if negb (StateKeyEquals event senderDomain) then
          err (errorf "alias state_key does not match sender domain, %q != %q"
                 [AString senderDomain; AStringPtr (StateKey event)])
        else ok
      end
  end.

(** An eventAllower has the information needed to authorise all events
    types other than m.room.create, m.room.member and m.room.aliases. *)
Record eventAllower : Type := {
  ea_create : createContent;
  ea_member : memberContent;
  ea_powerLevels : powerLevelContent
}.

Definition newEventAllower (authEvents : AuthEvents) (senderID : string)
    : error + eventAllower :=
  match newCreateContentFromAuthEvents authEvents with
  | (_, Some e) => inl e
  | (create, None) =>
    match newMemberContentFromAuthEvents authEvents senderID with
    | (_, Some e) => inl e
    | (member, None) =>
      match newPowerLevelContentFromAuthEvents authEvents (Creator create) with
      | (_, Some e) => inl e
      | (powerLevels, None) =>
        inr {| ea_create := create; ea_member := member;
               ea_powerLevels := powerLevels |}
      end
    end
  end.

(** The first byte of a string, when it has one. *)
Definition firstByte (s : string) : option ascii :=
  match s with
  | EmptyString => None
  | String c _ => Some c
  end.

(** commonChecks does the checks that are applied to all events types other
    than m.room.create, m.room.member, or m.room.alias. *)
Definition commonChecks (e : eventAllower) (event : Event) : outcome :=
  if negb (string_eqb (RoomID event) (roomID (ea_create e))) then
    err (errorf "create event has different roomID: %q != %q"
           [AString (RoomID event); AString (roomID (ea_create e))])
  else
    let sender := Sender event in
    let stateKey := StateKey event in
    match userIDAllowed (ea_create e) sender with
    | Some e' => err e'
    | None =>
      if negb (string_eqb (Membership (ea_member e)) join) then
        err (errorf "sender %q not in room" [AString sender])
      else
        let senderLevel := userLevel (ea_powerLevels e) sender in
        let eventLevel :=
          eventLevel (ea_powerLevels e) (Type_ event) (bool_decide (stateKey <> None)) in
        if (senderLevel <? eventLevel)%Z then
          err (errorf "sender %q is not allowed to send event. %d < %d"
                 [AString (Sender event); AInt senderLevel; AInt eventLevel])
        else
          match stateKey with
          | Some key =>
            if (Z.of_nat (String.length key) >? 0)%Z
                 && bool_decide (firstByte key = Some "@"%char)
                 && negb (string_eqb key sender)
            then
              err (errorf "sender %q is not allowed to modify the state belonging to %q"
                     [AString sender; AString key])
            else ok
          | None => ok
          end
    end.

(** powerLevelsEventAllowed's loop over the user ids of the new levels. *)
Fixpoint checkValidUserIDs (userIDs : list string) (rest : outcome) : outcome :=
  match userIDs with
  | [] => rest
  | userID :: userIDs =>
    if negb (isValidUserID userID) then
      err (errorf "Not a valid user ID: %q" [AString userID])
    else checkValidUserIDs userIDs rest
  end.

Record levelPair : Type := { old : Z; new : Z }.

(** The loop of checkEventLevels over the list of level pairs. *)
Fixpoint checkEventLevelPairs (senderLevel : Z) (levelChecks : list levelPair)
    : outcome :=
  match levelChecks with
  | [] => ok
  | level :: levelChecks =>
    if (old level =? new level)%Z then
      checkEventLevelPairs senderLevel levelChecks
    else if (senderLevel <? new level)%Z then
      err (errorf
             "sender with level %d is not allowed to change level from %d to %d because the new level is above the level of the sender"
             [AInt senderLevel; AInt (old level); AInt (new level)])
    else if (senderLevel <? old level)%Z then
      err (errorf
             "sender with level %d is not allowed to change level from %d to %d because the current level is above the level of the sender"
             [AInt senderLevel; AInt (old level); AInt (new level)])
    else checkEventLevelPairs senderLevel levelChecks
  end.

Definition isStateEvent : bool := false.

(** The list of pairs checkEventLevels builds: the named levels, then one
    pair per event key of the new levels, then one per event key of the old
    levels. *)
Definition eventLevelChecks (oldPowerLevels newPowerLevels : powerLevelContent)
    : list levelPair :=
  [ {| old := banLevel oldPowerLevels; new := banLevel newPowerLevels |};
    {| old := inviteLevel oldPowerLevels; new := inviteLevel newPowerLevels |};
    {| old := kickLevel oldPowerLevels; new := kickLevel newPowerLevels |};
    {| old := redactLevel oldPowerLevels; new := redactLevel newPowerLevels |};
    {| old := stateDefaultLevel oldPowerLevels;
       new := stateDefaultLevel newPowerLevels |};
    {| old := eventDefaultLevel oldPowerLevels;
       new := eventDefaultLevel newPowerLevels |} ]
  ++ map (fun eventType =>
            {| old := eventLevel oldPowerLevels eventType isStateEvent;
               new := eventLevel newPowerLevels eventType isStateEvent |})
         (rangeKeys (eventLevels newPowerLevels))
  ++ map (fun eventType =>
            {| old := eventLevel oldPowerLevels eventType isStateEvent;
               new := eventLevel newPowerLevels eventType isStateEvent |})
         (rangeKeys (eventLevels oldPowerLevels)).

(** checkEventLevels checks that the changes in event levels are allowed. *)
Definition checkEventLevels (senderLevel : Z)
    (oldPowerLevels newPowerLevels : powerLevelContent) : outcome :=
  checkEventLevelPairs senderLevel (eventLevelChecks oldPowerLevels newPowerLevels).

Record userLevelPair : Type := { u_old : Z; u_new : Z; u_userID : string }.

(** The loop of checkUserLevels over the list of level pairs. *)
Fixpoint checkUserLevelPairs (senderLevel : Z) (senderID : string)
    (userLevelChecks : list userLevelPair) : outcome :=
  match userLevelChecks with
  | [] => ok
  | level :: userLevelChecks =>
    if (u_old level =? u_new level)%Z then
      checkUserLevelPairs senderLevel senderID userLevelChecks
    else if (senderLevel <? u_new level)%Z then
      err (errorf
             "sender with level %d is not allowed change user level from %d to %d because the new level is above the level of the sender"
             [AInt senderLevel; AInt (u_old level); AInt (u_new level)])
    else if string_eqb (u_userID level) senderID then
      checkUserLevelPairs senderLevel senderID userLevelChecks
    else if (senderLevel <=? u_old level)%Z then
      err (errorf
             "sender with level %d is not allowed to change user level from %d to %d because the old level is equal to or above the level of the sender"
             [AInt senderLevel; AInt (u_old level); AInt (u_new level)])
    else checkUserLevelPairs senderLevel senderID userLevelChecks
  end.

(** The list of pairs checkUserLevels builds: the user default level with
    an empty user id, then one pair per user key of the new levels, then one
    per user key of the old levels. *)
Definition userLevelChecks (oldPowerLevels newPowerLevels : powerLevelContent)
    : list userLevelPair :=
  [ {| u_old := userDefaultLevel oldPowerLevels;
       u_new := userDefaultLevel newPowerLevels;
       u_userID := EmptyString |} ]
  ++ map (fun userID =>
            {| u_old := userLevel oldPowerLevels userID;
               u_new := userLevel newPowerLevels userID;
               u_userID := userID |})
         (rangeKeys (userLevels newPowerLevels))
  ++ map (fun userID =>
            {| u_old := userLevel oldPowerLevels userID;
               u_new := userLevel newPowerLevels userID;
               u_userID := userID |})
         (rangeKeys (userLevels oldPowerLevels)).

(** checkUserLevels checks that the changes in user levels are allowed. *)
Definition checkUserLevels (senderLevel : Z) (senderID : string)
    (oldPowerLevels newPowerLevels : powerLevelContent) : outcome :=
  checkUserLevelPairs senderLevel senderID
    (userLevelChecks oldPowerLevels newPowerLevels).

(** powerLevelsEventAllowed checks whether the m.room.power_levels event is
    allowed. *)
Definition powerLevelsEventAllowed (event : Event) (authEvents : AuthEvents)
    : outcome :=
  match newEventAllower authEvents (Sender event) with
  | inl e => err e
  | inr allower =>
    match commonChecks allower event with
    | ok =>
      match newPowerLevelContentFromEvent event with
      | (_, Some e) => err e
      | (newPowerLevels, None) =>
        checkValidUserIDs (rangeKeys (userLevels newPowerLevels))
          match PowerLevels authEvents with
          | (_, Some e) => err e
          | (None, None) => ok
          | (Some oldEvent, None) =>
            let oldPowerLevels := ea_powerLevels allower in
            let senderLevel := userLevel oldPowerLevels (Sender event) in
            match checkEventLevels senderLevel oldPowerLevels newPowerLevels with
            | ok =>
              checkUserLevels senderLevel (Sender event)
                oldPowerLevels newPowerLevels
            | failure => failure
            end
          end
      end
    | failure => failure
    end
  end.

(** redactEventAllowed checks whether the m.room.redaction event is
    allowed. *)
Definition redactEventAllowed (event : Event) (authEvents : AuthEvents)
    : outcome :=
  match newEventAllower authEvents (Sender event) with
  | inl e => err e
  | inr allower =>
    match commonChecks allower event with
    | ok =>
      match domainFromID (Sender event) with
      | inl e => err e
      | inr senderDomain =>
        match domainFromID (Redacts event) with
        | inl e => err e
        | inr redactDomain =>
          if string_eqb senderDomain redactDomain then ok
          else
            let senderLevel := userLevel (ea_powerLevels allower) (Sender event) in
            let redactLevel := redactLevel (ea_powerLevels allower) in
            if (senderLevel >=? redactLevel)%Z then ok
            else
              err (errorf "%q is not allowed to redact message from %q. %d < %d"
                     [AString (Sender event); AString redactDomain;
                      AInt senderLevel; AInt redactLevel])
        end
      end
    | failure => failure
    end
  end.

(** defaultEventAllowed checks whether the event is allowed by the default
    checks for events. *)
Definition defaultEventAllowed (event : Event) (authEvents : AuthEvents) : outcome :=
  match newEventAllower authEvents (Sender event) with
  | inl e => err e
  | inr allower => commonChecks allower event
  end.

(** A membershipAllower has the information needed to authenticate a
    m.room.member event. *)
Record membershipAllower : Type := {
  targetID : string;
  senderID : string;
  senderMember : memberContent;
  oldMember : memberContent;
  newMember : memberContent;
  create : createContent;
  powerLevels : powerLevelContent;
  joinRule : joinRuleContent
}.

(** newMembershipAllower loads the information needed to authenticate the
    m.room.member event from the auth events. *)
Definition newMembershipAllower (authEvents : AuthEvents) (event : Event)
    : error + membershipAllower :=
  match StateKey event with
  | None => inl (errorf "m.room.member must be a state event" [])
  | Some stateKey =>
    let targetID := stateKey in
    let senderID := Sender event in
    match newCreateContentFromAuthEvents authEvents with
    | (_, Some e) => inl e
    | (create, None) =>
    match newMemberContentFromEvent event with
    | (_, Some e) => inl e
    | (newMember, None) =>
    match newMemberContentFromAuthEvents authEvents targetID with
    | (_, Some e) => inl e
    | (oldMember, None) =>
    match newMemberContentFromAuthEvents authEvents senderID with
    | (_, Some e) => inl e
    | (senderMember, None) =>
    match newPowerLevelContentFromAuthEvents authEvents (Creator create) with
    | (_, Some e) => inl e
    | (powerLevels, None) =>
      let m joinRule :=
        {| targetID := targetID; senderID := senderID;
           senderMember := senderMember; oldMember := oldMember;
           newMember := newMember; create := create;
           powerLevels := powerLevels; joinRule := joinRule |} in
      if string_eqb (Membership newMember) "join" then
        match newJoinRuleContentFromAuthEvents authEvents with
        | (_, Some e) => inl e
        | (joinRule, None) => inr (m joinRule)
        end
      else inr (m {| JoinRule := EmptyString |})
    end end end end end
  end.

(** membershipFailed returns a error explaining why the membership change
    was disallowed. *)
Definition membershipFailed (m : membershipAllower) : outcome :=
  if string_eqb (senderID m) (targetID m) then
    err (errorf "%q is not allowed to change their membership from %q to %q"
           [AString (targetID m); AString (Membership (oldMember m));
            AString (Membership (newMember m))])
  else
    err (errorf "%q is not allowed to change the membership of %q from %q to %q"
           [AString (senderID m); AString (targetID m);
            AString (Membership (oldMember m));
            AString (Membership (newMember m))]).

(** membershipAllowedSelf determines if the change made by the user to their
    own membership is allowed. *)
Definition membershipAllowedSelf (m : membershipAllower) : outcome :=
  let newIs s := string_eqb (Membership (newMember m)) s in
  let oldIs s := string_eqb (Membership (oldMember m)) s in
  let ruleIs s := string_eqb (JoinRule (joinRule m)) s in
  if newIs join && (oldIs leave && ruleIs public) then ok
  else if newIs join && (oldIs invite && ruleIs public) then ok
  else if newIs join && (oldIs invite && ruleIs invite) then ok
  else if newIs join && oldIs join then ok
  else if newIs leave && oldIs join then ok
  else if newIs leave && oldIs invite then ok
  else membershipFailed m.

(** membershipAllowedOther determines if the user is allowed to change the
    membership of another user. *)
Definition membershipAllowedOther (m : membershipAllower) : outcome :=
  let senderLevel := userLevel (powerLevels m) (senderID m) in
  let targetLevel := userLevel (powerLevels m) (targetID m) in
  let newIs s := string_eqb (Membership (newMember m)) s in
  let oldIs s := string_eqb (Membership (oldMember m)) s in
  if negb (string_eqb (Membership (senderMember m)) join) then
    err (errorf "sender %q is not in the room" [AString (senderID m)])
  else if newIs ban
          && ((senderLevel >=? banLevel (powerLevels m))%Z
              && (senderLevel >? targetLevel)%Z) then ok
  else if newIs leave
          && (oldIs ban && (senderLevel >=? banLevel (powerLevels m))%Z) then ok
  else if newIs leave
          && (negb (oldIs ban)
              && (senderLevel >=? kickLevel (powerLevels m))%Z
              && (senderLevel >? targetLevel)%Z) then ok
  else if newIs invite
          && (oldIs leave && (senderLevel >=? inviteLevel (powerLevels m))%Z) then ok
  else if newIs invite
          && (oldIs invite && (senderLevel >=? inviteLevel (powerLevels m))%Z) then ok
  else membershipFailed m.

(** membershipAllowed checks whether the membership event is allowed. *)
Definition membershipAllowed (m : membershipAllower) (event : Event) : outcome :=
  if negb (string_eqb (roomID (create m)) (RoomID event)) then
    err (errorf "create event has different roomID: %q != %q"
           [AString (RoomID event); AString (roomID (create m))])
  else
    match userIDAllowed (create m) (senderID m) with
    | Some e => err e
    | None =>
    match userIDAllowed (create m) (targetID m) with
    | Some e => err e
    | None =>
      let bootstrap :=
        string_eqb (targetID m) (Creator (create m))
        && string_eqb (Membership (newMember m)) join
        && string_eqb (senderID m) (targetID m)
        && (len (PrevEvents event) =? 1)%Z
        && match PrevEvents event with
           | prevEvent :: _ =>
             string_eqb (EventReference.EventID prevEvent) (eventID (create m))
           | [] => false
           end in
      if bootstrap then ok
      else if string_eqb (Membership (newMember m)) invite
              && negb (Z.of_nat (String.length (ThirdPartyInvite (newMember m))) =? 0)%Z
      then panic "ThirdPartyInvite not implemented"
      else if string_eqb (targetID m) (senderID m) then membershipAllowedSelf m
      else membershipAllowedOther m
    end end.

(** memberEventAllowed checks whether the m.room.member event is allowed. *)
Definition memberEventAllowed (event : Event) (authEvents : AuthEvents)
    : outcome :=
  match newMembershipAllower authEvents event with
  | inl e => err e
  | inr allower => membershipAllowed allower event
  end.

(** Allowed checks whether an event is allowed by the auth events. *)
Definition Allowed (event : Event) (authEvents : AuthEvents) : outcome :=
  if string_eqb (Type_ event) "m.room.create" then createEventAllowed event
  else if string_eqb (Type_ event) "m.room.aliases" then
    aliasEventAllowed event authEvents
  else if string_eqb (Type_ event) "m.room.member" then
    memberEventAllowed event authEvents
  else if string_eqb (Type_ event) "m.room.power_levels" then
    powerLevelsEventAllowed event authEvents
  else if string_eqb (Type_ event) "m.room.redaction" then
    redactEventAllowed event authEvents
  else defaultEventAllowed event authEvents.

End Rules.

End EventAuth.

(** * roomserver/api/input.go and roomserver/input/event.go *)
Module Input.

Definition KindOutlier : Z := 1.
Definition KindJoin : Z := 2.
Definition KindNew : Z := 3.
Definition KindBackfill : Z := 4.

(** [State] is [None] for a nil slice. *)
Record InputEvent : Type := {
  Kind : Z;
  Event : string;
  State : option (list string)
}.

Record StateEntry : Type := {
  EventTypeNID : Z;
  EventStateKeyNID : Z;
  EventNID : Z
}.

Record StateAtEvent : Type := {
  BeforeStateID : Z;
  EventStateEntry : StateEntry
}.

Record eventReference : Type := { ref_EventID : string }.

Record event : Type := {
  raw : string;
  stateBefore : list StateEntry;
  eventStateEntry : StateEntry;
  stateAtPrevEvents : list StateAtEvent;
  EventID : string;
  RoomID : string;
  PrevEvents : list eventReference;
  Type_ : string;
  Depth : Z;
  StateKey : option string;
  Content : string
}.

Definition zeroStateEntry : StateEntry :=
  {| EventTypeNID := 0; EventStateKeyNID := 0; EventNID := 0 |}.

(** The zero value of [event]. *)
Definition zeroEvent : event :=
  {| raw := EmptyString; stateBefore := []; eventStateEntry := zeroStateEntry;
     stateAtPrevEvents := []; EventID := EmptyString; RoomID := EmptyString;
     PrevEvents := []; Type_ := EmptyString; Depth := 0; StateKey := None;
     Content := EmptyString |}.

Definition set_raw (e : event) (v : string) : event :=
  {| raw := v; stateBefore := stateBefore e;
     eventStateEntry := eventStateEntry e;
     stateAtPrevEvents := stateAtPrevEvents e; EventID := EventID e;
     RoomID := RoomID e; PrevEvents := PrevEvents e; Type_ := Type_ e;
     Depth := Depth e; StateKey := StateKey e; Content := Content e |}.

Definition set_stateBefore (e : event) (v : list StateEntry) : event :=
  {| raw := raw e; stateBefore := v;
     eventStateEntry := eventStateEntry e;
     stateAtPrevEvents := stateAtPrevEvents e; EventID := EventID e;
     RoomID := RoomID e; PrevEvents := PrevEvents e; Type_ := Type_ e;
     Depth := Depth e; StateKey := StateKey e; Content := Content e |}.

Definition set_stateAtPrevEvents (e : event) (v : list StateAtEvent) : event :=
  {| raw := raw e; stateBefore := stateBefore e;
     eventStateEntry := eventStateEntry e;
     stateAtPrevEvents := v; EventID := EventID e;
     RoomID := RoomID e; PrevEvents := PrevEvents e; Type_ := Type_ e;
     Depth := Depth e; StateKey := StateKey e; Content := Content e |}.

(** The methods of [InputEventHandlerDatabase] that the handler calls, as
    calls indexed by what they return.  [CreateRoomLock] returns the unlock function; calling it
    is the call [UnlockCreateRoom]. *)
Inductive dbCall : Type -> Type :=
| CreateRoomLock (roomID : string) : dbCall unit
| UnlockCreateRoom (roomID : string) : dbCall unit
| NextRoomNID : dbCall Z
| InsertNewRoom (roomNID : Z) (roomID : string) : dbCall (option error)
| RoomNID (roomID : string) : dbCall (Z * option error)
| StateAtEvents (eventIDs : list string) : dbCall (list StateAtEvent * option error)
| StateEventNIDs (eventIDs : list string) : dbCall (list StateEntry * option error)
| ActiveRegionNID (roomNID : Z) : dbCall (Z * option error).

(** A handler method body: a result, or a database call and what to do with
    its answer. *)
Inductive prog (A : Type) : Type :=
| Ret (a : A)
| Call {X : Type} (c : dbCall X) (k : X -> prog A).
Arguments Ret {A} a.
Arguments Call {A X} c k.

Notation "'call!' x := c 'in' k" := (Call c (fun x => k))
  (at level 10, x pattern, c at level 100, k at level 200).

(** An implementation of the database interface over a state [DB]. *)
Class Database (DB : Type) : Type :=
  handle : forall X : Type, dbCall X -> DB -> X * DB.

Inductive anyCall : Type :=
| called (X : Type) (c : dbCall X).
Arguments called {X} c.

(** Running a method body against a database: the result, the final
    database and the calls made, in order. *)
Fixpoint run {DB : Type} `{Database DB} {A : Type} (p : prog A) (db : DB)
    : A * DB * list anyCall :=
  match p with
  | Ret a => (a, db, [])
  | Call c k =>
    let '(x, db') := handle _ c db in
    let '(a, db'', calls) := run (k x) db' in
    (a, db'', called c :: calls)
  end.

(** [sort.Strings]: the strings in increasing byte-wise order. *)
Fixpoint insertSorted (s : string) (l : list string) : list string :=
  match l with
  | [] => [s]
  | x :: l' => if String.leb s x then s :: l else x :: insertSorted s l'
  end.

Definition sort_Strings (l : list string) : list string :=
  foldr insertSorted [] l.

(** The loop of [unique]: [i] is the index [range] has reached and [n] the
    number of elements still to visit; [a] is updated in place. *)
Fixpoint unique_loop (n i : nat) (a : list string) (lastValue : string) (j : nat)
    : list string * string * nat :=
  match n with
  | O => (a, lastValue, j)
  | S n' =>
    match a !! i with
    | Some value =>
      if negb (string_eqb value lastValue) then
        unique_loop n' (S i) (<[j:=lastValue]> a) value (S j)
      else unique_loop n' (S i) a lastValue j
    | None => (a, lastValue, j)
    end
  end.

(** unique removes duplicate elements from a sorted slice. *)
Definition unique (a : list string) : list string :=
  match a with
  | [] => []
  | a0 :: _ =>
    let '(a', lastValue, j) := unique_loop (length a) 0 a a0 0 in
    take (S j) (<[j:=lastValue]> a')
  end.

Section Handler.

(** [json.Unmarshal] into an [event]. *)
Variable Unmarshal : string -> event -> event * option error.

Definition prepareState (input : InputEvent)
    : prog (string * event * option error) :=
  let ev := set_raw zeroEvent (Event input) in
  match Unmarshal (raw ev) ev with
  | (ev, Some e) => Ret (EmptyString, ev, Some e)
  | (ev, None) =>
    let roomID := RoomID ev in
    match State input with
    | Some state =>
      call! (entries, e) := StateEventNIDs state in
      let ev := set_stateBefore ev entries in
      match e with
      | Some e => Ret (roomID, ev, Some e)
      | None =>
        if negb (len (stateBefore ev) =? len state)%Z then
          Ret (roomID, ev,
               Some (Errorf "Missing necessary state event for %q"
                       [AString (EventID ev)]))
        else Ret (roomID, ev, None)
      end
    | None =>
      let prevEventIDs := map ref_EventID (PrevEvents ev) in
      let prevEventIDs := sort_Strings prevEventIDs in
      let prevEventIDs := unique prevEventIDs in
      call! (states, e) := StateAtEvents prevEventIDs in
      let ev := set_stateAtPrevEvents ev states in
      match e with
      | Some e => Ret (roomID, ev, Some e)
      | None =>
        if negb (len (stateAtPrevEvents ev) =? len prevEventIDs)%Z then
          Ret (roomID, ev,
               Some (Errorf "Missing necessary state at prev_event for %q"
                       [AString (EventID ev)]))
        else Ret (roomID, ev, None)
      end
    end
  end.

End Handler.

Definition prepareRoom (kind : Z) (roomID : string) : prog (Z * option error) :=
  call! (roomNID, e) := RoomNID roomID in
  if bool_decide (e <> None) || negb (roomNID =? 0)%Z then Ret (roomNID, e)
  else if negb (kind =? KindOutlier)%Z then
    Ret (roomNID,
         Some (Errorf "The first events added to a room must be outliers: %q"
                 [AString roomID]))
  else
    call! _ := CreateRoomLock roomID in
    call! (roomNID, e) := RoomNID roomID in
    if bool_decide (e <> None) || negb (roomNID =? 0)%Z then
      call! _ := UnlockCreateRoom roomID in Ret (roomNID, e)
    else
      call! roomNID := NextRoomNID in
      call! e := InsertNewRoom roomNID roomID in
      call! _ := UnlockCreateRoom roomID in
      Ret (roomNID, e).

Definition prepareRegion (kind : Z) (roomNID : Z) : prog (Z * option error) :=
  call! (regionNID, e) := ActiveRegionNID roomNID in
  if bool_decide (e <> None) || negb (regionNID =? 0)%Z then Ret (regionNID, e)
  else if negb (kind =? KindJoin)%Z then
    Ret (regionNID,
         Some (Errorf "A room can only be actived by a Join: %d" [AInt roomNID]))
  else Ret (regionNID, e).

(** Sequencing of two method bodies. *)
Fixpoint bind {A B : Type} (p : prog A) (k : A -> prog B) : prog B :=
  match p with
  | Ret a => k a
  | Call c k' => Call c (fun x => bind (k' x) k)
  end.

Definition insertEvent (roomNID : Z) (ev : event) : option error := None.

Section Handle.
Variable Unmarshal : string -> event -> event * option error.

(** Handle: the state is prepared, then the room; the event is inserted and
    the error of [insertEvent] is dropped, as in the source. *)
Definition Handle (input : InputEvent) : prog (option error) :=
  bind (prepareState Unmarshal input) (fun '(roomID, ev, e) =>
    match e with
    | Some e => Ret (Some e)
    | None =>
      bind (prepareRoom (Kind input) roomID) (fun '(roomNID, e) =>
        match e with
        | Some e => Ret (Some e)
        | None =>
          let _ := insertEvent roomNID ev in
          if (Kind input =? KindOutlier)%Z then Ret None else Ret None
        end)
    end).

End Handle.

(** Modelled from the spec: the database contract of section 6, over a
    state that records the room registry, the room nid sequence and the
    persisted state.  [RoomNID] answers 0 for an unknown room,
    [NextRoomNID] hands out the next value of the sequence, and the bulk
    lookups answer with the entries that are persisted, so that a missing
    one makes the answer shorter than the request. *)
Record refDB : Type := {
  rooms : gmap string Z;
  roomNIDSeq : Z;
  stateAtEvents : gmap string StateAtEvent;
  stateEventNIDs : gmap string StateEntry;
  activeRegions : gmap Z Z;
  createRoomLocks : list string
}.

Definition with_rooms (db : refDB) (r : gmap string Z) (seq : Z)
    (locks : list string) : refDB :=
  {| rooms := r; roomNIDSeq := seq; stateAtEvents := stateAtEvents db;
     stateEventNIDs := stateEventNIDs db; activeRegions := activeRegions db;
     createRoomLocks := locks |}.

Section Reference.

(** What the other requests did to the database while this one waited for
    the room-creation lock. *)
Variable others : refDB -> refDB.

Definition refHandle (X : Type) (c : dbCall X) (db : refDB) : X * refDB :=
  match c in dbCall X return X * refDB with
  | CreateRoomLock roomID =>
    let db := others db in
    (tt, with_rooms db (rooms db) (roomNIDSeq db) (roomID :: createRoomLocks db))
  | UnlockCreateRoom roomID =>
    (tt, with_rooms db (rooms db) (roomNIDSeq db)
           (filter (fun l => l <> roomID) (createRoomLocks db)))
  | NextRoomNID =>
    (roomNIDSeq db,
     with_rooms db (rooms db) (roomNIDSeq db + 1) (createRoomLocks db))
  | InsertNewRoom roomNID roomID =>
    (None,
     with_rooms db (<[roomID:=roomNID]> (rooms db)) (roomNIDSeq db)
       (createRoomLocks db))
  | RoomNID roomID => ((default 0 (rooms db !! roomID), None), db)
  | StateAtEvents eventIDs =>
    ((omap (fun id => stateAtEvents db !! id) eventIDs, None), db)
  | StateEventNIDs eventIDs =>
    ((omap (fun id => stateEventNIDs db !! id) eventIDs, None), db)
  | ActiveRegionNID roomNID =>
    ((default 0 (activeRegions db !! roomNID), None), db)
  end.

End Reference.

(** The sequence starts at 1 and every assigned room nid was handed out by
    it. *)
Definition roomsAssigned (db : refDB) : Prop :=
  (0 < roomNIDSeq db)%Z
  /\ forall roomID nid, rooms db !! roomID = Some nid ->
       (0 < nid < roomNIDSeq db)%Z.

Definition emptyDB : refDB :=
  {| rooms := ∅; roomNIDSeq := 1; stateAtEvents := ∅; stateEventNIDs := ∅;
     activeRegions := ∅; createRoomLocks := [] |}.

End Input.

(** * roomserver/storage: the state snapshot table *)
Module Storage.

(** [types.StateBlockNIDList]: the block nids of one snapshot. *)
Record StateBlockNIDList : Type := {
  StateSnapshotNID : Z;
  StateBlockNIDs : list Z
}.

Definition zeroStateBlockNIDList : StateBlockNIDList :=
  {| StateSnapshotNID := 0; StateBlockNIDs := [] |}.

(** A row of the result set: [Scan] fills the two columns or fails. *)
Definition row : Type := error + (Z * list Z).

(** The loop over [rows.Next()]: [result := &results[i]] is taken before
    the row is scanned. *)
Fixpoint scanRows (rows : list row) (results : list StateBlockNIDList) (i : nat)
    : (list StateBlockNIDList * nat) + outcome :=
  match rows with
  | [] => inl (results, i)
  | r :: rows =>
    if bool_decide (length results <= i)%nat then
      inr (panic "index out of range")
    else
      match r with
      | inl e => inr (err e)
      | inr (nid, stateBlockNIDs) =>
        scanRows rows
          (<[i:={| StateSnapshotNID := nid; StateBlockNIDs := stateBlockNIDs |}]>
             results)
          (S i)
      end
  end.

Section Statements.

(** [bulkSelectStateBlockNIDsStmt.Query]: the rows of the result set in
    order, or an error. *)
Variable Query : list Z -> list row * option error.

Definition bulkSelectStateBlockNIDs (stateNIDs : list Z)
    : list StateBlockNIDList * outcome :=
  let nids := stateNIDs in
  match Query nids with
  | (_, Some e) => ([], err e)
  | (rows, None) =>
    let results := replicate (length stateNIDs) zeroStateBlockNIDList in
    match scanRows rows results 0 with
    | inr failure => ([], failure)
    | inl (results, i) =>
      if negb (Z.of_nat i =? len stateNIDs)%Z then
        ([], err (Errorf "storage: state NIDs missing from the database (%d != %d)"
                    [AInt (Z.of_nat i); AInt (len stateNIDs)]))
      else (results, ok)
    end
  end.

End Statements.

(** The table [state_snapshots]: [state_snapshot_nid] is the primary key,
    the columns [room_nid] and [state_block_nids] are the value. *)
Abbreviation state_snapshots := (gmap Z (Z * list Z)).

Fixpoint insertByNID (r : Z * list Z) (l : list (Z * list Z))
    : list (Z * list Z) :=
  match l with
  | [] => [r]
  | x :: l' => if (r.1 <=? x.1)%Z then r :: l else x :: insertByNID r l'
  end.

(** [ORDER BY state_snapshot_nid ASC] *)
Definition orderByNID (l : list (Z * list Z)) : list (Z * list Z) :=
  foldr insertByNID [] l.

(** [bulkSelectStateBlockNIDsSQL] on a table: the rows whose nid is one of
    the requested ones, with the columns [state_snapshot_nid] and
    [state_block_nids], ordered by nid. *)
Definition bulkSelectStateBlockNIDsSQL (table : state_snapshots) (nids : list Z)
    : list (Z * list Z) :=
  orderByNID
    (map (fun kv : Z * (Z * list Z) => (kv.1, kv.2.2))
       (filter (fun kv : Z * (Z * list Z) => kv.1 ∈ nids) (map_to_list table))).

Definition tableQuery (table : state_snapshots) (nids : list Z)
    : list row * option error :=
  (map inr (bulkSelectStateBlockNIDsSQL table nids), None).

(** The table together with its sequence [state_snapshot_nid_seq]; the
    field holds the value [nextval] hands out next. *)
Record snapshotDB : Type := {
  snapshots : state_snapshots;
  state_snapshot_nid_seq : Z
}.

(** [insertStateSQL] on the table: the new row takes the next value of the
    sequence as its [state_snapshot_nid], which is returned; the sequence
    advances whether or not the insert goes through, and a nid that is
    already in the table violates the primary key. *)
Definition insertStateSQL (db : snapshotDB) (room_nid : Z)
    (state_block_nids : list Z) : (error + Z) * snapshotDB :=
  let nid := state_snapshot_nid_seq db in
  match snapshots db !! nid with
  | Some _ =>
    (inl (OtherError "pq: duplicate key value violates unique constraint"),
     {| snapshots := snapshots db; state_snapshot_nid_seq := (nid + 1)%Z |})
  | None =>
    (inr nid,
     {| snapshots := <[nid:=(room_nid, state_block_nids)]> (snapshots db);
        state_snapshot_nid_seq := (nid + 1)%Z |})
  end.

(** insertState: [QueryRow(...).Scan(&stateNID)]; on an error [stateNID]
    keeps its zero value. *)
Definition insertState (db : snapshotDB) (roomNID : Z) (stateBlockNIDs : list Z)
    : (Z * option error) * snapshotDB :=
  let nids := stateBlockNIDs in
  match insertStateSQL db roomNID nids with
  | (inr stateNID, db') => ((stateNID, None), db')
  | (inl e, db') => ((0%Z, Some e), db')
  end.

End Storage.

(** * gomatrixserverlib/eventauth.go: the state needed for auth *)
Module StateNeeded.

(** StateNeeded lists the event types and state_keys needed to authenticate
    an event. *)
Record StateNeeded : Type := {
  Create : bool;
  JoinRules : bool;
  PowerLevels : bool;
  Member : list string;
  ThirdPartyInvite : list string
}.

(** [sort.StringSlice]: [Less] and [Swap] index the slice and panic when an
    index is out of range; [None] is that panic. *)
Definition Less (p : list string) (i j : nat) : option bool :=
  match p !! i, p !! j with
  | Some x, Some y => Some (String.ltb x y)
  | _, _ => None
  end.

Definition Swap (p : list string) (i j : nat) : option (list string) :=
  match p !! i, p !! j with
  | Some x, Some y => Some (<[i:=y]> (<[j:=x]> p))
  | _, _ => None
  end.

(** The loop of [unique]: [i] is the loop index and [n] the number of
    iterations left. *)
Fixpoint unique_loop (n i : nat) (data : list string) (j : nat)
    : option (list string * nat) :=
  match n with
  | O => Some (data, j)
  | S n' =>
    match Less data (i - 1) i with
    | None => None
    | Some true =>
      match Swap data (i - 1) j with
      | None => None
      | Some data' => unique_loop n' (S i) data' (S j)
      end
    | Some false => unique_loop n' (S i) data j
    end
  end.

(** unique removes duplicate items from a sorted list: it returns the
    slice as it leaves it and the length of the data without duplicates. *)
Definition unique (data : list string) : option (list string * nat) :=
  let length := length data in
  if bool_decide (length = 0%nat) then Some (data, 0%nat)
  else
    match unique_loop (length - 1) 1 data 0 with
    | None => None
    | Some (data', j) =>
      match Swap data' (length - 1) j with
      | None => None
      | Some data'' => Some (data'', (j + 1)%nat)
      end
    end.

(** [sort.Strings(l)] followed by [l[:unique(sort.StringSlice(l))]]. *)
Definition deduplicate (l : list string) : option (list string) :=
  match unique (Input.sort_Strings l) with
  | Some (data, n) => Some (take n data)
  | None => None
  end.

(** The variables of the loop of StateNeededForAuth. *)
Record needs : Type := {
  result_Create : bool;
  result_JoinRules : bool;
  result_PowerLevels : bool;
  members : list string;
  thirdpartyinvites : list string
}.

Definition noNeeds : needs :=
  {| result_Create := false; result_JoinRules := false;
     result_PowerLevels := false; members := []; thirdpartyinvites := [] |}.

Section StateNeededForAuth.
Context {ops : EventAuth.ContentOps}.

(** The test [content.ThirdPartyInvite != nil] and [thirdPartyInviteToken]
    taken together: [None] for a nil raw message, else the token or the
    error of decoding it. *)
Variable thirdPartyInviteToken : EventAuth.memberContent -> option (error + string).

(** One iteration of the loop over the events. *)
Definition needsOf (acc : needs) (event : Event) : needs :=
  if string_eqb (Type_ event) "m.room.create" then acc
  else if string_eqb (Type_ event) "m.room.aliases" then
    {| result_Create := true; result_JoinRules := result_JoinRules acc;
       result_PowerLevels := result_PowerLevels acc; members := members acc;
       thirdpartyinvites := thirdpartyinvites acc |}
  else if string_eqb (Type_ event) "m.room.member" then
    match EventAuth.newMemberContentFromEvent event with
    | (_, Some _) => acc
    | (content, None) =>
      {| result_Create := true;
         result_JoinRules :=
           if string_eqb (EventAuth.Membership content) EventAuth.join then true
           else result_JoinRules acc;
         result_PowerLevels := true;
         members :=
           match StateKey event with
           | Some stateKey => members acc ++ [Sender event; stateKey]
           | None => members acc
           end;
         thirdpartyinvites :=
           match thirdPartyInviteToken content with
           | Some (inr token) => thirdpartyinvites acc ++ [token]
           | _ => thirdpartyinvites acc
           end |}
    end
  else
    {| result_Create := true; result_JoinRules := result_JoinRules acc;
       result_PowerLevels := true; members := members acc ++ [Sender event];
       thirdpartyinvites := thirdpartyinvites acc |}.

(** StateNeededForAuth returns the event types and state_keys needed to
    authenticate an event; [None] is a panic of [unique]. *)
Definition StateNeededForAuth (events : list Event) : option StateNeeded :=
  let acc := fold_left needsOf events noNeeds in
  match deduplicate (members acc) with
  | None => None
  | Some member =>
    match deduplicate (thirdpartyinvites acc) with
    | None => None
    | Some thirdPartyInvite =>
      Some {| Create := result_Create acc; JoinRules := result_JoinRules acc;
              PowerLevels := result_PowerLevels acc; Member := member;
              ThirdPartyInvite := thirdPartyInvite |}
    end
  end.

End StateNeededForAuth.

End StateNeeded.

(** * Sample data

    A concrete instance of the helpers, used to evaluate the rules on
    examples. *)
Module Sample.
Import EventAuth.

Fixpoint afterColon (s : string) : option string :=
  match s with
  | EmptyString => None
  | String c s' => if bool_decide (c = ":"%char) then Some s' else afterColon s'
  end.

(** Modelled from the spec: [domainFromID] splits an id of the form
    sigil, localpart, colon, domain into its domain and fails with
    InvalidID otherwise. *)
Definition domainFromID_spec (id : string) : error + string :=
  match afterColon id with
  | Some domain => inr domain
  | None => inl (InvalidID id)
  end.

(** Modelled from the spec: the m.federate flag of the create content
    permits a domain unless it is false and the domain is not the room
    creator's. *)
Definition domainAllowed_spec (c : createContent) (domain : string)
    : option error :=
  if bool_decide (afterColon (Creator c) = Some domain) then None
  else
    match Federate c with
    | Some false => Some (errorf "room is unfederatable" [])
    | _ => None
    end.

(** Modelled from the spec: a user id is permitted when its domain is. *)
Definition userIDAllowed_spec (c : createContent) (id : string) : option error :=
  match domainFromID_spec id with
  | inl e => Some e
  | inr domain => domainAllowed_spec c domain
  end.

(** Modelled from the spec: a user id has the form at sign, localpart,
    colon, domain. *)
Definition isValidUserID_spec (id : string) : bool :=
  bool_decide (firstByte id = Some "@"%char)
  && bool_decide (afterColon id <> None).

(** Modelled from the spec: [userLevel] is the per-user entry when there
    is one and the user default otherwise. *)
Definition userLevel_spec (c : powerLevelContent) (userID : string) : Z :=
  match userLevels c !! userID with
  | Some level => level
  | None => userDefaultLevel c
  end.

(** Modelled from the spec: [eventLevel] returns the per-type override if
    present, else the state default when [isState], else the event
    default. *)
Definition eventLevel_spec (c : powerLevelContent) (eventType : string)
    (isState : bool) : Z :=
  match eventLevels c !! eventType with
  | Some level => level
  | None => if isState then stateDefaultLevel c else eventDefaultLevel c
  end.

(** The helpers, with loaders that answer with the given contents. *)
Definition sampleOps (c : createContent) (members : string -> memberContent)
    (newMember : memberContent) (levels newLevels : powerLevelContent)
    (rule : joinRuleContent) : ContentOps :=
  {| domainFromID := domainFromID_spec;
     isValidUserID := isValidUserID_spec;
     userLevel := userLevel_spec;
     eventLevel := eventLevel_spec;
     userIDAllowed := userIDAllowed_spec;
     domainAllowed := domainAllowed_spec;
     newCreateContentFromAuthEvents := fun _ => (c, None);
     newMemberContentFromAuthEvents := fun _ id => (members id, None);
     newMemberContentFromEvent := fun _ => (newMember, None);
     newPowerLevelContentFromAuthEvents := fun _ _ => (levels, None);
     newPowerLevelContentFromEvent := fun _ => (newLevels, None);
     newJoinRuleContentFromAuthEvents := fun _ => (rule, None) |}.

Definition member (membership : string) : memberContent :=
  {| Membership := membership; ThirdPartyInvite := EmptyString |}.

Definition levels (users : gmap string Z) (usersDefault : Z) : powerLevelContent :=
  {| banLevel := 50; inviteLevel := 0; kickLevel := 50; redactLevel := 50;
     userLevels := users; userDefaultLevel := usersDefault;
     eventLevels := ∅; eventDefaultLevel := 0; stateDefaultLevel := 50 |}.

Definition room : createContent :=
  {| roomID := "!r:x"; eventID := "$create:x"; Creator := "@a:x";
     Federate := None |}.

Definition ops : ContentOps :=
  sampleOps room (fun _ => member "join") (member "join")
    (levels ∅ 0) (levels ∅ 0) {| JoinRule := "public" |}.

Definition noAuthEvents : AuthEvents :=
  {| Create := (None, None); JoinRules := (None, None);
     PowerLevels := (None, None); Member := fun _ => (None, None);
     ThirdPartyInviteEvent := fun _ => (None, None) |}.

Definition createEvent : Event :=
  {| EventID := "$create:x"; RoomID := "!r:x"; Sender := "@a:x";
     Type_ := "m.room.create"; StateKey := Some EmptyString; PrevEvents := [];
     Content := EmptyString; Redacts := EmptyString |}.

(** A membership change of [target] by [sender] in the sample room. *)
Definition allower (target sender : string) (oldMember newMember : memberContent)
    (rule : string) : membershipAllower :=
  {| targetID := target; senderID := sender;
     senderMember := if string_eqb target sender then oldMember else member "join";
     oldMember := oldMember; newMember := newMember; create := room;
     powerLevels := levels ∅ 0;
     joinRule := {| JoinRule :=
                      if string_eqb (Membership newMember) "join" then rule
                      else EmptyString |} |}.

Definition allowerOps (target sender : string) (oldMember newMember : memberContent)
    (rule : string) : ContentOps :=
  sampleOps room
    (fun id => if string_eqb id target then oldMember else member "join")
    newMember (levels ∅ 0) (levels ∅ 0) {| JoinRule := rule |}.

Definition memberEvent (roomID sender target : string) (prevEvents : list string)
    : Event :=
  {| EventID := "$member:x"; RoomID := roomID; Sender := sender;
     Type_ := "m.room.member"; StateKey := Some target;
     PrevEvents := map EventReference.Build prevEvents;
     Content := EmptyString; Redacts := EmptyString |}.

Definition thirdPartyInviteContent : memberContent :=
  {| Membership := "invite"; ThirdPartyInvite := "{}" |}.

Definition powerLevelsEvent : Event :=
  {| EventID := "$levels2:x"; RoomID := "!r:x"; Sender := "@a:x";
     Type_ := "m.room.power_levels"; StateKey := Some EmptyString;
     PrevEvents := [EventReference.Build "$levels1:x"];
     Content := EmptyString; Redacts := EmptyString |}.

(** Auth events in which a power_levels event is present. *)
Definition withPowerLevels : AuthEvents :=
  {| Create := (Some createEvent, None); JoinRules := (None, None);
     PowerLevels := (Some powerLevelsEvent, None);
     Member := fun _ => (None, None);
     ThirdPartyInviteEvent := fun _ => (None, None) |}.

(** Every user is joined; the room has the levels [oldLevels] and the event
    sets [newLevels]. *)
Definition levelsOps (oldLevels newLevels : powerLevelContent) : ContentOps :=
  sampleOps room (fun _ => member "join") (member "join") oldLevels newLevels
    {| JoinRule := "public" |}.

Definition joinedAllower (oldLevels : powerLevelContent) : eventAllower :=
  {| ea_create := room; ea_member := member "join";
     ea_powerLevels := oldLevels |}.

Definition redactionEvent (sender redacts : string) : Event :=
  {| EventID := "$redaction:x"; RoomID := "!r:x"; Sender := sender;
     Type_ := "m.room.redaction"; StateKey := None;
     PrevEvents := [EventReference.Build "$m:y"];
     Content := EmptyString; Redacts := redacts |}.

Definition stateEvent (sender key : string) : Event :=
  {| EventID := "$state:x"; RoomID := "!r:x"; Sender := sender;
     Type_ := "m.custom"; StateKey := Some key;
     PrevEvents := [EventReference.Build "$m:y"];
     Content := EmptyString; Redacts := EmptyString |}.

(** An input event with the given prev_event ids. *)
Definition withPrevEvents (raw : string) (ids : list string) : Input.event :=
  {| Input.raw := raw; Input.stateBefore := [];
     Input.eventStateEntry := Input.zeroStateEntry;
     Input.stateAtPrevEvents := []; Input.EventID := "$e:x";
     Input.RoomID := "!r:x";
     Input.PrevEvents := map Input.Build_eventReference ids;
     Input.Type_ := "m.room.message"; Input.Depth := 3;
     Input.StateKey := None; Input.Content := EmptyString |}.

(** A stand-in for [json.Unmarshal] that knows two documents: one lists
    a prev_event twice, the other lists each once in another order. *)
Definition sampleUnmarshal (raw : string) (ev : Input.event)
    : Input.event * option error :=
  if string_eqb raw "twice" then
    (withPrevEvents raw ["$p:x"; "$q:x"; "$p:x"], None)
  else if string_eqb raw "once" then
    (withPrevEvents raw ["$q:x"; "$p:x"], None)
  else (ev, Some (OtherError "invalid character")).

Definition newInput (raw : string) : Input.InputEvent :=
  {| Input.Kind := Input.KindNew; Input.Event := raw; Input.State := None |}.

Definition someState (nid : Z) : Input.StateAtEvent :=
  {| Input.BeforeStateID := nid;
     Input.EventStateEntry := Input.zeroStateEntry |}.

(** A database in which room "!r:x" has nid 1 and the events "$p:x" and
    "$q:x" have persisted state. *)
Definition sampleDB : Input.refDB :=
  {| Input.rooms := {[ "!r:x" := 1%Z ]}; Input.roomNIDSeq := 2;
     Input.stateAtEvents := {[ "$p:x" := someState 1; "$q:x" := someState 2 ]};
     Input.stateEventNIDs := ∅; Input.activeRegions := ∅;
     Input.createRoomLocks := [] |}.

End Sample.

(** * Vocabulary of the statements *)
Module Terms.
Import EventAuth.

(** The creator joins right after the create event: target, sender and
    creator are one user, the new membership is join, and the only
    prev_event is the create event. *)
Definition creatorBootstrap (m : membershipAllower) (event : Event) : Prop :=
  targetID m = Creator (create m)
  /\ senderID m = targetID m
  /\ Membership (newMember m) = join
  /\ exists prevEvent, PrevEvents event = [prevEvent]
       /\ EventReference.EventID prevEvent = eventID (create m).

(** The changes a user may make to their own membership. *)
Definition selfChange (oldMembership newMembership rule : string) : Prop :=
  (oldMembership = leave /\ newMembership = join /\ rule = public)
  \/ (oldMembership = invite /\ newMembership = join
      /\ (rule = invite \/ rule = public))
  \/ (oldMembership = join /\ newMembership = join)
  \/ (oldMembership = join /\ newMembership = leave)
  \/ (oldMembership = invite /\ newMembership = leave).

(** An invite that carries a third_party_invite. *)
Definition thirdPartyInvite (m : membershipAllower) : Prop :=
  Membership (newMember m) = invite
  /\ ThirdPartyInvite (newMember m) <> EmptyString.

Definition isNotAllowedOutcome (o : outcome) : Prop :=
  exists message args, o = err (NotAllowed message args).

(** What checkEventLevels asks of one pair of levels. *)
Definition eventPairAllowed (senderLevel : Z) (level : levelPair) : Prop :=
  old level = new level
  \/ (~ (senderLevel < new level)%Z /\ ~ (senderLevel < old level)%Z).

(** What checkUserLevels asks of one pair of levels. *)
Definition userPairAllowed (senderLevel : Z) (senderID : string)
    (level : userLevelPair) : Prop :=
  u_old level = u_new level
  \/ (~ (senderLevel < u_new level)%Z
      /\ (u_userID level = senderID \/ ~ (senderLevel <= u_old level)%Z)).

(** A level changes within the sender's level: it is unchanged, or neither
    the new nor the old level is above the sender's. *)
Definition levelChangeAllowed (senderLevel oldLevel newLevel : Z) : Prop :=
  oldLevel = newLevel
  \/ (~ (senderLevel < newLevel)%Z /\ ~ (senderLevel < oldLevel)%Z).

(** The level of another user changes: it is unchanged, or the new level is
    not above the sender's and the old level is below the sender's. *)
Definition otherUserChangeAllowed (senderLevel oldLevel newLevel : Z) : Prop :=
  oldLevel = newLevel
  \/ (~ (senderLevel < newLevel)%Z /\ ~ (senderLevel <= oldLevel)%Z).

(** The level paired with the sender's own id changes: it is unchanged, or
    the new level is not above the sender's. *)
Definition ownChangeAllowed (senderLevel oldLevel newLevel : Z) : Prop :=
  oldLevel = newLevel \/ ~ (senderLevel < newLevel)%Z.

(** A list without its repeated neighbours: of each run of equal elements
    one is kept. *)
Fixpoint compress_from (lastValue : string) (l : list string) : list string :=
  match l with
  | [] => [lastValue]
  | value :: l' =>
    if string_eqb value lastValue then compress_from lastValue l'
    else lastValue :: compress_from value l'
  end.

Definition compress (l : list string) : list string :=
  match l with
  | [] => []
  | a0 :: l' => compress_from a0 l'
  end.

(** Byte-wise order on strings, as [sort.Strings] uses it. *)
Definition string_le (a b : string) : Prop := String.leb a b = true.

(** Two results of prepareState agree: they are the same, or both report
    missing state at a prev_event, each for its own event id. *)
Definition sameOutcome (e1 e2 : option error) (id1 id2 : string) : Prop :=
  e1 = e2
  \/ (e1 = Some (Errorf "Missing necessary state at prev_event for %q" [AString id1])
      /\ e2 = Some (Errorf "Missing necessary state at prev_event for %q"
                      [AString id2])).

(** The result made of a row that scanned. *)
Definition mkResult (r : Z * list Z) : Storage.StateBlockNIDList :=
  {| Storage.StateSnapshotNID := r.1; Storage.StateBlockNIDs := r.2 |}.

(** Rows compared by their snapshot nid. *)
Definition nid_le (a b : Z * list Z) : Prop := (a.1 <= b.1)%Z.
Definition nid_lt (a b : Z * list Z) : Prop := (a.1 < b.1)%Z.

End Terms.

(** * Further vocabulary *)
Module MoreTerms.
Import EventAuth.

(** The elements of a list that are smaller than their successor, and the
    last one. *)
Fixpoint keepAscents_from (prev : string) (l : list string) : list string :=
  match l with
  | [] => [prev]
  | x :: l' =>
    if String.ltb prev x then prev :: keepAscents_from x l'
    else keepAscents_from x l'
  end.

Definition string_lt (a b : string) : Prop := String.ltb a b = true.

(** The changes a joined user may make to the membership of another user,
    given the levels of the two. *)
Definition otherChange (levels : powerLevelContent) (senderLevel targetLevel : Z)
    (oldMembership newMembership : string) : Prop :=
  (newMembership = ban
   /\ (banLevel levels <= senderLevel)%Z /\ (targetLevel < senderLevel)%Z)
  \/ (newMembership = leave /\ oldMembership = ban
      /\ (banLevel levels <= senderLevel)%Z)
  \/ (newMembership = leave /\ oldMembership <> ban
      /\ (kickLevel levels <= senderLevel)%Z /\ (targetLevel < senderLevel)%Z)
  \/ (newMembership = invite
      /\ (oldMembership = leave \/ oldMembership = invite)
      /\ (inviteLevel levels <= senderLevel)%Z).

Definition isPanic (o : outcome) : Prop := exists text, o = panic text.

(** Every stored snapshot nid was handed out by the sequence. *)
Definition snapshotsAssigned (db : Storage.snapshotDB) : Prop :=
  forall nid, is_Some (Storage.snapshots db !! nid) ->
    (nid < Storage.state_snapshot_nid_seq db)%Z.

(** A slice without the elements that are not smaller than their
    successor. *)
Definition keepAscents (l : list string) : list string :=
  match l with
  | [] => []
  | a0 :: l' => keepAscents_from a0 l'
  end.

Section Needs.
Context {ops : ContentOps}.
Variable thirdPartyInviteToken : memberContent -> option (error + string).

(** The content of a member event decodes. *)
Definition decodes (event : Event) (content : memberContent) : Prop :=
  newMemberContentFromEvent event = (content, None).

(** What one event needs: the create event ... *)
Definition needsCreate (event : Event) : Prop :=
  Type_ event <> "m.room.create"
  /\ (Type_ event = "m.room.member" -> exists content, decodes event content).

(** ... the power levels ... *)
Definition needsPowerLevels (event : Event) : Prop :=
  Type_ event <> "m.room.create" /\ Type_ event <> "m.room.aliases"
  /\ (Type_ event = "m.room.member" -> exists content, decodes event content).

(** ... the join rules ... *)
Definition needsJoinRules (event : Event) : Prop :=
  Type_ event = "m.room.member"
  /\ exists content, decodes event content /\ Membership content = join.

(** ... the membership of a user ... *)
Definition needsMember (event : Event) (userID : string) : Prop :=
  Type_ event <> "m.room.create" /\ Type_ event <> "m.room.aliases"
  /\ (Type_ event = "m.room.member" ->
      (exists content, decodes event content)
      /\ exists stateKey, StateKey event = Some stateKey
                          /\ (userID = Sender event \/ userID = stateKey))
  /\ (Type_ event <> "m.room.member" -> userID = Sender event).

(** ... and a third party invite. *)
Definition needsThirdPartyInvite (event : Event) (token : string) : Prop :=
  Type_ event = "m.room.member"
  /\ exists content, decodes event content
                     /\ thirdPartyInviteToken content = Some (inr token).

(** A result of StateNeededForAuth says what a list of events needs: each
    flag is set exactly when one of the events needs that event, and each
    list holds, once and in increasing order, exactly the state keys that
    one of the events needs. *)
Definition neededFor (events : list Event) (r : StateNeeded.StateNeeded) : Prop :=
  (StateNeeded.Create r = true <->
   exists event, event ∈ events /\ needsCreate event)
  /\ (StateNeeded.JoinRules r = true <->
      exists event, event ∈ events /\ needsJoinRules event)
  /\ (StateNeeded.PowerLevels r = true <->
      exists event, event ∈ events /\ needsPowerLevels event)
  /\ (NoDup (StateNeeded.Member r)
      /\ StronglySorted Terms.string_le (StateNeeded.Member r)
      /\ forall userID,
           userID ∈ StateNeeded.Member r <->
           exists event, event ∈ events /\ needsMember event userID)
  /\ (NoDup (StateNeeded.ThirdPartyInvite r)
      /\ StronglySorted Terms.string_le (StateNeeded.ThirdPartyInvite r)
      /\ forall token,
           token ∈ StateNeeded.ThirdPartyInvite r <->
           exists event, event ∈ events /\ needsThirdPartyInvite event token).

End Needs.

End MoreTerms.

(** * Further sample data *)
Module MoreSample.
Import EventAuth Sample.

(** The helpers of the sample room when the create event cannot be
    loaded. *)
Definition failingCreateOps : ContentOps :=
  {| domainFromID := domainFromID_spec;
     isValidUserID := isValidUserID_spec;
     userLevel := userLevel_spec;
     eventLevel := eventLevel_spec;
     userIDAllowed := userIDAllowed_spec;
     domainAllowed := domainAllowed_spec;
     newCreateContentFromAuthEvents :=
       fun _ => (room, Some (errorf "missing create event" []));
     newMemberContentFromAuthEvents := fun _ _ => (member "join", None);
     newMemberContentFromEvent := fun _ => (member "join", None);
     newPowerLevelContentFromAuthEvents := fun _ _ => (levels ∅ 0, None);
     newPowerLevelContentFromEvent := fun _ => (levels ∅ 0, None);
     newJoinRuleContentFromAuthEvents := fun _ => ({| JoinRule := "public" |}, None) |}.

Definition messageEvent (sender : string) : Event :=
  {| EventID := "$message:x"; RoomID := "!r:x"; Sender := sender;
     Type_ := "m.room.message"; StateKey := None;
     PrevEvents := [EventReference.Build "$e:x"];
     Content := EmptyString; Redacts := EmptyString |}.

End MoreSample.

(** * Properties of the authorization rules *)

Section AuthFacts.
Import EventAuth Terms.
Context {ops : ContentOps}.

Lemma StateKeyEquals_spec (event : Event) (s : string) :
  StateKeyEquals event s = true <-> StateKey event = Some s.
Proof.
  unfold StateKeyEquals, string_eqb. destruct (StateKey event) as [k|].
  - rewrite bool_decide_eq_true. split; [intros ->; reflexivity | congruence].
  - split; discriminate.
Qed.

Lemma len_pos_iff {A : Type} (l : list A) : (len l >? 0)%Z = false <-> l = [].
Proof.
  unfold len. destruct l; simpl; split; try reflexivity; discriminate.
Qed.

(** The create event is allowed exactly when its state key is empty, the
    room id and the sender have one and the same domain, and it has no
    prev_events. *)
Lemma createEventAllowed_ok_iff (event : Event) :
  createEventAllowed event = ok <->
  StateKey event = Some EmptyString
  /\ (exists d, domainFromID (RoomID event) = inr d
                /\ domainFromID (Sender event) = inr d)
  /\ PrevEvents event = [].
Proof.
  unfold createEventAllowed.
  destruct (StateKeyEquals event EmptyString) eqn:Hk; simpl.
  - apply StateKeyEquals_spec in Hk.
    destruct (domainFromID (RoomID event)) as [e|rd] eqn:Hr.
    { split; [discriminate | intros (_ & (d & Hd & _) & _); discriminate]. }
    destruct (domainFromID (Sender event)) as [e|sd] eqn:Hs.
    { split; [discriminate | intros (_ & (d & _ & Hd) & _); discriminate]. }
    unfold string_eqb. case_bool_decide as Hd; simpl.
    + destruct (len (PrevEvents event) >? 0)%Z eqn:Hp.
      * split; [discriminate |].
        intros (_ & _ & Hnil). apply len_pos_iff in Hnil. congruence.
      * apply len_pos_iff in Hp. split; [| reflexivity].
        intros _. subst. eauto.
    + split; [discriminate |].
      intros (_ & (d & Hd1 & Hd2) & _). congruence.
  - split; [discriminate |].
    intros (Hk' & _). apply StateKeyEquals_spec in Hk'. congruence.
Qed.

(** A create event never panics, and an error that is not a NotAllowed is
    the one [domainFromID] gave for the room id or the sender. *)
Lemma createEventAllowed_failure (event : Event) :
  createEventAllowed event = ok
  \/ (exists message args, createEventAllowed event = err (NotAllowed message args))
  \/ (exists e, createEventAllowed event = err e
                /\ (domainFromID (RoomID event) = inl e
                    \/ domainFromID (Sender event) = inl e)).
Proof.
  unfold createEventAllowed, errorf.
  destruct (StateKeyEquals event EmptyString); simpl; [| eauto 6].
  destruct (domainFromID (RoomID event)) as [e|rd]; [eauto 6 |].
  destruct (domainFromID (Sender event)) as [e|sd]; [eauto 6 |].
  destruct (negb (string_eqb sd rd)); [eauto 6 |].
  destruct (len (PrevEvents event) >? 0)%Z; eauto 6.
Qed.

(** C1: an m.room.create event is authorized without consulting the auth
    events, and authorization succeeds if and only if the state_key is the
    empty string, the sender's domain equals the room id's domain and
    prev_events is empty.  Every failure of an event whose room id and
    sender have a domain is a NotAllowed; for an id without a domain the
    failure is the error [domainFromID] gave. *)
Theorem create_authorization (event : Event) :
  Type_ event = "m.room.create" ->
  (forall authEvents, Allowed event authEvents = createEventAllowed event)
  /\ (createEventAllowed event = ok <->
      StateKey event = Some EmptyString
      /\ (exists domain, domainFromID (Sender event) = inr domain
                         /\ domainFromID (RoomID event) = inr domain)
      /\ PrevEvents event = [])
  /\ (forall roomIDDomain senderDomain,
        domainFromID (RoomID event) = inr roomIDDomain ->
        domainFromID (Sender event) = inr senderDomain ->
        (createEventAllowed event = ok <->
         StateKey event = Some EmptyString
         /\ senderDomain = roomIDDomain
         /\ PrevEvents event = [])
        /\ (createEventAllowed event <> ok ->
            isNotAllowedOutcome (createEventAllowed event)))
  /\ (createEventAllowed event <> ok ->
      isNotAllowedOutcome (createEventAllowed event)
      \/ exists e, createEventAllowed event = err e
                   /\ (domainFromID (RoomID event) = inl e
                       \/ domainFromID (Sender event) = inl e)).
Proof.
  intros Hty. split; [| split; [| split]].
  - intros authEvents. unfold Allowed. rewrite Hty. reflexivity.
  - rewrite createEventAllowed_ok_iff. split.
    + intros (Hk & (d & Hd1 & Hd2) & Hp). eauto 6.
    + intros (Hk & (d & Hd1 & Hd2) & Hp). eauto 6.
  - intros roomIDDomain senderDomain Hr Hs. split.
    + rewrite createEventAllowed_ok_iff. split.
      * intros (Hk & (d & Hd1 & Hd2) & Hp). repeat split; congruence.
      * intros (Hk & -> & Hp). repeat split; eauto.
    + intros Hne.
      destruct (createEventAllowed_failure event)
        as [H | [H | (e & _ & [H | H])]]; try congruence.
      exact H.
  - intros Hne.
    destruct (createEventAllowed_failure event) as [H | [H | H]];
      [congruence | left; exact H | right; exact H].
Qed.

(** ** Membership events *)

Lemma membershipFailed_NotAllowed (m : membershipAllower) :
  isNotAllowedOutcome (membershipFailed m).
Proof.
  unfold membershipFailed, isNotAllowedOutcome, errorf.
  destruct (string_eqb (senderID m) (targetID m)); eauto.
Qed.

Lemma membershipAllowedSelf_ok_iff (m : membershipAllower) :
  membershipAllowedSelf m = ok <->
  selfChange (Membership (oldMember m)) (Membership (newMember m))
    (JoinRule (joinRule m)).
Proof.
  unfold membershipAllowedSelf, selfChange.
  destruct (membershipFailed_NotAllowed m) as (message & args & ->).
  generalize (Membership (oldMember m)) (Membership (newMember m))
    (JoinRule (joinRule m)).
  intros o n r. unfold string_eqb, join, leave, invite, public.
  repeat case_bool_decide; simpl; split; intros Hyp; try reflexivity;
    try discriminate; subst; try tauto; try (intuition congruence).
Qed.

Lemma membershipAllowedSelf_failure (m : membershipAllower) :
  membershipAllowedSelf m <> ok -> isNotAllowedOutcome (membershipAllowedSelf m).
Proof.
  unfold membershipAllowedSelf.
  repeat match goal with
         | |- context [if ?b then ok else _] => destruct b
         end; try congruence.
  intros _. apply membershipFailed_NotAllowed.
Qed.

Lemma length_one {A : Type} (l : list A) :
  (len l =? 1)%Z = true <-> exists x, l = [x].
Proof.
  unfold len. rewrite Z.eqb_eq. destruct l as [|x [|y l]]; simpl.
  - split; [lia | intros (? & ?); discriminate].
  - split; eauto.
  - split; [lia | intros (? & ?); discriminate].
Qed.

(** Past its checks of the room id and of [userIDAllowed], membershipAllowed
    looks for the creator bootstrap first. *)
Lemma membershipAllowed_bootstrap (m : membershipAllower) (event : Event) :
  roomID (create m) = RoomID event ->
  userIDAllowed (create m) (senderID m) = None ->
  userIDAllowed (create m) (targetID m) = None ->
  creatorBootstrap m event ->
  membershipAllowed m event = ok.
Proof.
  intros Hroom Hs Ht (Hc & Hst & Hj & prevEvent & Hp & Hid).
  unfold membershipAllowed. rewrite Hs, Ht, Hp. unfold string_eqb.
  rewrite !bool_decide_eq_true_2 by done. reflexivity.
Qed.

Lemma membershipAllowed_no_bootstrap (m : membershipAllower) (event : Event) :
  roomID (create m) = RoomID event ->
  userIDAllowed (create m) (senderID m) = None ->
  userIDAllowed (create m) (targetID m) = None ->
  ~ creatorBootstrap m event ->
  membershipAllowed m event =
    if string_eqb (Membership (newMember m)) invite
       && negb (Z.of_nat (String.length (ThirdPartyInvite (newMember m))) =? 0)%Z
    then panic "ThirdPartyInvite not implemented"
    else if string_eqb (targetID m) (senderID m) then membershipAllowedSelf m
    else membershipAllowedOther m.
Proof.
  intros Hroom Hs Ht Hnb.
  unfold membershipAllowed. rewrite Hs, Ht. unfold string_eqb at 1.
  rewrite bool_decide_eq_true_2 by done. simpl.
  match goal with
  | |- (if ?b then _ else _) = _ => destruct b eqn:Hb; [| reflexivity]
  end.
  exfalso. apply Hnb.
  rewrite !andb_true_iff in Hb. destruct Hb as ((((H1 & H2) & H3) & H4) & H5).
  unfold string_eqb in *.
  apply bool_decide_eq_true in H1, H2, H3.
  apply length_one in H4. destruct H4 as (prevEvent & Hp).
  rewrite Hp in H5. apply bool_decide_eq_true in H5.
  repeat split; eauto.
Qed.

Lemma thirdPartyInvite_test (m : membershipAllower) :
  string_eqb (Membership (newMember m)) invite
  && negb (Z.of_nat (String.length (ThirdPartyInvite (newMember m))) =? 0)%Z = true
  <-> thirdPartyInvite m.
Proof.
  unfold thirdPartyInvite, string_eqb.
  rewrite andb_true_iff, bool_decide_eq_true, negb_true_iff, Z.eqb_neq.
  destruct (ThirdPartyInvite (newMember m)); simpl; split; intros [H1 H2];
    split; try done; lia.
Qed.

Lemma Allowed_member (event : Event) (authEvents : AuthEvents)
    (m : membershipAllower) :
  Type_ event = "m.room.member" ->
  newMembershipAllower authEvents event = inr m ->
  Allowed event authEvents = membershipAllowed m event.
Proof.
  intros Hty Hm. unfold Allowed, memberEventAllowed. rewrite Hty, Hm.
  reflexivity.
Qed.

Lemma membershipAllowed_room_mismatch (m : membershipAllower) (event : Event) :
  roomID (create m) <> RoomID event ->
  isNotAllowedOutcome (membershipAllowed m event).
Proof.
  intros Hne. unfold membershipAllowed, string_eqb.
  rewrite bool_decide_eq_false_2 by done. unfold isNotAllowedOutcome, errorf.
  simpl. eauto.
Qed.

(** C2, amended: for an m.room.member event whose sender is its target, that
    passes the room id and m.federate checks of membershipAllowed, that is
    not the creator bootstrap and not an invite carrying a
    third_party_invite, authorization succeeds exactly for the listed
    changes of one's own membership, and every other is a NotAllowed. *)
Theorem self_membership_change (authEvents : AuthEvents) (event : Event)
    (m : membershipAllower) :
  Type_ event = "m.room.member" ->
  newMembershipAllower authEvents event = inr m ->
  targetID m = senderID m ->
  roomID (create m) = RoomID event ->
  userIDAllowed (create m) (senderID m) = None ->
  ~ creatorBootstrap m event ->
  ~ thirdPartyInvite m ->
  (Allowed event authEvents = ok <->
   selfChange (Membership (oldMember m)) (Membership (newMember m))
     (JoinRule (joinRule m)))
  /\ (Allowed event authEvents <> ok ->
      isNotAllowedOutcome (Allowed event authEvents)).
Proof.
  intros Hty Hm Hself Hroom Hs Hnb Hnt.
  rewrite (Allowed_member _ _ _ Hty Hm).
  assert (Ht : userIDAllowed (create m) (targetID m) = None) by congruence.
  rewrite (membershipAllowed_no_bootstrap _ _ Hroom Hs Ht Hnb).
  destruct (string_eqb (Membership (newMember m)) invite
            && negb (Z.of_nat (String.length (ThirdPartyInvite (newMember m))) =? 0)%Z)
    eqn:Htp.
  { apply thirdPartyInvite_test in Htp. contradiction. }
  assert (Heq : string_eqb (targetID m) (senderID m) = true)
    by (apply bool_decide_eq_true_2; done).
  rewrite Heq.
  split; [apply membershipAllowedSelf_ok_iff | apply membershipAllowedSelf_failure].
Qed.

(** C4, amended: when the event's room id is the create event's and the
    sender is permitted by m.federate, the creator's join right after the
    create event is allowed, whatever the memberships, power levels and join
    rules are. *)
Theorem creator_bootstrap_allowed (authEvents : AuthEvents) (event : Event)
    (m : membershipAllower) :
  Type_ event = "m.room.member" ->
  newMembershipAllower authEvents event = inr m ->
  roomID (create m) = RoomID event ->
  userIDAllowed (create m) (senderID m) = None ->
  creatorBootstrap m event ->
  Allowed event authEvents = ok.
Proof.
  intros Hty Hm Hroom Hs Hb.
  rewrite (Allowed_member _ _ _ Hty Hm).
  apply membershipAllowed_bootstrap; try done.
  destruct Hb as (_ & <- & _). exact Hs.
Qed.

Lemma thirdPartyInvite_not_bootstrap (m : membershipAllower) (event : Event) :
  thirdPartyInvite m -> ~ creatorBootstrap m event.
Proof.
  intros (Hi & _) (_ & _ & Hj & _). rewrite Hi in Hj. discriminate.
Qed.

(** C7, amended: an invite that carries a third_party_invite is never
    allowed; when it passes the room id and m.federate checks of
    membershipAllowed the engine panics, and when its room id is not the
    create event's the result is the NotAllowed of that check. *)
Theorem third_party_invite_unimplemented (authEvents : AuthEvents)
    (event : Event) (m : membershipAllower) :
  Type_ event = "m.room.member" ->
  newMembershipAllower authEvents event = inr m ->
  thirdPartyInvite m ->
  Allowed event authEvents <> ok
  /\ (roomID (create m) = RoomID event ->
      userIDAllowed (create m) (senderID m) = None ->
      userIDAllowed (create m) (targetID m) = None ->
      Allowed event authEvents = panic "ThirdPartyInvite not implemented")
  /\ (roomID (create m) <> RoomID event ->
      isNotAllowedOutcome (Allowed event authEvents)).
Proof.
  intros Hty Hm Htp. rewrite (Allowed_member _ _ _ Hty Hm).
  assert (Hpanic : roomID (create m) = RoomID event ->
                   userIDAllowed (create m) (senderID m) = None ->
                   userIDAllowed (create m) (targetID m) = None ->
                   membershipAllowed m event = panic "ThirdPartyInvite not implemented").
  { intros Hroom Hs Ht.
    rewrite (membershipAllowed_no_bootstrap _ _ Hroom Hs Ht
               (thirdPartyInvite_not_bootstrap _ _ Htp)).
    apply thirdPartyInvite_test in Htp. rewrite Htp. reflexivity. }
  split; [| split; [exact Hpanic | apply membershipAllowed_room_mismatch]].
  destruct (decide (roomID (create m) = RoomID event)) as [Hroom | Hroom].
  - destruct (userIDAllowed (create m) (senderID m)) eqn:Hs.
    { unfold membershipAllowed, string_eqb.
      rewrite bool_decide_eq_true_2 by done. simpl. rewrite Hs. discriminate. }
    destruct (userIDAllowed (create m) (targetID m)) eqn:Ht.
    { unfold membershipAllowed, string_eqb.
      rewrite bool_decide_eq_true_2 by done. simpl. rewrite Hs, Ht. discriminate. }
    rewrite Hpanic by done. discriminate.
  - destruct (membershipAllowed_room_mismatch _ _ Hroom) as (? & ? & ->).
    discriminate.
Qed.

(** ** The common checks *)

Lemma Allowed_common (event : Event) (authEvents : AuthEvents) :
  Type_ event <> "m.room.create" ->
  Type_ event <> "m.room.aliases" ->
  Type_ event <> "m.room.member" ->
  Allowed event authEvents = ok ->
  exists allower, newEventAllower authEvents (Sender event) = inr allower
                  /\ commonChecks allower event = ok.
Proof.
  intros H1 H2 H3. unfold Allowed, string_eqb.
  rewrite !bool_decide_eq_false_2 by done.
  unfold powerLevelsEventAllowed, redactEventAllowed, defaultEventAllowed.
  destruct (newEventAllower authEvents (Sender event)) as [e|allower].
  { repeat case_bool_decide; discriminate. }
  destruct (commonChecks allower event) eqn:Hc;
    repeat case_bool_decide; try discriminate; eauto.
Qed.

(** A state key that starts with an at sign and is not the sender fails the
    common checks, at the latest in their last test. *)
Lemma commonChecks_foreign_state_key (e : eventAllower) (event : Event)
    (key : string) :
  StateKey event = Some key ->
  firstByte key = Some "@"%char ->
  key <> Sender event ->
  commonChecks e event <> ok
  /\ (userIDAllowed (ea_create e) (Sender event) = None ->
      isNotAllowedOutcome (commonChecks e event))
  /\ (RoomID event = roomID (ea_create e) ->
      userIDAllowed (ea_create e) (Sender event) = None ->
      Membership (ea_member e) = join ->
      (userLevel (ea_powerLevels e) (Sender event)
       >= eventLevel (ea_powerLevels e) (Type_ event) true)%Z ->
      commonChecks e event =
        err (errorf "sender %q is not allowed to modify the state belonging to %q"
               [AString (Sender event); AString key])).
Proof.
  intros Hk Hat Hne.
  assert (Hlast : ((Z.of_nat (String.length key) >? 0)%Z
                   && bool_decide (firstByte key = Some "@"%char)
                   && negb (string_eqb key (Sender event))) = true).
  { unfold string_eqb. rewrite bool_decide_eq_true_2 by done.
    rewrite bool_decide_eq_false_2 by done.
    destruct key; [discriminate | reflexivity]. }
  unfold commonChecks, isNotAllowedOutcome, errorf. rewrite Hk, Hlast.
  assert (Hstate : bool_decide (Some key <> None) = true)
    by (apply bool_decide_eq_true_2; discriminate).
  rewrite Hstate. split; [| split].
  - destruct (negb (string_eqb (RoomID event) (roomID (ea_create e))));
      [discriminate |].
    destruct (userIDAllowed (ea_create e) (Sender event)); [discriminate |].
    destruct (negb (string_eqb (Membership (ea_member e)) join));
      [discriminate |].
    destruct (_ <? _)%Z; discriminate.
  - intros ->.
    destruct (negb (string_eqb (RoomID event) (roomID (ea_create e))));
      [eauto |].
    destruct (negb (string_eqb (Membership (ea_member e)) join)); [eauto |].
    destruct (_ <? _)%Z; eauto.
  - intros Hroom -> Hjoin Hlevel. unfold string_eqb.
    rewrite !bool_decide_eq_true_2 by done. simpl.
    destruct (_ <? _)%Z eqn:Hlt; [| reflexivity].
    apply Z.ltb_lt in Hlt. lia.
Qed.

(** C6: an event subject to the common checks whose state_key begins with
    an at sign and differs from the sender is never allowed: once the
    sender is permitted by m.federate the common checks answer NotAllowed,
    and when the room id, membership and power level checks pass the
    NotAllowed is the one of the state key test. *)
Theorem foreign_state_key_denied (event : Event) (key : string) :
  StateKey event = Some key ->
  firstByte key = Some "@"%char ->
  key <> Sender event ->
  (forall e : eventAllower,
     commonChecks e event <> ok
     /\ (userIDAllowed (ea_create e) (Sender event) = None ->
         isNotAllowedOutcome (commonChecks e event))
     /\ (RoomID event = roomID (ea_create e) ->
         userIDAllowed (ea_create e) (Sender event) = None ->
         Membership (ea_member e) = join ->
         (userLevel (ea_powerLevels e) (Sender event)
          >= eventLevel (ea_powerLevels e) (Type_ event) true)%Z ->
         commonChecks e event =
           err (errorf "sender %q is not allowed to modify the state belonging to %q"
                  [AString (Sender event); AString key])))
  /\ (forall authEvents,
        Type_ event <> "m.room.create" ->
        Type_ event <> "m.room.aliases" ->
        Type_ event <> "m.room.member" ->
        Allowed event authEvents <> ok).
Proof.
  intros Hk Hat Hne. split.
  - intros e. apply (commonChecks_foreign_state_key e event key); assumption.
  - intros authEvents H1 H2 H3 Hok.
    destruct (Allowed_common _ _ H1 H2 H3 Hok) as (allower & _ & Hc).
    destruct (commonChecks_foreign_state_key allower event key Hk Hat Hne)
      as (Hno & _).
    contradiction.
Qed.

(** ** Redactions *)

(** C5: for an m.room.redaction event that passes the common checks: when
    the sender's domain equals the domain of the event id named in redacts,
    the redaction is allowed whatever the power levels are; when the two
    domains differ it is allowed if and only if the sender's level is at
    least the redact level, and is a NotAllowed if not.  For an id without a
    domain the result is the error [domainFromID] gave. *)
Theorem redaction_authorization (event : Event) (authEvents : AuthEvents)
    (allower : eventAllower) :
  Type_ event = "m.room.redaction" ->
  newEventAllower authEvents (Sender event) = inr allower ->
  commonChecks allower event = ok ->
  let senderLevel := userLevel (ea_powerLevels allower) (Sender event) in
  let redactLevel := redactLevel (ea_powerLevels allower) in
  (forall domain,
     domainFromID (Sender event) = inr domain ->
     domainFromID (Redacts event) = inr domain ->
     Allowed event authEvents = ok)
  /\ (forall senderDomain redactDomain,
        domainFromID (Sender event) = inr senderDomain ->
        domainFromID (Redacts event) = inr redactDomain ->
        senderDomain <> redactDomain ->
        (Allowed event authEvents = ok <-> (senderLevel >= redactLevel)%Z)
        /\ ((senderLevel < redactLevel)%Z ->
            isNotAllowedOutcome (Allowed event authEvents)))
  /\ (forall e,
        domainFromID (Sender event) = inl e
        \/ ((exists senderDomain, domainFromID (Sender event) = inr senderDomain)
            /\ domainFromID (Redacts event) = inl e) ->
        Allowed event authEvents = err e).
Proof.
  intros Hty Ha Hc senderLevel redactLevel.
  assert (HA : Allowed event authEvents = redactEventAllowed event authEvents).
  { unfold Allowed. rewrite Hty. reflexivity. }
  rewrite HA. unfold redactEventAllowed. rewrite Ha, Hc.
  fold senderLevel. fold redactLevel.
  split; [| split].
  - intros domain -> ->. unfold string_eqb.
    rewrite bool_decide_eq_true_2 by done. reflexivity.
  - intros senderDomain redactDomain -> -> Hne. unfold string_eqb.
    rewrite bool_decide_eq_false_2 by done.
    destruct (senderLevel >=? redactLevel)%Z eqn:Hge.
    + apply Z.geb_le in Hge. split; [split; [lia | reflexivity] | lia].
    + assert (~ (redactLevel <= senderLevel)%Z).
      { intros Hle. apply Z.geb_le in Hle. congruence. }
      split; [split; [discriminate | lia] |].
      intros _. unfold isNotAllowedOutcome, errorf. eauto.
  - intros e [-> | [[senderDomain ->] ->]]; reflexivity.
Qed.

(** ** Power levels *)

Lemma elem_of_rangeKeys (m : gmap string Z) (k : string) :
  k ∈ rangeKeys m <-> is_Some (m !! k).
Proof.
  unfold rangeKeys. rewrite list_elem_of_fmap. split.
  - intros ([k' v] & -> & Hin). apply elem_of_map_to_list in Hin. eauto.
  - intros [v Hv]. exists (k, v). split; [reflexivity |].
    by apply elem_of_map_to_list.
Qed.

Lemma checkEventLevelPairs_ok_iff (senderLevel : Z) (levelChecks : list levelPair) :
  checkEventLevelPairs senderLevel levelChecks = ok <->
  Forall (eventPairAllowed senderLevel) levelChecks.
Proof.
  induction levelChecks as [|level levelChecks IH]; simpl.
  - split; [constructor | reflexivity].
  - rewrite Forall_cons. unfold eventPairAllowed at 1.
    destruct (old level =? new level)%Z eqn:He.
    { apply Z.eqb_eq in He. rewrite IH. tauto. }
    apply Z.eqb_neq in He.
    destruct (senderLevel <? new level)%Z eqn:Hn.
    { apply Z.ltb_lt in Hn. split; [discriminate | tauto]. }
    apply Z.ltb_ge in Hn.
    destruct (senderLevel <? old level)%Z eqn:Ho.
    { apply Z.ltb_lt in Ho. split; [discriminate | tauto]. }
    apply Z.ltb_ge in Ho. rewrite IH. split; [| tauto].
    intros H. split; [right; lia | exact H].
Qed.

Lemma checkEventLevelPairs_failure (senderLevel : Z) (levelChecks : list levelPair) :
  checkEventLevelPairs senderLevel levelChecks <> ok ->
  isNotAllowedOutcome (checkEventLevelPairs senderLevel levelChecks).
Proof.
  unfold isNotAllowedOutcome, errorf.
  induction levelChecks as [|level levelChecks IH]; simpl; [congruence |].
  destruct (old level =? new level)%Z; [exact IH |].
  destruct (senderLevel <? new level)%Z; [eauto |].
  destruct (senderLevel <? old level)%Z; [eauto | exact IH].
Qed.

Lemma checkUserLevelPairs_ok_iff (senderLevel : Z) (senderID : string)
    (levelChecks : list userLevelPair) :
  checkUserLevelPairs senderLevel senderID levelChecks = ok <->
  Forall (userPairAllowed senderLevel senderID) levelChecks.
Proof.
  induction levelChecks as [|level levelChecks IH]; simpl.
  - split; [constructor | reflexivity].
  - rewrite Forall_cons. unfold userPairAllowed at 1.
    destruct (u_old level =? u_new level)%Z eqn:He.
    { apply Z.eqb_eq in He. rewrite IH. tauto. }
    apply Z.eqb_neq in He.
    destruct (senderLevel <? u_new level)%Z eqn:Hn.
    { apply Z.ltb_lt in Hn. split; [discriminate | tauto]. }
    apply Z.ltb_ge in Hn. unfold string_eqb.
    case_bool_decide as Hid.
    { rewrite IH. split; [| tauto]. intros H. split; [right; split; [lia | tauto] | exact H]. }
    destruct (senderLevel <=? u_old level)%Z eqn:Ho.
    { apply Z.leb_le in Ho. split; [discriminate | tauto]. }
    apply Z.leb_gt in Ho. rewrite IH. split; [| tauto].
    intros H. split; [right; split; [lia | right; lia] | exact H].
Qed.

Lemma checkUserLevelPairs_failure (senderLevel : Z) (senderID : string)
    (levelChecks : list userLevelPair) :
  checkUserLevelPairs senderLevel senderID levelChecks <> ok ->
  isNotAllowedOutcome (checkUserLevelPairs senderLevel senderID levelChecks).
Proof.
  unfold isNotAllowedOutcome, errorf.
  induction levelChecks as [|level levelChecks IH]; simpl; [congruence |].
  destruct (u_old level =? u_new level)%Z; [exact IH |].
  destruct (senderLevel <? u_new level)%Z; [eauto |].
  destruct (string_eqb (u_userID level) senderID); [exact IH |].
  destruct (senderLevel <=? u_old level)%Z; [eauto | exact IH].
Qed.

Lemma Forall_map_rangeKeys {B : Type} (P : B -> Prop) (f : string -> B)
    (m : gmap string Z) :
  Forall P (map f (rangeKeys m)) <-> forall k, is_Some (m !! k) -> P (f k).
Proof.
  rewrite Forall_map, Forall_forall. split.
  - intros H k Hk. apply H, elem_of_rangeKeys, Hk.
  - intros H k Hk. apply H, elem_of_rangeKeys, Hk.
Qed.

(** The event levels may change exactly when each named level and the level
    of each event type listed in the old or the new levels is unchanged or
    stays within the sender's level on both sides. *)
Lemma checkEventLevels_ok_iff (senderLevel : Z)
    (oldPowerLevels newPowerLevels : powerLevelContent) :
  checkEventLevels senderLevel oldPowerLevels newPowerLevels = ok <->
  Forall (eventPairAllowed senderLevel)
    [ {| old := banLevel oldPowerLevels; new := banLevel newPowerLevels |};
      {| old := inviteLevel oldPowerLevels; new := inviteLevel newPowerLevels |};
      {| old := kickLevel oldPowerLevels; new := kickLevel newPowerLevels |};
      {| old := redactLevel oldPowerLevels; new := redactLevel newPowerLevels |};
      {| old := stateDefaultLevel oldPowerLevels;
         new := stateDefaultLevel newPowerLevels |};
      {| old := eventDefaultLevel oldPowerLevels;
         new := eventDefaultLevel newPowerLevels |} ]
  /\ forall eventType,
       is_Some (eventLevels newPowerLevels !! eventType)
       \/ is_Some (eventLevels oldPowerLevels !! eventType) ->
       eventPairAllowed senderLevel
         {| old := eventLevel oldPowerLevels eventType false;
            new := eventLevel newPowerLevels eventType false |}.
Proof.
  unfold checkEventLevels, eventLevelChecks, isStateEvent.
  rewrite checkEventLevelPairs_ok_iff, !Forall_app, !Forall_map_rangeKeys.
  split.
  - intros (Hnamed & Hnew & Hold). split; [exact Hnamed |].
    intros eventType [H | H]; auto.
  - intros (Hnamed & Hkeys). repeat split; auto.
Qed.

(** The user levels may change exactly when the user default level, taken
    as the level of the empty user id, and the level of each user listed in
    the old or the new levels pass the test of one pair. *)
Lemma checkUserLevels_ok_iff (senderLevel : Z) (senderID : string)
    (oldPowerLevels newPowerLevels : powerLevelContent) :
  checkUserLevels senderLevel senderID oldPowerLevels newPowerLevels = ok <->
  userPairAllowed senderLevel senderID
    {| u_old := userDefaultLevel oldPowerLevels;
       u_new := userDefaultLevel newPowerLevels;
       u_userID := EmptyString |}
  /\ forall userID,
       is_Some (userLevels newPowerLevels !! userID)
       \/ is_Some (userLevels oldPowerLevels !! userID) ->
       userPairAllowed senderLevel senderID
         {| u_old := userLevel oldPowerLevels userID;
            u_new := userLevel newPowerLevels userID;
            u_userID := userID |}.
Proof.
  unfold checkUserLevels, userLevelChecks.
  rewrite checkUserLevelPairs_ok_iff, !Forall_app, !Forall_map_rangeKeys,
    Forall_singleton.
  split.
  - intros (Hdefault & Hnew & Hold). split; [exact Hdefault |].
    intros userID [H | H]; auto.
  - intros (Hdefault & Hkeys). repeat split; auto.
Qed.

Lemma checkValidUserIDs_valid (userIDs : list string) (rest : outcome) :
  Forall (fun userID => isValidUserID userID = true) userIDs ->
  checkValidUserIDs userIDs rest = rest.
Proof.
  induction 1 as [|userID userIDs Hv _ IH]; simpl; [reflexivity |].
  rewrite Hv. exact IH.
Qed.

(** C3, amended: for an m.room.power_levels event with a prior power_levels
    event, the named levels ban, invite, kick, redact, state_default and
    event_default and the level of each listed event type must be unchanged
    or have neither the new nor the old level above the sender's; the level
    of each listed user other than the sender must be unchanged or have the
    new level not above and the old level below the sender's; the sender's
    own level may change within the sender's level; and the user_default
    level is compared as the level of the empty user id, that is as another
    user's level unless the sender id is empty.  Every denial is a
    NotAllowed. *)
Theorem power_level_changes (event : Event) (authEvents : AuthEvents)
    (allower : eventAllower) (newPowerLevels : powerLevelContent)
    (oldEvent : Event) :
  Type_ event = "m.room.power_levels" ->
  newEventAllower authEvents (Sender event) = inr allower ->
  commonChecks allower event = ok ->
  newPowerLevelContentFromEvent event = (newPowerLevels, None) ->
  (forall userID, is_Some (userLevels newPowerLevels !! userID) ->
     isValidUserID userID = true) ->
  PowerLevels authEvents = (Some oldEvent, None) ->
  let oldPowerLevels := ea_powerLevels allower in
  let senderLevel := userLevel oldPowerLevels (Sender event) in
  (Allowed event authEvents = ok <->
   levelChangeAllowed senderLevel (banLevel oldPowerLevels) (banLevel newPowerLevels)
   /\ levelChangeAllowed senderLevel
        (inviteLevel oldPowerLevels) (inviteLevel newPowerLevels)
   /\ levelChangeAllowed senderLevel
        (kickLevel oldPowerLevels) (kickLevel newPowerLevels)
   /\ levelChangeAllowed senderLevel
        (redactLevel oldPowerLevels) (redactLevel newPowerLevels)
   /\ levelChangeAllowed senderLevel
        (stateDefaultLevel oldPowerLevels) (stateDefaultLevel newPowerLevels)
   /\ levelChangeAllowed senderLevel
        (eventDefaultLevel oldPowerLevels) (eventDefaultLevel newPowerLevels)
   /\ (forall eventType,
         is_Some (eventLevels newPowerLevels !! eventType)
         \/ is_Some (eventLevels oldPowerLevels !! eventType) ->
         levelChangeAllowed senderLevel
           (eventLevel oldPowerLevels eventType false)
           (eventLevel newPowerLevels eventType false))
   /\ (EmptyString <> Sender event ->
       otherUserChangeAllowed senderLevel
         (userDefaultLevel oldPowerLevels) (userDefaultLevel newPowerLevels))
   /\ (EmptyString = Sender event ->
       ownChangeAllowed senderLevel
         (userDefaultLevel oldPowerLevels) (userDefaultLevel newPowerLevels))
   /\ (forall userID,
         is_Some (userLevels newPowerLevels !! userID)
         \/ is_Some (userLevels oldPowerLevels !! userID) ->
         (userID <> Sender event ->
          otherUserChangeAllowed senderLevel
            (userLevel oldPowerLevels userID) (userLevel newPowerLevels userID))
         /\ (userID = Sender event ->
             levelChangeAllowed senderLevel
               (userLevel oldPowerLevels userID)
               (userLevel newPowerLevels userID))))
  /\ (Allowed event authEvents <> ok ->
      isNotAllowedOutcome (Allowed event authEvents)).
Proof.
  intros Hty Ha Hc Hnew Hvalid Hold oldPowerLevels senderLevel.
  assert (HA : Allowed event authEvents =
               match checkEventLevels senderLevel oldPowerLevels newPowerLevels with
               | ok => checkUserLevels senderLevel (Sender event)
                         oldPowerLevels newPowerLevels
               | failure => failure
               end).
  { unfold Allowed. rewrite Hty. simpl.
    unfold powerLevelsEventAllowed. rewrite Ha, Hc, Hnew, Hold.
    apply checkValidUserIDs_valid, Forall_forall.
    intros userID Hin. apply Hvalid, elem_of_rangeKeys, Hin. }
  rewrite HA. clear HA. split.
  - pose proof (checkEventLevels_ok_iff senderLevel oldPowerLevels newPowerLevels)
      as He.
    pose proof (checkUserLevels_ok_iff senderLevel (Sender event)
                  oldPowerLevels newPowerLevels) as Hu.
    rewrite !Forall_cons, Forall_nil in He.
    unfold eventPairAllowed in He. unfold userPairAllowed in Hu.
    simpl in He, Hu.
    unfold levelChangeAllowed, otherUserChangeAllowed, ownChangeAllowed.
    assert (Hown : forall userID, userID = Sender event ->
                     userLevel oldPowerLevels userID = senderLevel)
      by (intros ? ->; reflexivity).
    destruct (checkEventLevels senderLevel oldPowerLevels newPowerLevels) eqn:Hce.
    + rewrite Hu. clear Hu.
      destruct He as [He _]. specialize (He eq_refl).
      destruct He as ((Hb & Hi & Hk & Hr & Hsd & Hed & _) & Hev).
      split.
      * intros (Hdefault & Husers). repeat split; try assumption.
        -- intros Hne. destruct Hdefault as [? | (? & [? | ?])]; tauto.
        -- intros _. destruct Hdefault as [? | (? & _)]; tauto.
        -- intros Hne. destruct (Husers userID H) as [? | (? & [? | ?])]; tauto.
        -- intros Heq. specialize (Hown userID Heq).
           destruct (Husers userID H) as [? | (? & _)]; [tauto |].
           right. split; [assumption | lia].
      * intros (_ & _ & _ & _ & _ & _ & _ & Hd1 & Hd2 & Husers). split.
        -- destruct (decide (EmptyString = Sender event)) as [Heq | Hne].
           ++ destruct (Hd2 Heq); [tauto | right; split; [assumption | tauto]].
           ++ destruct (Hd1 Hne) as [? | (? & ?)]; tauto.
        -- intros userID Hin. destruct (Husers userID Hin) as (Ho & Hs).
           destruct (decide (userID = Sender event)) as [Heq | Hne].
           ++ destruct (Hs Heq) as [? | (? & ?)]; tauto.
           ++ destruct (Ho Hne) as [? | (? & ?)]; tauto.
    + split; [discriminate |].
      intros (Hb & Hi & Hk & Hr & Hsd & Hed & Hev & _).
      assert (err e = ok); [| discriminate].
      apply He. repeat split; assumption.
    + split; [discriminate |].
      intros (Hb & Hi & Hk & Hr & Hsd & Hed & Hev & _).
      assert (panic text = ok); [| discriminate].
      apply He. repeat split; assumption.
  - pose proof (checkEventLevelPairs_failure senderLevel
                  (eventLevelChecks oldPowerLevels newPowerLevels)) as He.
    fold (checkEventLevels senderLevel oldPowerLevels newPowerLevels) in He.
    destruct (checkEventLevels senderLevel oldPowerLevels newPowerLevels) eqn:Hce.
    + apply checkUserLevelPairs_failure.
    + intros _. apply He. discriminate.
    + intros _. apply He. discriminate.
Qed.

End AuthFacts.

(** ** The rules on the sample room *)
Section AuthExamples.
Import EventAuth Terms Sample.

Lemma create_authorization_witness :
  Type_ createEvent = "m.room.create"
  /\ (forall authEvents,
        Allowed (ops := ops) createEvent authEvents
        = createEventAllowed (ops := ops) createEvent)
  /\ createEventAllowed (ops := ops) createEvent = ok.
Proof.
  split; [reflexivity |].
  destruct (create_authorization (ops := ops) createEvent eq_refl)
    as (Hdispatch & Hok & _).
  split; [exact Hdispatch |].
  apply Hok. repeat split. exists "x". split; reflexivity.
Defined.

Lemma self_membership_change_witness :
  let ops := allowerOps "@b:x" "@b:x" (member "join") (member "leave") "public" in
  let event := memberEvent "!r:x" "@b:x" "@b:x" ["$e:x"] in
  let m := allower "@b:x" "@b:x" (member "join") (member "leave") "public" in
  (Type_ event = "m.room.member"
   /\ newMembershipAllower (ops := ops) noAuthEvents event = inr m
   /\ targetID m = senderID m
   /\ roomID (create m) = RoomID event
   /\ userIDAllowed (ContentOps := ops) (create m) (senderID m) = None
   /\ ~ creatorBootstrap m event
   /\ ~ thirdPartyInvite m)
  /\ (Allowed (ops := ops) event noAuthEvents = ok <->
      selfChange (Membership (oldMember m)) (Membership (newMember m))
        (JoinRule (joinRule m)))
  /\ (Allowed (ops := ops) event noAuthEvents <> ok ->
      isNotAllowedOutcome (Allowed (ops := ops) event noAuthEvents)).
Proof.
  intros ops event m.
  assert (Hnb : ~ creatorBootstrap m event)
    by (intros (H & _); discriminate H).
  assert (Hnt : ~ thirdPartyInvite m) by (intros (H & _); discriminate H).
  split; [repeat split; solve [reflexivity | assumption] |].
  apply (self_membership_change (ops := ops) noAuthEvents event m);
    solve [reflexivity | assumption].
Defined.

(** C2, counterexample: a join by a joined user is denied when the event is
    for another room than the create event, and a user's own invite that
    carries a third_party_invite panics instead of being denied. *)
Lemma self_membership_change_counterexample :
  (let ops := allowerOps "@b:x" "@b:x" (member "join") (member "join") "public" in
   let event := memberEvent "!other:x" "@b:x" "@b:x" ["$e:x"] in
   let m := allower "@b:x" "@b:x" (member "join") (member "join") "public" in
   newMembershipAllower (ops := ops) noAuthEvents event = inr m
   /\ targetID m = senderID m
   /\ ~ creatorBootstrap m event
   /\ selfChange (Membership (oldMember m)) (Membership (newMember m))
        (JoinRule (joinRule m))
   /\ Allowed (ops := ops) event noAuthEvents =
        err (NotAllowed "create event has different roomID: %q != %q"
               [AString "!other:x"; AString "!r:x"]))
  /\ (let ops :=
        allowerOps "@b:x" "@b:x" (member "leave") thirdPartyInviteContent "public" in
      let event := memberEvent "!r:x" "@b:x" "@b:x" ["$e:x"] in
      let m := allower "@b:x" "@b:x" (member "leave") thirdPartyInviteContent
                 "public" in
      newMembershipAllower (ops := ops) noAuthEvents event = inr m
      /\ targetID m = senderID m
      /\ ~ creatorBootstrap m event
      /\ Allowed (ops := ops) event noAuthEvents =
           panic "ThirdPartyInvite not implemented").
Proof.
  split.
  - repeat split; try reflexivity.
    + intros (H & _); discriminate H.
    + unfold selfChange. simpl. tauto.
  - repeat split; try reflexivity.
    intros (H & _); discriminate H.
Qed.

Lemma creator_bootstrap_allowed_witness :
  let ops := allowerOps "@a:x" "@a:x" (member "leave") (member "join") "invite" in
  let event := memberEvent "!r:x" "@a:x" "@a:x" ["$create:x"] in
  let m := allower "@a:x" "@a:x" (member "leave") (member "join") "invite" in
  (Type_ event = "m.room.member"
   /\ newMembershipAllower (ops := ops) noAuthEvents event = inr m
   /\ roomID (create m) = RoomID event
   /\ userIDAllowed (ContentOps := ops) (create m) (senderID m) = None
   /\ creatorBootstrap m event)
  /\ Allowed (ops := ops) event noAuthEvents = ok.
Proof.
  intros ops event m.
  assert (Hb : creatorBootstrap m event).
  { repeat split. exists (EventReference.Build "$create:x"). split; reflexivity. }
  split; [repeat split; solve [reflexivity | apply Hb] |].
  apply (creator_bootstrap_allowed (ops := ops) noAuthEvents event m);
    solve [reflexivity | assumption].
Defined.

(** C4, counterexample: the creator's join right after the create event is
    denied when the event is for another room than the create event. *)
Lemma creator_bootstrap_allowed_counterexample :
  let ops := allowerOps "@a:x" "@a:x" (member "leave") (member "join") "invite" in
  let event := memberEvent "!other:x" "@a:x" "@a:x" ["$create:x"] in
  let m := allower "@a:x" "@a:x" (member "leave") (member "join") "invite" in
  newMembershipAllower (ops := ops) noAuthEvents event = inr m
  /\ creatorBootstrap m event
  /\ Allowed (ops := ops) event noAuthEvents =
       err (NotAllowed "create event has different roomID: %q != %q"
              [AString "!other:x"; AString "!r:x"]).
Proof.
  repeat split. exists (EventReference.Build "$create:x"). split; reflexivity.
Qed.

Lemma third_party_invite_unimplemented_witness :
  let ops :=
    allowerOps "@b:x" "@a:x" (member "leave") thirdPartyInviteContent "invite" in
  let event := memberEvent "!r:x" "@a:x" "@b:x" ["$e:x"] in
  let m := allower "@b:x" "@a:x" (member "leave") thirdPartyInviteContent "invite" in
  (Type_ event = "m.room.member"
   /\ newMembershipAllower (ops := ops) noAuthEvents event = inr m
   /\ thirdPartyInvite m)
  /\ Allowed (ops := ops) event noAuthEvents <> ok
  /\ (roomID (create m) = RoomID event ->
      userIDAllowed (ContentOps := ops) (create m) (senderID m) = None ->
      userIDAllowed (ContentOps := ops) (create m) (targetID m) = None ->
      Allowed (ops := ops) event noAuthEvents
      = panic "ThirdPartyInvite not implemented")
  /\ (roomID (create m) <> RoomID event ->
      isNotAllowedOutcome (Allowed (ops := ops) event noAuthEvents)).
Proof.
  intros ops event m.
  assert (Htp : thirdPartyInvite m) by (split; [reflexivity | discriminate]).
  split; [repeat split; solve [reflexivity | apply Htp] |].
  apply (third_party_invite_unimplemented (ops := ops) noAuthEvents event m);
    solve [reflexivity | assumption].
Defined.

(** C7, counterexample: an invite that carries a third_party_invite gets an
    ordinary NotAllowed when the event is for another room than the create
    event. *)
Lemma third_party_invite_unimplemented_counterexample :
  let ops :=
    allowerOps "@b:x" "@a:x" (member "leave") thirdPartyInviteContent "invite" in
  let event := memberEvent "!other:x" "@a:x" "@b:x" ["$e:x"] in
  let m := allower "@b:x" "@a:x" (member "leave") thirdPartyInviteContent "invite" in
  newMembershipAllower (ops := ops) noAuthEvents event = inr m
  /\ thirdPartyInvite m
  /\ ~ creatorBootstrap m event
  /\ Allowed (ops := ops) event noAuthEvents =
       err (NotAllowed "create event has different roomID: %q != %q"
              [AString "!other:x"; AString "!r:x"]).
Proof.
  repeat split; try reflexivity; try discriminate.
  intros (H & _); discriminate H.
Qed.

Lemma foreign_state_key_denied_witness :
  let event := stateEvent "@a:x" "@b:x" in
  (StateKey event = Some "@b:x"
   /\ firstByte "@b:x" = Some "@"%char
   /\ "@b:x" <> Sender event)
  /\ commonChecks (ops := ops) (joinedAllower (levels ∅ 100)) event =
       err (NotAllowed "sender %q is not allowed to modify the state belonging to %q"
              [AString "@a:x"; AString "@b:x"])
  /\ Allowed (ops := ops) event noAuthEvents <> ok.
Proof.
  intros event.
  split; [repeat split; solve [reflexivity | discriminate] |].
  destruct (foreign_state_key_denied (ops := ops) event "@b:x")
    as (Hchecks & Hallowed); try solve [reflexivity | discriminate].
  split.
  - destruct (Hchecks (joinedAllower (levels ∅ 100))) as (_ & _ & Hlast).
    apply Hlast; try reflexivity. vm_compute. discriminate.
  - apply Hallowed; discriminate.
Defined.

Lemma redaction_authorization_witness :
  let ops := levelsOps (levels ∅ 0) (levels ∅ 0) in
  let event := redactionEvent "@d:z" "$m:y" in
  let allower := joinedAllower (levels ∅ 0) in
  (Type_ event = "m.room.redaction"
   /\ newEventAllower (ops := ops) noAuthEvents (Sender event) = inr allower
   /\ commonChecks (ops := ops) allower event = ok)
  /\ (Allowed (ops := ops) event noAuthEvents = ok <->
      (userLevel (ea_powerLevels allower) (Sender event)
       >= redactLevel (ea_powerLevels allower))%Z)
  /\ ((userLevel (ea_powerLevels allower) (Sender event)
       < redactLevel (ea_powerLevels allower))%Z ->
      isNotAllowedOutcome (Allowed (ops := ops) event noAuthEvents)).
Proof.
  intros ops event allower.
  split; [repeat split; reflexivity |].
  destruct (redaction_authorization (ops := ops) event noAuthEvents allower
              eq_refl eq_refl eq_refl) as (_ & Hdiffer & _).
  apply (Hdiffer "z" "y"); solve [reflexivity | discriminate].
Defined.

Lemma power_level_changes_witness :
  let oldLevels := levels {[ "@a:x" := 100 ]} 0 in
  let newLevels := levels {[ "@a:x" := 50 ]} 0 in
  let ops := levelsOps oldLevels newLevels in
  let allower := joinedAllower oldLevels in
  (Type_ powerLevelsEvent = "m.room.power_levels"
   /\ newEventAllower (ops := ops) withPowerLevels (Sender powerLevelsEvent)
      = inr allower
   /\ commonChecks (ops := ops) allower powerLevelsEvent = ok
   /\ newPowerLevelContentFromEvent (ContentOps := ops) powerLevelsEvent
      = (newLevels, None)
   /\ (forall userID, is_Some (userLevels newLevels !! userID) ->
         isValidUserID (ContentOps := ops) userID = true)
   /\ PowerLevels withPowerLevels = (Some powerLevelsEvent, None))
  /\ (Allowed (ops := ops) powerLevelsEvent withPowerLevels <> ok ->
      isNotAllowedOutcome (Allowed (ops := ops) powerLevelsEvent withPowerLevels)).
Proof.
  intros oldLevels newLevels ops allower.
  assert (Hvalid : forall userID, is_Some (userLevels newLevels !! userID) ->
                     isValidUserID (ContentOps := ops) userID = true).
  { intros userID [v Hv]. simpl in Hv.
    apply lookup_singleton_Some in Hv as [<- _]. reflexivity. }
  assert (Hc : commonChecks (ops := ops) allower powerLevelsEvent = ok)
    by (vm_compute; reflexivity).
  split; [repeat split; solve [reflexivity | assumption] |].
  apply (power_level_changes (ops := ops) powerLevelsEvent withPowerLevels
           allower newLevels powerLevelsEvent);
    solve [reflexivity | assumption].
Defined.

(** C3, counterexample: a sender at level 50 who lowers the user_default
    level from 50 to 40 is denied because the old level equals the sender's,
    although the new level is not above the sender's, the old level is not
    above the sender's, and no other level changes. *)
Lemma power_level_changes_counterexample :
  let oldLevels := levels ∅ 50 in
  let newLevels := levels ∅ 40 in
  let ops := levelsOps oldLevels newLevels in
  let senderLevel := userLevel oldLevels (Sender powerLevelsEvent) in
  newEventAllower (ops := ops) withPowerLevels (Sender powerLevelsEvent)
  = inr (joinedAllower oldLevels)
  /\ commonChecks (ops := ops) (joinedAllower oldLevels) powerLevelsEvent = ok
  /\ senderLevel = 50%Z
  /\ levelChangeAllowed senderLevel
       (userDefaultLevel oldLevels) (userDefaultLevel newLevels)
  /\ checkEventLevels senderLevel oldLevels newLevels = ok
  /\ userLevels oldLevels = ∅ /\ userLevels newLevels = ∅
  /\ Allowed (ops := ops) powerLevelsEvent withPowerLevels =
       err (NotAllowed
              "sender with level %d is not allowed to change user level from %d to %d because the old level is equal to or above the level of the sender"
              [AInt 50; AInt 50; AInt 40]).
Proof.
  repeat split; try (vm_compute; reflexivity).
  right. vm_compute. split; discriminate.
Qed.

(** ** Scenarios *)

(** A create event whose room id is on another server than its sender is
    not allowed. *)
Example create_domain_mismatch :
  createEventAllowed (ops := ops)
    {| EventID := "$create:x"; RoomID := "!r:y"; Sender := "@a:x";
       Type_ := "m.room.create"; StateKey := Some EmptyString; PrevEvents := [];
       Content := EmptyString; Redacts := EmptyString |}
  = err (NotAllowed "create event room ID domain does not match sender: %q != %q"
           [AString "y"; AString "x"]).
Proof. reflexivity. Qed.

(** A sender at level 100 may set their own level to 50. *)
Example power_level_self_demotion :
  Allowed (ops := levelsOps (levels {[ "@a:x" := 100%Z ]} 0)
                    (levels {[ "@a:x" := 50%Z ]} 0))
    powerLevelsEvent withPowerLevels = ok.
Proof. vm_compute. reflexivity. Qed.

(** A sender at level 50 may not raise another user from 0 to 75. *)
Example power_level_others_raise :
  Allowed (ops := levelsOps (levels {[ "@a:x" := 50%Z ]} 0)
                    (levels {[ "@a:x" := 50%Z; "@b:x" := 75%Z ]} 0))
    powerLevelsEvent withPowerLevels
  = err (NotAllowed
           "sender with level %d is not allowed change user level from %d to %d because the new level is above the level of the sender"
           [AInt 50; AInt 0; AInt 75]).
Proof. vm_compute. reflexivity. Qed.

(** A user of the server that sent a message may redact it without the
    redact level; a user of another server may not. *)
Example redaction_same_domain :
  Allowed (ops := ops) (redactionEvent "@c:y" "$m:y") noAuthEvents = ok.
Proof. vm_compute. reflexivity. Qed.

Example redaction_cross_domain :
  Allowed (ops := ops) (redactionEvent "@d:z" "$m:y") noAuthEvents
  = err (NotAllowed "%q is not allowed to redact message from %q. %d < %d"
           [AString "@d:z"; AString "y"; AInt 0; AInt 50]).
Proof. vm_compute. reflexivity. Qed.

End AuthExamples.

(** * Properties of the room input handler *)
Section InputFacts.
Import Input Terms.

(** ** The order of [sort.Strings] *)

Lemma ascii_compare_refl (c : ascii) : Ascii.compare c c = Eq.
Proof. unfold Ascii.compare. apply N.compare_refl. Qed.

Lemma ascii_compare_lt_trans (a b c : ascii) :
  Ascii.compare a b = Lt -> Ascii.compare b c = Lt -> Ascii.compare a c = Lt.
Proof.
  unfold Ascii.compare. rewrite !N.compare_lt_iff. apply N.lt_trans.
Qed.

Lemma string_compare_le_trans (a b c : string) :
  String.compare a b <> Gt -> String.compare b c <> Gt ->
  String.compare a c <> Gt.
Proof.
  revert b c. induction a as [|x a IH]; intros [|y b] [|z c]; simpl;
    try congruence.
  destruct (Ascii.compare x y) eqn:Hxy; [| | congruence].
  - apply Ascii.compare_eq_iff in Hxy. subst y.
    destruct (Ascii.compare x z); [apply IH | congruence | congruence].
  - intros _. destruct (Ascii.compare y z) eqn:Hyz; [| | congruence].
    + apply Ascii.compare_eq_iff in Hyz. subst z. rewrite Hxy. congruence.
    + rewrite (ascii_compare_lt_trans _ _ _ Hxy Hyz). congruence.
Qed.

Lemma string_le_compare (a b : string) :
  string_le a b <-> String.compare a b <> Gt.
Proof.
  unfold string_le, String.leb. destruct (String.compare a b); split;
    congruence.
Qed.

#[local] Instance string_le_trans : Transitive string_le.
Proof.
  intros a b c. rewrite !string_le_compare. apply string_compare_le_trans.
Qed.

#[local] Instance string_le_antisym : AntiSymm (=) string_le.
Proof. intros a b. apply String.leb_antisym. Qed.

Lemma string_le_total (a b : string) : string_le a b \/ string_le b a.
Proof. apply String.leb_total. Qed.

(** ** [sort.Strings] *)

Lemma elem_of_insertSorted (s x : string) (l : list string) :
  x ∈ insertSorted s l <-> x = s \/ x ∈ l.
Proof.
  induction l as [|y l IH]; simpl.
  - rewrite list_elem_of_singleton, elem_of_nil. tauto.
  - destruct (String.leb s y); [rewrite !elem_of_cons; tauto |].
    rewrite !elem_of_cons, IH. tauto.
Qed.

Lemma insertSorted_sorted (s : string) (l : list string) :
  StronglySorted string_le l -> StronglySorted string_le (insertSorted s l).
Proof.
  induction 1 as [|y l Hl IH Hy]; simpl.
  - repeat constructor.
  - destruct (String.leb s y) eqn:Hsy.
    + constructor; [by constructor |].
      constructor; [exact Hsy |].
      eapply Forall_impl; [exact Hy |]. intros z Hz.
      by transitivity y.
    + constructor; [exact IH |].
      apply Forall_forall. intros z Hz. apply elem_of_insertSorted in Hz.
      destruct Hz as [-> | Hz].
      * destruct (string_le_total s y) as [H | H]; [| exact H].
        unfold string_le in H. congruence.
      * rewrite Forall_forall in Hy. by apply Hy.
Qed.

Lemma sort_Strings_sorted (l : list string) :
  StronglySorted string_le (sort_Strings l).
Proof.
  induction l as [|x l IH]; simpl; [constructor |].
  by apply insertSorted_sorted.
Qed.

Lemma elem_of_sort_Strings (x : string) (l : list string) :
  x ∈ sort_Strings l <-> x ∈ l.
Proof.
  induction l as [|y l IH]; simpl; [reflexivity |].
  rewrite elem_of_insertSorted, elem_of_cons, IH. reflexivity.
Qed.

(** ** [unique] *)

Lemma unique_loop_spec (n i : nat) (a : list string) (lastValue : string) (j : nat) :
  (j < i)%nat -> (i + n)%nat = length a ->
  forall a' lastValue' j',
    unique_loop n i a lastValue j = (a', lastValue', j') ->
    take (S j') (<[j':=lastValue']> a')
    = take j a ++ compress_from lastValue (drop i a).
Proof.
  revert i a lastValue j.
  induction n as [|n IH]; intros i a lastValue j Hj Hlen a' lastValue' j'; simpl.
  - intros [= <- <- <-].
    rewrite drop_ge by lia. simpl.
    erewrite take_S_r; [| apply list_lookup_insert_eq; lia].
    rewrite take_insert_ge by lia. reflexivity.
  - destruct (a !! i) as [value|] eqn:Hi.
    2: { apply lookup_ge_None in Hi. lia. }
    rewrite (drop_S _ _ _ Hi). simpl.
    destruct (string_eqb value lastValue); simpl.
    + intros Hloop. apply (IH (S i) a lastValue j); [lia | lia | exact Hloop].
    + intros Hloop.
      apply (IH (S i) (<[j:=lastValue]> a) value (S j)) in Hloop;
        [| lia | rewrite length_insert; lia].
      rewrite Hloop. rewrite drop_insert_lt by lia.
      erewrite take_S_r; [| apply list_lookup_insert_eq; lia].
      rewrite take_insert_ge by lia.
      rewrite <- app_assoc. reflexivity.
Qed.

(** [unique] keeps one element of each run of equal neighbours. *)
Lemma unique_compress (a : list string) : unique a = compress a.
Proof.
  destruct a as [|a0 a]; [reflexivity |].
  unfold unique, compress.
  change (unique_loop (length (a0 :: a)) 0 (a0 :: a) a0 0)
    with (if negb (string_eqb a0 a0)
          then unique_loop (length a) 1 (<[0%nat:=a0]> (a0 :: a)) a0 1
          else unique_loop (length a) 1 (a0 :: a) a0 0).
  unfold string_eqb at 1. rewrite bool_decide_eq_true_2 by done. simpl negb.
  cbv iota.
  destruct (unique_loop (length a) 1 (a0 :: a) a0 0) as [[a' lastValue'] j']
    eqn:Hloop.
  apply unique_loop_spec in Hloop; [| lia | simpl; lia].
  exact Hloop.
Qed.

Lemma elem_of_compress_from (x lastValue : string) (l : list string) :
  x ∈ compress_from lastValue l <-> x = lastValue \/ x ∈ l.
Proof.
  revert lastValue. induction l as [|value l IH]; intros lastValue; simpl.
  - rewrite list_elem_of_singleton, elem_of_nil. tauto.
  - unfold string_eqb. case_bool_decide as Heq.
    + subst value. rewrite IH, elem_of_cons. tauto.
    + rewrite !elem_of_cons, IH. tauto.
Qed.

Lemma elem_of_compress (x : string) (l : list string) :
  x ∈ compress l <-> x ∈ l.
Proof.
  destruct l as [|a0 l]; simpl; [reflexivity |].
  rewrite elem_of_compress_from, elem_of_cons. reflexivity.
Qed.

Lemma compress_from_sorted (lastValue : string) (l : list string) :
  StronglySorted string_le (lastValue :: l) ->
  StronglySorted string_le (compress_from lastValue l)
  /\ NoDup (compress_from lastValue l).
Proof.
  revert lastValue. induction l as [|value l IH]; intros lastValue Hs; simpl.
  - split; [repeat constructor | apply NoDup_singleton].
  - apply StronglySorted_inv in Hs as [Hl Hlast].
    apply Forall_cons in Hlast as [Hv Hlast].
    unfold string_eqb. case_bool_decide as Heq.
    + subst value. apply IH. exact Hl.
    + destruct (IH value Hl) as [IHs IHn].
      pose proof Hl as Hl'. apply StronglySorted_inv in Hl' as [_ Hvl].
      rewrite Forall_forall in Hlast, Hvl.
      split.
      * constructor; [exact IHs |].
        apply Forall_forall. intros z Hz.
        apply elem_of_compress_from in Hz as [-> | Hz]; auto.
      * constructor; [| exact IHn].
        intros Hin. apply elem_of_compress_from in Hin as [-> | Hin];
          [congruence |].
        apply Heq. apply (anti_symm string_le); auto.
Qed.

Lemma compress_sorted (l : list string) :
  StronglySorted string_le l ->
  StronglySorted string_le (compress l) /\ NoDup (compress l).
Proof.
  destruct l as [|a0 l]; simpl.
  - intros _. split; constructor.
  - apply compress_from_sorted.
Qed.

(** Sorting and then removing the duplicates gives one and the same list
    for all lists with the same elements. *)
Lemma unique_sort_canonical (l1 l2 : list string) :
  (forall x, x ∈ l1 <-> x ∈ l2) ->
  unique (sort_Strings l1) = unique (sort_Strings l2).
Proof.
  intros Hset. rewrite !unique_compress.
  destruct (compress_sorted _ (sort_Strings_sorted l1)) as [Hs1 Hn1].
  destruct (compress_sorted _ (sort_Strings_sorted l2)) as [Hs2 Hn2].
  apply (StronglySorted_unique string_le); [exact Hs1 | exact Hs2 |].
  apply NoDup_Permutation; [exact Hn1 | exact Hn2 |].
  intros x. rewrite !elem_of_compress, !elem_of_sort_Strings. apply Hset.
Qed.

Lemma elem_of_unique_sort (x : string) (l : list string) :
  x ∈ unique (sort_Strings l) <-> x ∈ l.
Proof. rewrite unique_compress, elem_of_compress. apply elem_of_sort_Strings. Qed.

(** ** prepareState *)

Lemma length_omap_le {A B : Type} (f : A -> option B) (l : list A) :
  (length (omap f l) <= length l)%nat.
Proof.
  induction l as [|x l IH]; csimpl; [lia |].
  destruct (f x); csimpl; lia.
Qed.

Lemma length_omap_eq {A B : Type} (f : A -> option B) (l : list A) :
  length (omap f l) = length l <-> forall x, x ∈ l -> is_Some (f x).
Proof.
  induction l as [|x l IH]; csimpl.
  - split; [intros _ y Hy; by apply elem_of_nil in Hy | reflexivity].
  - pose proof (length_omap_le f l) as Hle.
    destruct (f x) as [y|] eqn:Hx; csimpl.
    + split.
      * intros Hlen y' Hy'. apply elem_of_cons in Hy' as [-> | Hy'].
        -- rewrite Hx. eauto.
        -- apply IH; [lia | exact Hy'].
      * intros Hall. f_equal. apply IH. intros y' Hy'. apply Hall.
        by apply elem_of_cons; right.
    + split; [lia |].
      intros Hall. destruct (Hall x) as [y Hy]; [by apply elem_of_cons; left |].
      congruence.
Qed.

Section PrepareState.
Variable Unmarshal : string -> event -> event * option error.

(** Without a state list, prepareState makes one call: it asks for the
    state at the sorted, duplicate-free prev_event ids. *)
Lemma run_prepareState_prev_events {DB : Type} `{Database DB}
    (input : InputEvent) (ev : event) (db : DB) :
  State input = None ->
  Unmarshal (Event input) (set_raw zeroEvent (Event input)) = (ev, None) ->
  let prevEventIDs := unique (sort_Strings (map ref_EventID (PrevEvents ev))) in
  let answer := handle _ (StateAtEvents prevEventIDs) db in
  run (prepareState Unmarshal input) db =
    ((RoomID ev, set_stateAtPrevEvents ev answer.1.1,
      match answer.1.2 with
      | Some e => Some e
      | None =>
        if negb (len answer.1.1 =? len prevEventIDs)%Z then
          Some (Errorf "Missing necessary state at prev_event for %q"
                  [AString (EventID ev)])
        else None
      end),
     answer.2, [called (StateAtEvents prevEventIDs)]).
Proof.
  intros Hstate Hparse prevEventIDs answer.
  unfold prepareState. simpl raw. rewrite Hparse, Hstate. simpl.
  fold prevEventIDs. fold answer.
  destruct answer as [[states e] db']. simpl.
  destruct e as [e|]; [reflexivity |].
  destruct (negb (len states =? len prevEventIDs)%Z); reflexivity.
Qed.

(** C10: for an input without a state list, the outcome of prepareState
    depends only on the set of prev_event ids: two events with the same set
    of ids make the same database call and get the same states and the same
    outcome; and on a database that answers with the state of each id it
    has, preparation succeeds exactly when every prev_event id has persisted
    state, however often and in whatever order the ids are listed, and
    fails with the missing state error otherwise. *)
Theorem prepareState_prev_events_set (input1 input2 : InputEvent)
    (ev1 ev2 : event) :
  State input1 = None ->
  State input2 = None ->
  Unmarshal (Event input1) (set_raw zeroEvent (Event input1)) = (ev1, None) ->
  Unmarshal (Event input2) (set_raw zeroEvent (Event input2)) = (ev2, None) ->
  (forall id, id ∈ map ref_EventID (PrevEvents ev1)
              <-> id ∈ map ref_EventID (PrevEvents ev2)) ->
  (forall (DB : Type) (H : Database DB) (db : DB),
     exists states e1 e2 db' calls,
       run (prepareState Unmarshal input1) db
       = ((RoomID ev1, set_stateAtPrevEvents ev1 states, e1), db', calls)
       /\ run (prepareState Unmarshal input2) db
          = ((RoomID ev2, set_stateAtPrevEvents ev2 states, e2), db', calls)
       /\ sameOutcome e1 e2 (EventID ev1) (EventID ev2))
  /\ (forall (others : refDB -> refDB) (db : refDB),
        exists states e,
          run (H := refHandle others) (prepareState Unmarshal input1) db
          = ((RoomID ev1, set_stateAtPrevEvents ev1 states, e), db,
             [called (StateAtEvents
                        (unique (sort_Strings
                                   (map ref_EventID (PrevEvents ev1)))))])
          /\ (e = None <->
              forall id, id ∈ map ref_EventID (PrevEvents ev1) ->
                         is_Some (stateAtEvents db !! id))
          /\ (e <> None ->
              e = Some (Errorf "Missing necessary state at prev_event for %q"
                          [AString (EventID ev1)]))).
Proof.
  intros Hs1 Hs2 Hp1 Hp2 Hset. split.
  - intros DB H db.
    rewrite (run_prepareState_prev_events input1 ev1 db Hs1 Hp1).
    rewrite (run_prepareState_prev_events input2 ev2 db Hs2 Hp2).
    rewrite <- (unique_sort_canonical _ _ Hset).
    destruct (handle _ (StateAtEvents _) db) as [[states e] db']. simpl.
    do 5 eexists. split; [reflexivity |]. split; [reflexivity |].
    unfold sameOutcome. destruct e; [by left |].
    destruct (negb (len states =? len _)%Z); [right | left]; done.
  - intros others db.
    rewrite (run_prepareState_prev_events (H := refHandle others)
               input1 ev1 db Hs1 Hp1).
    simpl.
    set (prevEventIDs := unique (sort_Strings (map ref_EventID (PrevEvents ev1)))).
    do 2 eexists. split; [reflexivity |].
    assert (Hlen : (len (omap (fun id => stateAtEvents db !! id) prevEventIDs)
                    =? len prevEventIDs)%Z = true
                   <-> forall id, id ∈ map ref_EventID (PrevEvents ev1) ->
                                  is_Some (stateAtEvents db !! id)).
    { unfold len. rewrite Z.eqb_eq, Nat2Z.inj_iff, length_omap_eq.
      unfold prevEventIDs.
      split; intros Hall id Hid; apply Hall.
      - apply (proj2 (elem_of_unique_sort _ _)). exact Hid.
      - apply (proj1 (elem_of_unique_sort _ _)). exact Hid. }
    destruct (len _ =? len prevEventIDs)%Z; simpl.
    + split; [| congruence]. split; [intros _; by apply Hlen | reflexivity].
    + split; [| reflexivity]. split; [discriminate |].
      intros Hall. apply Hlen in Hall. discriminate.
Qed.

End PrepareState.

(** ** prepareRoom *)

(** On any database, a room that the first lookup does not find is only
    created for an outlier: for another kind the lookup is the one call
    prepareRoom makes, and for a room that the lookup finds as well. *)
Lemma prepareRoom_single_lookup {DB : Type} `{Database DB} (kind : Z)
    (roomID : string) (db db' : DB) (roomNID : Z) (e : option error) :
  handle _ (RoomNID roomID) db = ((roomNID, e), db') ->
  e <> None \/ roomNID <> 0%Z \/ kind <> KindOutlier ->
  exists result,
    run (prepareRoom kind roomID) db = (result, db', [called (RoomNID roomID)])
    /\ (e = None -> roomNID = 0%Z -> fst result = 0%Z /\ snd result <> None)
    /\ (e <> None \/ roomNID <> 0%Z -> result = (roomNID, e)).
Proof.
  intros Hlookup Hcase. unfold prepareRoom. simpl. rewrite Hlookup.
  destruct e as [e|]; simpl.
  { eexists. split; [reflexivity |]. split; [discriminate | reflexivity]. }
  destruct (roomNID =? 0)%Z eqn:Hz; simpl.
  - apply Z.eqb_eq in Hz. subst roomNID.
    destruct Hcase as [Hcase | [Hcase | Hcase]]; try congruence.
    apply Z.eqb_neq in Hcase. rewrite Hcase. simpl.
    eexists. split; [reflexivity |]. split.
    + intros _ _. split; [reflexivity | discriminate].
    + intros [Hne | Hne]; congruence.
  - apply Z.eqb_neq in Hz. eexists. split; [reflexivity |]. split.
    + intros _ Heq. congruence.
    + reflexivity.
Qed.

(** C8: on the reference database, for a room id without a room nid: when
    the kind is not Outlier, prepareRoom fails after its first lookup,
    without touching the sequence or the registry; when the kind is
    Outlier, it takes the room-creation lock and looks the room up again,
    then either finds the nid another request assigned meanwhile and
    returns it without allocating, or draws the next nid of the sequence,
    which no room has, and registers the room under it.  For a room id
    that has a room nid, that nid is returned after the first lookup and
    nothing is allocated. *)
Theorem prepareRoom_outcomes (others : refDB -> refDB) (kind : Z)
    (roomID : string) (db : refDB) :
  roomsAssigned db ->
  roomsAssigned (others db) ->
  (rooms db !! roomID = None ->
   kind <> KindOutlier ->
   run (H := refHandle others) (prepareRoom kind roomID) db
   = ((0%Z, Some (Errorf "The first events added to a room must be outliers: %q"
                    [AString roomID])),
      db, [called (RoomNID roomID)]))
  /\ (rooms db !! roomID = None ->
      kind = KindOutlier ->
      rooms (others db) !! roomID = None ->
      exists db',
        run (H := refHandle others) (prepareRoom kind roomID) db
        = ((roomNIDSeq (others db), None), db',
           [called (RoomNID roomID); called (CreateRoomLock roomID);
            called (RoomNID roomID); called NextRoomNID;
            called (InsertNewRoom (roomNIDSeq (others db)) roomID);
            called (UnlockCreateRoom roomID)])
        /\ rooms db' = <[roomID:=roomNIDSeq (others db)]> (rooms (others db))
        /\ roomNIDSeq db' = (roomNIDSeq (others db) + 1)%Z
        /\ (forall r, rooms (others db) !! r <> Some (roomNIDSeq (others db)))
        /\ roomsAssigned db')
  /\ (forall nid,
        rooms db !! roomID = None ->
        kind = KindOutlier ->
        rooms (others db) !! roomID = Some nid ->
        exists db',
          run (H := refHandle others) (prepareRoom kind roomID) db
          = ((nid, None), db',
             [called (RoomNID roomID); called (CreateRoomLock roomID);
              called (RoomNID roomID); called (UnlockCreateRoom roomID)])
          /\ rooms db' = rooms (others db)
          /\ roomNIDSeq db' = roomNIDSeq (others db))
  /\ (forall nid,
        rooms db !! roomID = Some nid ->
        run (H := refHandle others) (prepareRoom kind roomID) db
        = ((nid, None), db, [called (RoomNID roomID)])).
Proof.
  intros [Hpos Hwf] [Hpos' Hwf']. split; [| split; [| split]].
  - intros Hnone Hkind. unfold prepareRoom. simpl. rewrite Hnone. simpl.
    apply Z.eqb_neq in Hkind. rewrite Hkind. reflexivity.
  - intros Hnone -> Hnone'. unfold prepareRoom. simpl.
    rewrite Hnone. simpl. rewrite Hnone'. simpl.
    eexists. split; [reflexivity |]. simpl.
    split; [reflexivity |]. split; [reflexivity |]. split.
    + intros r Hr. apply Hwf' in Hr. lia.
    + split; simpl; [lia |].
      intros r n Hr.
      apply lookup_insert_Some in Hr as [[_ <-] | [_ Hr]]; [lia |].
      apply Hwf' in Hr. lia.
  - intros nid Hnone -> Hsome. unfold prepareRoom. simpl.
    rewrite Hnone. simpl. rewrite Hsome. simpl.
    assert (Hnz : (nid =? 0)%Z = false).
    { apply Z.eqb_neq. apply Hwf' in Hsome. lia. }
    rewrite Hnz. simpl. eexists. split; [reflexivity |]. split; reflexivity.
  - intros nid Hsome. unfold prepareRoom. simpl. rewrite Hsome. simpl.
    assert (Hnz : (nid =? 0)%Z = false).
    { apply Z.eqb_neq. apply Hwf in Hsome. lia. }
    rewrite Hnz. reflexivity.
Qed.

(** ** The handler on the sample database *)

Lemma prepareState_prev_events_set_witness :
  let input1 := Sample.newInput "twice" in
  let input2 := Sample.newInput "once" in
  let ev1 := Sample.withPrevEvents "twice" ["$p:x"; "$q:x"; "$p:x"] in
  let ev2 := Sample.withPrevEvents "once" ["$q:x"; "$p:x"] in
  (State input1 = None /\ State input2 = None
   /\ Sample.sampleUnmarshal (Event input1) (set_raw zeroEvent (Event input1))
      = (ev1, None)
   /\ Sample.sampleUnmarshal (Event input2) (set_raw zeroEvent (Event input2))
      = (ev2, None)
   /\ (forall id, id ∈ map ref_EventID (PrevEvents ev1)
                  <-> id ∈ map ref_EventID (PrevEvents ev2)))
  /\ exists states e,
       run (H := refHandle id) (prepareState Sample.sampleUnmarshal input1)
         Sample.sampleDB
       = ((RoomID ev1, set_stateAtPrevEvents ev1 states, e), Sample.sampleDB,
          [called (StateAtEvents
                     (unique (sort_Strings (map ref_EventID (PrevEvents ev1)))))])
       /\ (e = None <->
           forall id, id ∈ map ref_EventID (PrevEvents ev1) ->
                      is_Some (stateAtEvents Sample.sampleDB !! id))
       /\ (e <> None ->
           e = Some (Errorf "Missing necessary state at prev_event for %q"
                       [AString (EventID ev1)])).
Proof.
  intros input1 input2 ev1 ev2.
  assert (Hset : forall id, id ∈ map ref_EventID (PrevEvents ev1)
                            <-> id ∈ map ref_EventID (PrevEvents ev2)).
  { intros id. simpl. rewrite !elem_of_cons, elem_of_nil. tauto. }
  split; [repeat split; solve [reflexivity | apply Hset] |].
  destruct (prepareState_prev_events_set Sample.sampleUnmarshal input1 input2
              ev1 ev2 eq_refl eq_refl eq_refl eq_refl Hset) as [_ Href].
  exact (Href id Sample.sampleDB).
Defined.

(** An event that lists a prev_event twice is prepared when each of its
    prev_events has persisted state. *)
Example prepareState_duplicate_prev_event :
  (run (H := refHandle id)
     (prepareState Sample.sampleUnmarshal (Sample.newInput "twice"))
     Sample.sampleDB).1.1
  = ("!r:x",
     set_stateAtPrevEvents
       (Sample.withPrevEvents "twice" ["$p:x"; "$q:x"; "$p:x"])
       [Sample.someState 1; Sample.someState 2],
     None).
Proof. vm_compute. reflexivity. Qed.

Lemma roomsAssigned_emptyDB : roomsAssigned emptyDB.
Proof.
  split; [reflexivity |]. intros roomID nid H. simpl in H.
  rewrite lookup_empty in H. discriminate.
Qed.

Lemma prepareRoom_outcomes_witness :
  (roomsAssigned emptyDB /\ roomsAssigned (id emptyDB)
   /\ rooms emptyDB !! "!r:x" = None)
  /\ exists db',
       run (H := refHandle id) (prepareRoom KindOutlier "!r:x") emptyDB
       = ((1%Z, None), db',
          [called (RoomNID "!r:x"); called (CreateRoomLock "!r:x");
           called (RoomNID "!r:x"); called NextRoomNID;
           called (InsertNewRoom 1 "!r:x");
           called (UnlockCreateRoom "!r:x")])
       /\ rooms db' = <[ "!r:x" := 1%Z ]> (rooms emptyDB)
       /\ roomNIDSeq db' = 2%Z
       /\ (forall r, rooms emptyDB !! r <> Some 1%Z)
       /\ roomsAssigned db'.
Proof.
  split.
  { split; [exact roomsAssigned_emptyDB |].
    split; [exact roomsAssigned_emptyDB | apply lookup_empty]. }
  destruct (prepareRoom_outcomes id KindOutlier "!r:x" emptyDB
              roomsAssigned_emptyDB roomsAssigned_emptyDB) as (_ & Houtlier & _).
  apply Houtlier; solve [reflexivity | apply lookup_empty].
Defined.

(** The first event of a room that is not an outlier is refused and leaves
    the database as it was. *)
Example prepareRoom_first_event_not_outlier :
  run (H := refHandle id) (prepareRoom KindJoin "!r:x") emptyDB
  = ((0%Z, Some (Errorf "The first events added to a room must be outliers: %q"
                   [AString "!r:x"])),
     emptyDB, [called (RoomNID "!r:x")]).
Proof. reflexivity. Qed.

End InputFacts.

(** * Properties of the state snapshot storage *)
Section StorageFacts.
Import Storage Terms.

(** ** The row loop *)

(** Rows that all scan fill the results from index [i] on, as long as they
    fit. *)
Lemma scanRows_fits (rows : list (Z * list Z)) (results : list StateBlockNIDList)
    (i : nat) :
  (i + length rows <= length results)%nat ->
  scanRows (map inr rows) results i
  = inl (take i results ++ map mkResult rows ++ drop (i + length rows) results,
         (i + length rows)%nat).
Proof.
  revert results i. induction rows as [|[nid blocks] rows IH];
    intros results i Hfit; simpl in *.
  - rewrite Nat.add_0_r, take_drop. reflexivity.
  - rewrite bool_decide_eq_false_2 by lia.
    rewrite IH by (rewrite length_insert; lia).
    erewrite take_S_r; [| apply list_lookup_insert_eq; lia].
    rewrite take_insert_ge by lia.
    rewrite drop_insert_lt by lia.
    rewrite <- app_assoc. simpl.
    replace (i + S (length rows))%nat with (S (i + length rows)) by lia.
    reflexivity.
Qed.

(** ** ORDER BY *)

Lemma insertByNID_Permutation (r : Z * list Z) (l : list (Z * list Z)) :
  insertByNID r l ≡ₚ r :: l.
Proof.
  induction l as [|x l IH]; simpl; [reflexivity |].
  destruct (r.1 <=? x.1)%Z; [reflexivity |].
  rewrite IH. apply perm_swap.
Qed.

Lemma orderByNID_Permutation (l : list (Z * list Z)) : orderByNID l ≡ₚ l.
Proof.
  induction l as [|x l IH]; simpl; [reflexivity |].
  rewrite insertByNID_Permutation, IH. reflexivity.
Qed.

Lemma insertByNID_sorted (r : Z * list Z) (l : list (Z * list Z)) :
  StronglySorted nid_le l -> StronglySorted nid_le (insertByNID r l).
Proof.
  induction 1 as [|x l Hl IH Hx]; simpl.
  - repeat constructor.
  - destruct (r.1 <=? x.1)%Z eqn:Hrx.
    + apply Z.leb_le in Hrx.
      constructor; [by constructor |].
      constructor; [exact Hrx |].
      eapply Forall_impl; [exact Hx |]. unfold nid_le. intros; lia.
    + apply Z.leb_gt in Hrx. constructor; [exact IH |].
      rewrite insertByNID_Permutation. constructor; [unfold nid_le; lia |].
      exact Hx.
Qed.

Lemma orderByNID_sorted (l : list (Z * list Z)) :
  StronglySorted nid_le (orderByNID l).
Proof.
  induction l as [|x l IH]; simpl; [constructor |].
  by apply insertByNID_sorted.
Qed.

Lemma sorted_strict (l : list (Z * list Z)) :
  StronglySorted nid_le l -> NoDup (l.*1) -> StronglySorted nid_lt l.
Proof.
  induction 1 as [|x l Hl IH Hx]; simpl; [constructor |].
  intros Hnd. apply NoDup_cons in Hnd as [Hnotin Hnd].
  constructor; [by apply IH |].
  rewrite Forall_forall in Hx. apply Forall_forall. intros y Hy.
  specialize (Hx y Hy). unfold nid_le, nid_lt in *.
  assert (x.1 <> y.1); [| lia].
  intros Heq. apply Hnotin. rewrite Heq. apply list_elem_of_fmap. eauto.
Qed.

(** ** The query *)

(** The nids of the selected rows: the keys of the table that were asked
    for, each once. *)
Lemma selected_keys (table : state_snapshots) (nids : list Z) :
  let rows := bulkSelectStateBlockNIDsSQL table nids in
  NoDup (rows.*1)
  /\ (forall nid, nid ∈ rows.*1 <-> nid ∈ nids /\ is_Some (table !! nid))
  /\ (forall nid blocks,
        (nid, blocks) ∈ rows <->
        nid ∈ nids /\ exists roomNID, table !! nid = Some (roomNID, blocks)).
Proof.
  intros rows. unfold rows, bulkSelectStateBlockNIDsSQL.
  set (selected := filter (fun kv : Z * (Z * list Z) => kv.1 ∈ nids)
                     (map_to_list table)).
  assert (Hkeys : (map (fun kv : Z * (Z * list Z) => (kv.1, kv.2.2)) selected).*1
                  = selected.*1).
  { rewrite <- list_fmap_compose. reflexivity. }
  assert (Helem : forall nid roomNID blocks,
            (nid, (roomNID, blocks)) ∈ selected <->
            nid ∈ nids /\ table !! nid = Some (roomNID, blocks)).
  { intros nid roomNID blocks. unfold selected.
    rewrite list_elem_of_filter, elem_of_map_to_list. reflexivity. }
  split; [| split].
  - rewrite orderByNID_Permutation, Hkeys. unfold selected.
    apply NoDup_fmap_fst.
    + intros k v1 v2 H1 H2.
      apply list_elem_of_filter in H1 as [_ H1].
      apply list_elem_of_filter in H2 as [_ H2].
      apply elem_of_map_to_list in H1, H2. congruence.
    + apply NoDup_filter, NoDup_map_to_list.
  - intros nid. rewrite orderByNID_Permutation, Hkeys, list_elem_of_fmap. split.
    + intros ([k [roomNID blocks]] & -> & Hin). apply Helem in Hin as [? ?].
      simpl. eauto.
    + intros (Hin & [[roomNID blocks] Hlook]).
      exists (nid, (roomNID, blocks)). split; [reflexivity |].
      apply Helem. eauto.
  - intros nid blocks. rewrite orderByNID_Permutation, list_elem_of_fmap. split.
    + intros ([k [roomNID blocks']] & [= -> ->] & Hin).
      apply Helem in Hin as [? ?]. eauto.
    + intros (Hin & roomNID & Hlook).
      exists (nid, (roomNID, blocks)). split; [reflexivity |].
      apply Helem. eauto.
Qed.

Lemma selected_length (table : state_snapshots) (nids : list Z) :
  let rows := bulkSelectStateBlockNIDsSQL table nids in
  (length rows <= length nids)%nat
  /\ (length rows = length nids <->
      NoDup nids /\ forall nid, nid ∈ nids -> is_Some (table !! nid)).
Proof.
  intros rows.
  destruct (selected_keys table nids) as (Hnd & Hkeys & _). fold rows in Hnd, Hkeys.
  assert (Hsub : rows.*1 ⊆+ nids).
  { apply NoDup_submseteq; [exact Hnd |]. intros nid Hin.
    apply Hkeys in Hin as [Hin _]. exact Hin. }
  rewrite <- (length_fmap fst rows). split.
  - by apply submseteq_length.
  - split.
    + intros Hlen.
      assert (Hperm : rows.*1 ≡ₚ nids)
        by (apply submseteq_length_Permutation; [exact Hsub | lia]).
      split; [by rewrite <- Hperm |].
      intros nid Hin. rewrite <- Hperm in Hin.
      apply Hkeys in Hin as [_ Hin]. exact Hin.
    + intros (Hnd' & Hall). apply Permutation_length.
      apply NoDup_Permutation; [exact Hnd | exact Hnd' |].
      intros nid. rewrite Hkeys. split; [tauto | eauto].
Qed.

(** ** bulkSelectStateBlockNIDs on a table *)

Lemma bulkSelectStateBlockNIDs_table (table : state_snapshots) (stateNIDs : list Z) :
  let rows := bulkSelectStateBlockNIDsSQL table stateNIDs in
  bulkSelectStateBlockNIDs (tableQuery table) stateNIDs =
    if decide (length rows = length stateNIDs) then (map mkResult rows, ok)
    else ([], err (Errorf "storage: state NIDs missing from the database (%d != %d)"
                     [AInt (len rows); AInt (len stateNIDs)])).
Proof.
  intros rows. unfold bulkSelectStateBlockNIDs, tableQuery. fold rows.
  destruct (selected_length table stateNIDs) as [Hle _]. fold rows in Hle.
  rewrite scanRows_fits by (rewrite length_replicate; simpl; lia).
  simpl. unfold len.
  destruct (decide (length rows = length stateNIDs)) as [Heq | Hne].
  - rewrite Heq, Z.eqb_refl. simpl.
    rewrite drop_ge by (rewrite length_replicate; lia).
    rewrite app_nil_r. reflexivity.
  - destruct (Z.of_nat (length rows) =? Z.of_nat (length stateNIDs))%Z eqn:Hlen.
    + apply Z.eqb_eq in Hlen. lia.
    + reflexivity.
Qed.

(** C9, amended: for a list of requested snapshot nids without repetition
    that are all stored, the lookup returns one block-nid list per requested
    nid, the one the table holds for it, in strictly ascending order of
    snapshot nid; it fails with the missing-snapshot error when a requested
    nid is not stored, and also when a nid is requested more than once. *)
Theorem bulkSelectStateBlockNIDs_result (table : state_snapshots)
    (stateNIDs : list Z) :
  let missing :=
    ([], err (Errorf "storage: state NIDs missing from the database (%d != %d)"
                [AInt (len (bulkSelectStateBlockNIDsSQL table stateNIDs));
                 AInt (len stateNIDs)])) in
  (NoDup stateNIDs ->
   (forall nid, nid ∈ stateNIDs -> is_Some (table !! nid)) ->
   exists results,
     bulkSelectStateBlockNIDs (tableQuery table) stateNIDs = (results, ok)
     /\ length results = length stateNIDs
     /\ StronglySorted
          (fun a b => (StateSnapshotNID a < StateSnapshotNID b)%Z) results
     /\ (forall nid blocks,
           {| StateSnapshotNID := nid; StateBlockNIDs := blocks |} ∈ results <->
           nid ∈ stateNIDs /\ exists roomNID, table !! nid = Some (roomNID, blocks)))
  /\ ((exists nid, nid ∈ stateNIDs /\ table !! nid = None) ->
      bulkSelectStateBlockNIDs (tableQuery table) stateNIDs = missing)
  /\ (~ NoDup stateNIDs ->
      bulkSelectStateBlockNIDs (tableQuery table) stateNIDs = missing).
Proof.
  intros missing. unfold missing.
  rewrite bulkSelectStateBlockNIDs_table.
  destruct (selected_length table stateNIDs) as [_ Hlen].
  destruct (selected_keys table stateNIDs) as (Hnd & _ & Hrows).
  set (rows := bulkSelectStateBlockNIDsSQL table stateNIDs) in *.
  split; [| split].
  - intros Hnodup Hall.
    rewrite decide_True by (apply Hlen; auto).
    eexists. split; [reflexivity |].
    split; [rewrite length_map; apply Hlen; auto |]. split.
    + assert (Hs : StronglySorted nid_lt rows).
      { apply sorted_strict; [apply orderByNID_sorted | exact Hnd]. }
      clear -Hs. induction Hs as [|r rows Hs IH Hr]; simpl; constructor.
      * exact IH.
      * apply Forall_map. exact Hr.
    + intros nid blocks. rewrite <- Hrows.
      change (map mkResult rows) with (mkResult <$> rows).
      rewrite list_elem_of_fmap. split.
      * intros ([nid' blocks'] & [= -> ->] & Hin). exact Hin.
      * intros Hin. exists (nid, blocks). split; [reflexivity | exact Hin].
  - intros (nid & Hin & Hnone).
    rewrite decide_False; [reflexivity |].
    intros Heq. apply Hlen in Heq as [_ Hall].
    destruct (Hall nid Hin) as [? ?]. congruence.
  - intros Hdup.
    rewrite decide_False; [reflexivity |].
    intros Heq. apply Hlen in Heq as [Hnodup _]. contradiction.
Qed.

(** C9, counterexample: asking twice for a snapshot nid that is stored
    fails with the missing-snapshot error. *)
Lemma bulkSelectStateBlockNIDs_counterexample :
  let table : state_snapshots := {[ 5%Z := (1%Z, [7%Z]) ]} in
  (forall nid, nid ∈ [5%Z; 5%Z] -> is_Some (table !! nid))
  /\ bulkSelectStateBlockNIDs (tableQuery table) [5%Z; 5%Z]
     = ([], err (Errorf "storage: state NIDs missing from the database (%d != %d)"
                   [AInt 1; AInt 2])).
Proof.
  split.
  - intros nid Hin.
    assert (nid = 5%Z) as -> by (rewrite !elem_of_cons, elem_of_nil in Hin; tauto).
    rewrite lookup_singleton_eq. eauto.
  - vm_compute. reflexivity.
Qed.

End StorageFacts.

(** * Further properties of the authorization rules *)
Section AuthMore.
Import EventAuth Terms MoreTerms.
Context {ops : ContentOps}.

Lemma if_ok (b : bool) (rest : outcome) :
  (if b then ok else rest) = ok <-> b = true \/ rest = ok.
Proof. destruct b; split; auto; intros [H | H]; auto; discriminate. Qed.

Lemma if_err (b : bool) (e : error) (rest : outcome) :
  (if b then err e else rest) = ok <-> b = false /\ rest = ok.
Proof.
  destruct b; split.
  - discriminate.
  - intros [H _]. discriminate.
  - auto.
  - intros [_ H]. exact H.
Qed.

(** X1: an m.room.aliases event is allowed exactly when its sender has a
    domain, its room id is the one of the create content, that domain is
    permitted by the create content and the state key is that domain.  The
    create content is used as loaded, whatever error the loader reported,
    and neither membership nor power levels are read. *)
Theorem aliasEventAllowed_ok_iff (event : Event) (authEvents : AuthEvents) :
  aliasEventAllowed event authEvents = ok <->
  exists senderDomain,
    domainFromID (Sender event) = inr senderDomain
    /\ RoomID event = roomID (newCreateContentFromAuthEvents authEvents).1
    /\ domainAllowed (newCreateContentFromAuthEvents authEvents).1 senderDomain
       = None
    /\ StateKey event = Some senderDomain.
Proof.
  unfold aliasEventAllowed.
  set (create := fst (newCreateContentFromAuthEvents authEvents)).
  destruct (domainFromID (Sender event)) as [e|senderDomain].
  { split; [discriminate | intros (d & Hd & _); discriminate]. }
  rewrite if_err. unfold string_eqb.
  rewrite negb_false_iff, bool_decide_eq_true.
  destruct (domainAllowed create senderDomain) as [e|] eqn:Hallowed.
  - split; [intros [_ H]; discriminate |].
    intros (d & [= <-] & _ & Hd & _). congruence.
  - rewrite if_err, negb_false_iff.
    pose proof (StateKeyEquals_spec event senderDomain) as Hk.
    split.
    + intros (Hroom & Hkey & _). exists senderDomain.
      repeat split; auto. by apply Hk.
    + intros (d & [= <-] & Hroom & _ & Hkey). repeat split; auto.
      by apply Hk.
Qed.

(** X2: the common checks pass exactly when the room id is the create
    content's, the sender is permitted by the create content and joined,
    the sender's level reaches the level of the event, and the state key,
    if it starts with an at sign, is the sender. *)
Theorem commonChecks_ok_iff (e : eventAllower) (event : Event) :
  commonChecks e event = ok <->
  RoomID event = roomID (ea_create e)
  /\ userIDAllowed (ea_create e) (Sender event) = None
  /\ Membership (ea_member e) = join
  /\ (eventLevel (ea_powerLevels e) (Type_ event)
        (bool_decide (StateKey event <> None))
      <= userLevel (ea_powerLevels e) (Sender event))%Z
  /\ (forall key, StateKey event = Some key ->
        firstByte key = Some "@"%char -> key = Sender event).
Proof.
  unfold commonChecks. rewrite if_err. unfold string_eqb at 1.
  rewrite negb_false_iff, bool_decide_eq_true.
  destruct (userIDAllowed (ea_create e) (Sender event)) as [e'|].
  { split; [intros [_ H]; discriminate | intros (_ & H & _); discriminate]. }
  rewrite if_err. unfold string_eqb at 1.
  rewrite negb_false_iff, bool_decide_eq_true, if_err, Z.ltb_ge.
  assert (Hlast :
    match StateKey event with
    | Some key =>
      if (Z.of_nat (String.length key) >? 0)%Z
         && bool_decide (firstByte key = Some "@"%char)
         && negb (string_eqb key (Sender event))
      then err (errorf "sender %q is not allowed to modify the state belonging to %q"
                  [AString (Sender event); AString key])
      else ok
    | None => ok
    end = ok
    <-> forall key, StateKey event = Some key ->
          firstByte key = Some "@"%char -> key = Sender event).
  { destruct (StateKey event) as [key|]; [| split; [intros _ ? [=] | reflexivity]].
    rewrite if_err. unfold string_eqb. split.
    - intros [Hb _] key' [= <-] Hat.
      rewrite bool_decide_eq_true_2 in Hb by done.
      destruct key as [|c key]; [discriminate |]. simpl in Hb.
      apply negb_false_iff, bool_decide_eq_true in Hb. exact Hb.
    - intros Hall. split; [| reflexivity].
      destruct (decide (firstByte key = Some "@"%char)) as [Hat | Hat].
      + rewrite (bool_decide_eq_true_2 (key = Sender event)) by auto.
        simpl. apply andb_false_r.
      + rewrite (bool_decide_eq_false_2 _ Hat). by rewrite andb_false_r. }
  rewrite Hlast. tauto.
Qed.

Lemma membershipAllowedOther_cases (m : membershipAllower) :
  membershipAllowedOther m = ok <->
  Membership (senderMember m) = join
  /\ otherChange (powerLevels m)
       (userLevel (powerLevels m) (senderID m))
       (userLevel (powerLevels m) (targetID m))
       (Membership (oldMember m)) (Membership (newMember m)).
Proof.
  unfold membershipAllowedOther, otherChange.
  destruct (membershipFailed_NotAllowed m) as (message & args & ->).
  rewrite if_err, !if_ok. unfold string_eqb.
  rewrite !andb_true_iff, !negb_false_iff, !negb_true_iff,
    !bool_decide_eq_true, bool_decide_eq_false, !Z.geb_le, !Z.gtb_lt.
  split.
  - intros (Hj & H). split; [exact Hj |].
    destruct H as [H | [H | [H | [H | [H | H]]]]]; try discriminate; tauto.
  - intros (Hj & H). split; [exact Hj |]. tauto.
Qed.

(** X3: a user changes the membership of another user only when the sender
    is joined and the change is a ban by a sender at the ban level and
    above the target, the lifting of a ban by a sender at the ban level, a
    kick of a user who is not banned by a sender at the kick level and
    above the target, or an invite of a user who left or is invited by a
    sender at the invite level; every other change is a NotAllowed. *)
Theorem membershipAllowedOther_ok_iff (m : membershipAllower) :
  (membershipAllowedOther m = ok <->
   Membership (senderMember m) = join
   /\ otherChange (powerLevels m)
        (userLevel (powerLevels m) (senderID m))
        (userLevel (powerLevels m) (targetID m))
        (Membership (oldMember m)) (Membership (newMember m)))
  /\ (membershipAllowedOther m <> ok ->
      isNotAllowedOutcome (membershipAllowedOther m)).
Proof.
  split; [apply membershipAllowedOther_cases |].
  unfold membershipAllowedOther.
  destruct (negb _); [intros _; unfold isNotAllowedOutcome, errorf; eauto |].
  repeat match goal with
         | |- context [if ?b then ok else _] => destruct b
         end; try congruence.
  intros _. apply membershipFailed_NotAllowed.
Qed.

Lemma membershipAllowed_other (m : membershipAllower) (event : Event) :
  targetID m <> senderID m ->
  membershipAllowed m event = ok ->
  membershipAllowedOther m = ok.
Proof.
  intros Hne. unfold membershipAllowed. rewrite if_err. intros [_ H].
  destruct (userIDAllowed (create m) (senderID m)); [discriminate |].
  destruct (userIDAllowed (create m) (targetID m)); [discriminate |].
  assert (Hself : string_eqb (senderID m) (targetID m) = false)
    by (apply bool_decide_eq_false_2; congruence).
  assert (Hself' : string_eqb (targetID m) (senderID m) = false)
    by (apply bool_decide_eq_false_2; congruence).
  rewrite Hself, Hself', !andb_false_r in H. simpl in H.
  destruct (_ && _) in H; [discriminate | exact H].
Qed.

(** X4: nobody sets the membership of another user to anything but ban,
    leave or invite; in particular nobody joins a room on behalf of another
    user: an m.room.member event whose state key is not its sender and
    whose new membership is none of the three is never allowed, whatever
    the auth events are. *)
Theorem member_change_of_other_user (event : Event) (authEvents : AuthEvents)
    (content : memberContent) (e : option error) :
  Type_ event = "m.room.member" ->
  newMemberContentFromEvent event = (content, e) ->
  StateKey event <> Some (Sender event) ->
  Membership content <> ban ->
  Membership content <> leave ->
  Membership content <> invite ->
  Allowed event authEvents <> ok.
Proof.
  intros Hty Hcontent Hkey Hb Hl Hi.
  unfold Allowed. rewrite Hty. simpl. unfold memberEventAllowed.
  destruct (newMembershipAllower authEvents event) as [e'|m] eqn:Hm;
    [discriminate |].
  intros Hok.
  assert (Hfields : targetID m <> senderID m /\ newMember m = content).
  { unfold newMembershipAllower in Hm. rewrite Hcontent in Hm.
    destruct (StateKey event) as [stateKey|]; [| discriminate].
    destruct (newCreateContentFromAuthEvents authEvents) as [c [?|]];
      [discriminate |].
    destruct e; [discriminate |].
    destruct (newMemberContentFromAuthEvents authEvents stateKey) as [o [?|]];
      [discriminate |].
    destruct (newMemberContentFromAuthEvents authEvents (Sender event))
      as [sm [?|]]; [discriminate |].
    destruct (newPowerLevelContentFromAuthEvents authEvents (Creator c))
      as [pl [?|]]; [discriminate |].
    destruct (string_eqb (Membership content) "join").
    - destruct (newJoinRuleContentFromAuthEvents authEvents) as [jr [?|]];
        [discriminate |].
      injection Hm as <-. simpl. split; [congruence | reflexivity].
    - injection Hm as <-. simpl. split; [congruence | reflexivity]. }
  destruct Hfields as [Hne Hnew].
  apply (membershipAllowed_other m event Hne) in Hok.
  apply membershipAllowedOther_cases in Hok as (_ & Hchange).
  rewrite Hnew in Hchange. unfold otherChange in Hchange. tauto.
Qed.

(** X5: lifting a ban does not compare the sender with the target: a joined
    sender may set a banned user to leave exactly when the sender's level
    reaches the ban level, whatever the level of the target is. *)
Theorem unban_ignores_target_level (m : membershipAllower) :
  Membership (senderMember m) = join ->
  Membership (oldMember m) = ban ->
  Membership (newMember m) = leave ->
  (membershipAllowedOther m = ok <->
   (banLevel (powerLevels m) <= userLevel (powerLevels m) (senderID m))%Z).
Proof.
  intros Hj Ho Hn. rewrite membershipAllowedOther_cases.
  unfold otherChange. rewrite Ho, Hn. unfold ban, leave, invite.
  split.
  - intros (_ & [H | [H | [H | H]]]); try (destruct H as (H & _); discriminate).
    + tauto.
    + destruct H as (_ & H & _). congruence.
  - intros H. split; [exact Hj |]. right; left. auto.
Qed.

(** X6: for every event type but m.room.create and m.room.aliases, an error
    of the loader of the create content is what authorization returns; a
    member event needs a state key for that. *)
Theorem create_content_error_returned (event : Event) (authEvents : AuthEvents)
    (c : createContent) (e : error) :
  newCreateContentFromAuthEvents authEvents = (c, Some e) ->
  Type_ event <> "m.room.create" ->
  Type_ event <> "m.room.aliases" ->
  (Type_ event = "m.room.member" -> StateKey event <> None) ->
  Allowed event authEvents = err e.
Proof.
  intros Hc H1 H2 Hkey. unfold Allowed, string_eqb.
  rewrite (bool_decide_eq_false_2 _ H1), (bool_decide_eq_false_2 _ H2).
  assert (Ha : newEventAllower authEvents (Sender event) = inl e)
    by (unfold newEventAllower; rewrite Hc; reflexivity).
  case_bool_decide as Hm.
  - unfold memberEventAllowed, newMembershipAllower.
    destruct (StateKey event); [| by destruct (Hkey Hm)].
    rewrite Hc. reflexivity.
  - unfold powerLevelsEventAllowed, redactEventAllowed, defaultEventAllowed.
    rewrite Ha. repeat case_bool_decide; reflexivity.
Qed.

Lemma checkValidUserIDs_invalid (userIDs : list string) (rest : outcome) :
  (exists userID, userID ∈ userIDs /\ isValidUserID userID = false) ->
  exists userID, userID ∈ userIDs /\ isValidUserID userID = false
                 /\ checkValidUserIDs userIDs rest
                    = err (errorf "Not a valid user ID: %q" [AString userID]).
Proof.
  induction userIDs as [|u userIDs IH]; intros (userID & Hin & Hv).
  - by apply elem_of_nil in Hin.
  - simpl. destruct (isValidUserID u) eqn:Hu; simpl.
    + apply elem_of_cons in Hin as [-> | Hin]; [congruence |].
      destruct IH as (u' & Hin' & Hv' & Hres); [eauto |].
      exists u'. split; [by apply elem_of_cons; right | auto].
    + exists u. split; [by apply elem_of_cons; left | auto].
Qed.

(** X7: the first m.room.power_levels event of a room, one that passes the
    common checks, names valid user ids and has no prior power_levels event
    among the auth events, is allowed whatever levels it sets. *)
Theorem first_power_levels_allowed (event : Event) (authEvents : AuthEvents)
    (allower : eventAllower) (newPowerLevels : powerLevelContent) :
  Type_ event = "m.room.power_levels" ->
  newEventAllower authEvents (Sender event) = inr allower ->
  commonChecks allower event = ok ->
  newPowerLevelContentFromEvent event = (newPowerLevels, None) ->
  (forall userID, is_Some (userLevels newPowerLevels !! userID) ->
     isValidUserID userID = true) ->
  PowerLevels authEvents = (None, None) ->
  Allowed event authEvents = ok.
Proof.
  intros Hty Ha Hc Hnew Hvalid Hold.
  unfold Allowed. rewrite Hty. simpl.
  unfold powerLevelsEventAllowed. rewrite Ha, Hc, Hnew, Hold.
  apply checkValidUserIDs_valid, Forall_forall.
  intros userID Hin. apply Hvalid, elem_of_rangeKeys, Hin.
Qed.

(** X8: an m.room.power_levels event that passes the common checks and
    lists a user id that is not valid is denied with the NotAllowed naming
    such an id, with or without a prior power_levels event. *)
Theorem invalid_user_id_denied (event : Event) (authEvents : AuthEvents)
    (allower : eventAllower) (newPowerLevels : powerLevelContent)
    (invalid : string) :
  Type_ event = "m.room.power_levels" ->
  newEventAllower authEvents (Sender event) = inr allower ->
  commonChecks allower event = ok ->
  newPowerLevelContentFromEvent event = (newPowerLevels, None) ->
  is_Some (userLevels newPowerLevels !! invalid) ->
  isValidUserID invalid = false ->
  exists userID,
    is_Some (userLevels newPowerLevels !! userID)
    /\ isValidUserID userID = false
    /\ Allowed event authEvents
       = err (NotAllowed "Not a valid user ID: %q" [AString userID]).
Proof.
  intros Hty Ha Hc Hnew Hkey Hinvalid.
  unfold Allowed. rewrite Hty. simpl.
  unfold powerLevelsEventAllowed. rewrite Ha, Hc, Hnew.
  match goal with
  | |- context [checkValidUserIDs ?ids ?rest] =>
    destruct (checkValidUserIDs_invalid ids rest) as (u & Hin & Hv & Hres)
  end.
  { exists invalid. split; [by apply elem_of_rangeKeys | exact Hinvalid]. }
  exists u. split; [by apply elem_of_rangeKeys |]. split; [exact Hv | exact Hres].
Qed.

(** X9: levels are always allowed to stay the same: a power level content
    compared with itself passes the event level and the user level checks
    for every sender and sender level. *)
Theorem unchanged_levels_allowed (senderLevel : Z) (senderID : string)
    (levels : powerLevelContent) :
  checkEventLevels senderLevel levels levels = ok
  /\ checkUserLevels senderLevel senderID levels levels = ok.
Proof.
  split.
  - apply checkEventLevels_ok_iff. split.
    + repeat constructor; left; reflexivity.
    + intros eventType _. left. reflexivity.
  - apply checkUserLevels_ok_iff. split.
    + left. reflexivity.
    + intros userID _. left. reflexivity.
Qed.

(** X10: an allowed change leaves no changed level above the sender's: when
    both checks pass, every named level, every listed event level and every
    listed user level of the new content either equals the old one or is at
    most the sender's level. *)
Theorem changed_levels_bounded (senderLevel : Z) (senderID : string)
    (oldPowerLevels newPowerLevels : powerLevelContent) :
  checkEventLevels senderLevel oldPowerLevels newPowerLevels = ok ->
  checkUserLevels senderLevel senderID oldPowerLevels newPowerLevels = ok ->
  let bounded (oldLevel newLevel : Z) :=
    oldLevel = newLevel \/ (newLevel <= senderLevel)%Z in
  bounded (banLevel oldPowerLevels) (banLevel newPowerLevels)
  /\ bounded (inviteLevel oldPowerLevels) (inviteLevel newPowerLevels)
  /\ bounded (kickLevel oldPowerLevels) (kickLevel newPowerLevels)
  /\ bounded (redactLevel oldPowerLevels) (redactLevel newPowerLevels)
  /\ bounded (stateDefaultLevel oldPowerLevels) (stateDefaultLevel newPowerLevels)
  /\ bounded (eventDefaultLevel oldPowerLevels) (eventDefaultLevel newPowerLevels)
  /\ bounded (userDefaultLevel oldPowerLevels) (userDefaultLevel newPowerLevels)
  /\ (forall eventType,
        is_Some (eventLevels newPowerLevels !! eventType)
        \/ is_Some (eventLevels oldPowerLevels !! eventType) ->
        bounded (eventLevel oldPowerLevels eventType false)
          (eventLevel newPowerLevels eventType false))
  /\ (forall userID,
        is_Some (userLevels newPowerLevels !! userID)
        \/ is_Some (userLevels oldPowerLevels !! userID) ->
        bounded (userLevel oldPowerLevels userID)
          (userLevel newPowerLevels userID)).
Proof.
  intros He Hu bounded.
  apply checkEventLevels_ok_iff in He as (Hnamed & Hev).
  apply checkUserLevels_ok_iff in Hu as (Hdefault & Husers).
  rewrite !Forall_cons in Hnamed.
  destruct Hnamed as (Hb & Hi & Hk & Hr & Hsd & Hed & _).
  unfold eventPairAllowed in *. unfold userPairAllowed in *. simpl in *.
  unfold bounded.
  repeat split; try (intuition lia).
  - intros eventType Hin. specialize (Hev eventType Hin). simpl in Hev.
    intuition lia.
  - intros userID Hin. specialize (Husers userID Hin). simpl in Husers.
    intuition lia.
Qed.

End AuthMore.

(** ** The further rules on the sample room *)
Section AuthMoreExamples.
Import EventAuth Terms MoreTerms Sample MoreSample.

Lemma member_change_of_other_user_witness :
  let ops := allowerOps "@b:x" "@a:x" (member "leave") (member "join") "public" in
  let event := memberEvent "!r:x" "@a:x" "@b:x" ["$e:x"] in
  (Type_ event = "m.room.member"
   /\ newMemberContentFromEvent (ContentOps := ops) event = (member "join", None)
   /\ StateKey event <> Some (Sender event))
  /\ Allowed (ops := ops) event noAuthEvents <> ok.
Proof.
  intros ops event.
  split; [repeat split; solve [reflexivity | discriminate] |].
  apply (member_change_of_other_user (ops := ops) event noAuthEvents
           (member "join") None); solve [reflexivity | discriminate].
Defined.

Lemma unban_ignores_target_level_witness :
  let m := allower "@b:x" "@a:x" (member "ban") (member "leave") "public" in
  (Membership (senderMember m) = join
   /\ Membership (oldMember m) = ban
   /\ Membership (newMember m) = leave)
  /\ (membershipAllowedOther (ops := ops) m = ok <->
      (banLevel (powerLevels m)
       <= userLevel (ContentOps := ops) (powerLevels m) (senderID m))%Z).
Proof.
  intros m. split; [repeat split; reflexivity |].
  apply (unban_ignores_target_level (ops := ops) m); reflexivity.
Defined.

Lemma create_content_error_returned_witness :
  let event := messageEvent "@a:x" in
  (newCreateContentFromAuthEvents (ContentOps := failingCreateOps) noAuthEvents
   = (room, Some (errorf "missing create event" []))
   /\ Type_ event <> "m.room.create"
   /\ Type_ event <> "m.room.aliases")
  /\ Allowed (ops := failingCreateOps) event noAuthEvents
     = err (errorf "missing create event" []).
Proof.
  intros event.
  split; [repeat split; solve [reflexivity | discriminate] |].
  apply (create_content_error_returned (ops := failingCreateOps) event
           noAuthEvents room); solve [reflexivity | discriminate].
Defined.

Lemma first_power_levels_allowed_witness :
  let newLevels := levels {[ "@a:x" := 100%Z ]} 0 in
  let ops := levelsOps (levels ∅ 50) newLevels in
  let allower := joinedAllower (levels ∅ 50) in
  (Type_ powerLevelsEvent = "m.room.power_levels"
   /\ newEventAllower (ops := ops) noAuthEvents (Sender powerLevelsEvent)
      = inr allower
   /\ commonChecks (ops := ops) allower powerLevelsEvent = ok
   /\ newPowerLevelContentFromEvent (ContentOps := ops) powerLevelsEvent
      = (newLevels, None)
   /\ PowerLevels noAuthEvents = (None, None))
  /\ Allowed (ops := ops) powerLevelsEvent noAuthEvents = ok.
Proof.
  intros newLevels ops allower.
  assert (Hc : commonChecks (ops := ops) allower powerLevelsEvent = ok)
    by (vm_compute; reflexivity).
  split; [repeat split; solve [reflexivity | assumption] |].
  apply (first_power_levels_allowed (ops := ops) powerLevelsEvent noAuthEvents
           allower newLevels); try solve [reflexivity | assumption].
  intros userID [v Hv]. simpl in Hv.
  apply lookup_singleton_Some in Hv as [<- _]. reflexivity.
Defined.

Lemma invalid_user_id_denied_witness :
  let newLevels := levels {[ "bogus" := 1%Z ]} 0 in
  let ops := levelsOps (levels ∅ 50) newLevels in
  let allower := joinedAllower (levels ∅ 50) in
  (Type_ powerLevelsEvent = "m.room.power_levels"
   /\ newEventAllower (ops := ops) noAuthEvents (Sender powerLevelsEvent)
      = inr allower
   /\ commonChecks (ops := ops) allower powerLevelsEvent = ok
   /\ newPowerLevelContentFromEvent (ContentOps := ops) powerLevelsEvent
      = (newLevels, None)
   /\ is_Some (userLevels newLevels !! "bogus")
   /\ isValidUserID (ContentOps := ops) "bogus" = false)
  /\ exists userID,
       is_Some (userLevels newLevels !! userID)
       /\ isValidUserID (ContentOps := ops) userID = false
       /\ Allowed (ops := ops) powerLevelsEvent noAuthEvents
          = err (NotAllowed "Not a valid user ID: %q" [AString userID]).
Proof.
  intros newLevels ops allower.
  assert (Hc : commonChecks (ops := ops) allower powerLevelsEvent = ok)
    by (vm_compute; reflexivity).
  assert (Hkey : is_Some (userLevels newLevels !! "bogus")).
  { simpl. rewrite lookup_singleton_eq. eauto. }
  split; [repeat split; solve [reflexivity | assumption] |].
  apply (invalid_user_id_denied (ops := ops) powerLevelsEvent noAuthEvents
           allower newLevels "bogus"); solve [reflexivity | assumption].
Defined.

Lemma changed_levels_bounded_witness :
  let oldLevels := levels {[ "@a:x" := 100%Z ]} 0 in
  let newLevels := levels {[ "@a:x" := 50%Z ]} 0 in
  (checkEventLevels (ops := ops) 100 oldLevels newLevels = ok
   /\ checkUserLevels (ops := ops) 100 "@a:x" oldLevels newLevels = ok)
  /\ (userLevel (ContentOps := ops) oldLevels "@a:x"
      = userLevel (ContentOps := ops) newLevels "@a:x"
      \/ (userLevel (ContentOps := ops) newLevels "@a:x" <= 100)%Z).
Proof.
  intros oldLevels newLevels.
  assert (He : checkEventLevels (ops := ops) 100 oldLevels newLevels = ok)
    by (vm_compute; reflexivity).
  assert (Hu : checkUserLevels (ops := ops) 100 "@a:x" oldLevels newLevels = ok)
    by (vm_compute; reflexivity).
  split; [split; assumption |].
  destruct (changed_levels_bounded (ops := ops) 100 "@a:x" oldLevels newLevels
              He Hu) as (_ & _ & _ & _ & _ & _ & _ & _ & Husers).
  apply Husers. left. simpl. rewrite lookup_singleton_eq. eauto.
Defined.

End AuthMoreExamples.

(** * Properties of the state needed for auth *)
Section StateNeededFacts.
Import Terms MoreTerms StateNeeded.

(** ** The order of [sort.StringSlice] *)

Lemma string_compare_refl (s : string) : String.compare s s = Eq.
Proof.
  induction s as [|c s IH]; simpl; [reflexivity |].
  unfold Ascii.compare. rewrite N.compare_refl. exact IH.
Qed.

Lemma string_ltb_leb (a b : string) :
  String.ltb a b = true <-> String.leb a b = true /\ a <> b.
Proof.
  unfold String.ltb, String.leb.
  destruct (String.compare a b) eqn:Hc; split; try discriminate;
    try (intros [H _]; discriminate).
  - intros [_ Hne]. apply String.compare_eq_iff in Hc. contradiction.
  - intros _. split; [reflexivity |]. intros ->.
    rewrite string_compare_refl in Hc. discriminate.
  - intros _. reflexivity.
Qed.

Lemma keepAscents_from_sorted (prev : string) (l : list string) :
  StronglySorted string_le (prev :: l) ->
  keepAscents_from prev l = compress_from prev l.
Proof.
  revert prev. induction l as [|x l IH]; intros prev Hs; simpl; [reflexivity |].
  apply StronglySorted_inv in Hs as [Hl Hprev].
  apply Forall_cons in Hprev as [Hx Hprev].
  unfold string_eqb. case_bool_decide as Heq.
  - subst x. assert (String.ltb prev prev = false) as ->.
    { destruct (String.ltb prev prev) eqn:Hlt; [| reflexivity].
      apply string_ltb_leb in Hlt as [_ Hne]. contradiction. }
    apply IH. exact Hl.
  - assert (String.ltb prev x = true) as ->.
    { apply string_ltb_leb. split; [exact Hx | congruence]. }
    f_equal. apply IH. exact Hl.
Qed.

(** ** [unique] over [sort.Interface] *)

Lemma Swap_take (data : list string) (k j : nat) (p y : string) :
  data !! k = Some p -> data !! j = Some y -> (j <= k)%nat ->
  Swap data k j = Some (<[k:=y]> (<[j:=p]> data))
  /\ take (S j) (<[k:=y]> (<[j:=p]> data)) = take j data ++ [p].
Proof.
  intros Hk Hj Hle. unfold Swap. rewrite Hk, Hj. split; [reflexivity |].
  pose proof (lookup_lt_Some _ _ _ Hj) as Hlt.
  destruct (decide (j = k)) as [-> | Hne].
  - assert (y = p) as -> by congruence.
    rewrite list_insert_insert_eq.
    erewrite take_S_r; [| apply list_lookup_insert_eq; lia].
    rewrite take_insert_ge by lia. reflexivity.
  - rewrite take_insert_ge by lia.
    erewrite take_S_r; [| apply list_lookup_insert_eq; lia].
    rewrite take_insert_ge by lia. reflexivity.
Qed.

Lemma unique_swap_loop_spec (n i : nat) (data : list string) (j : nat) (prev : string) :
  (1 <= i)%nat -> (j < i)%nat -> (i + n)%nat = length data ->
  data !! (i - 1)%nat = Some prev ->
  exists data' j' data'',
    unique_loop n i data j = Some (data', j')
    /\ Swap data' (length data - 1) j' = Some data''
    /\ length data'' = length data
    /\ take (S j') data'' = take j data ++ keepAscents_from prev (drop i data).
Proof.
  revert i data j prev.
  induction n as [|n IH]; intros i data j prev Hi Hj Hlen Hprev; simpl.
  - assert (is_Some (data !! j)) as [y Hy] by (apply lookup_lt_is_Some; lia).
    replace (length data - 1)%nat with (i - 1)%nat by lia.
    destruct (Swap_take data (i - 1) j prev y Hprev Hy) as [Hswap Htake];
      [lia |].
    do 3 eexists. split; [reflexivity |]. split; [exact Hswap |].
    split; [by rewrite !length_insert |].
    rewrite Htake, drop_ge by lia. reflexivity.
  - assert (is_Some (data !! i)) as [x Hx] by (apply lookup_lt_is_Some; lia).
    unfold Less. rewrite Hprev, Hx. rewrite (drop_S _ _ _ Hx). simpl.
    destruct (String.ltb prev x).
    + assert (is_Some (data !! j)) as [y Hy] by (apply lookup_lt_is_Some; lia).
      destruct (Swap_take data (i - 1) j prev y Hprev Hy) as [Hswap Htake];
        [lia |].
      rewrite Hswap.
      set (data1 := <[(i - 1)%nat:=y]> (<[j:=prev]> data)) in *.
      assert (Hlen1 : length data1 = length data)
        by (unfold data1; by rewrite !length_insert).
      destruct (IH (S i) data1 (S j) x) as (data' & j' & data'' & Hloop & Hs & Hl & Ht);
        [lia | lia | lia | |].
      { unfold data1. replace (S i - 1)%nat with i by lia.
        rewrite !list_lookup_insert_ne by lia. exact Hx. }
      exists data', j', data''. split; [exact Hloop |].
      rewrite Hlen1 in Hs, Hl. split; [exact Hs |]. split; [exact Hl |].
      rewrite Ht, Htake. unfold data1.
      rewrite !drop_insert_lt by lia. rewrite <- app_assoc. reflexivity.
    + destruct (IH (S i) data j x) as (data' & j' & data'' & Hloop & Hs & Hl & Ht);
        [lia | lia | lia | |].
      { replace (S i - 1)%nat with i by lia. exact Hx. }
      exists data', j', data''. auto.
Qed.

(** [unique] never indexes out of range; it keeps the length of the slice
    and leaves in front the elements smaller than their successor, and the
    last. *)
Lemma unique_keepAscents (data : list string) :
  exists data' n,
    unique data = Some (data', n)
    /\ length data' = length data
    /\ take n data' = keepAscents data.
Proof.
  unfold unique. destruct data as [|a0 data].
  - exists [], 0%nat. auto.
  - rewrite bool_decide_eq_false_2 by (simpl; lia).
    destruct (unique_swap_loop_spec (length (a0 :: data) - 1) 1 (a0 :: data) 0 a0)
      as (data' & j' & data'' & Hloop & Hs & Hl & Ht);
      [lia | lia | simpl; lia | reflexivity |].
    rewrite Hloop, Hs. exists data'', (j' + 1)%nat.
    split; [reflexivity |]. split; [exact Hl |].
    replace (j' + 1)%nat with (S j') by lia. exact Ht.
Qed.

Lemma unique_compress_sorted (data : list string) :
  StronglySorted string_le data ->
  exists data' n,
    unique data = Some (data', n)
    /\ length data' = length data
    /\ take n data' = compress data.
Proof.
  intros Hs.
  destruct (unique_keepAscents data) as (data' & n & Hu & Hl & Ht).
  exists data', n. split; [exact Hu |]. split; [exact Hl |].
  rewrite Ht. destruct data as [|a0 data]; [reflexivity |].
  simpl. by apply keepAscents_from_sorted.
Qed.

(** X11: [unique] over a string slice never indexes out of range and keeps
    the length of the slice; on a sorted slice the prefix it announces
    holds each element of the slice once, in increasing order, and is the
    slice that the [unique] of the room input handler returns. *)
Theorem unique_sorted (data : list string) :
  exists data' n,
    unique data = Some (data', n)
    /\ length data' = length data
    /\ (StronglySorted string_le data ->
        take n data' = Input.unique data
        /\ NoDup (take n data')
        /\ StronglySorted string_le (take n data')
        /\ forall x, x ∈ take n data' <-> x ∈ data).
Proof.
  destruct (unique_keepAscents data) as (data' & n & Hu & Hl & Ht).
  exists data', n. split; [exact Hu |]. split; [exact Hl |].
  intros Hs.
  destruct (unique_compress_sorted data Hs) as (data2 & n2 & Hu2 & _ & Hc).
  rewrite Hu in Hu2. injection Hu2 as <- <-.
  rewrite Hc. destruct (compress_sorted data Hs) as [Hs' Hn].
  split; [symmetry; apply unique_compress |].
  split; [exact Hn |]. split; [exact Hs' |].
  intros x. apply elem_of_compress.
Qed.

(** Sorting and cutting at [unique] gives the elements of the list, each
    once, in increasing order. *)
Lemma deduplicate_spec (l : list string) :
  exists r,
    deduplicate l = Some r
    /\ NoDup r
    /\ StronglySorted string_le r
    /\ forall x, x ∈ r <-> x ∈ l.
Proof.
  unfold deduplicate.
  destruct (unique_compress_sorted _ (sort_Strings_sorted l))
    as (data' & n & -> & _ & Hc).
  destruct (compress_sorted _ (sort_Strings_sorted l)) as [Hs Hn].
  exists (take n data'). rewrite Hc. split; [reflexivity |].
  split; [exact Hn |]. split; [exact Hs |].
  intros x. rewrite elem_of_compress. apply elem_of_sort_Strings.
Qed.

Lemma sorted_set_unique (l1 l2 : list string) :
  NoDup l1 -> NoDup l2 ->
  StronglySorted string_le l1 -> StronglySorted string_le l2 ->
  (forall x, x ∈ l1 <-> x ∈ l2) -> l1 = l2.
Proof.
  intros Hn1 Hn2 Hs1 Hs2 Hset.
  apply (StronglySorted_unique_strong string_le); [| exact Hs1 | exact Hs2 |].
  - intros x y _ _. apply String.leb_antisym.
  - by apply NoDup_Permutation.
Qed.

(** ** StateNeededForAuth *)

Lemma fold_left_or {A S : Type} (f : S -> A -> S) (P : S -> Prop) (Q : A -> Prop) :
  (forall s a, P (f s a) <-> P s \/ Q a) ->
  forall l s, P (fold_left f l s) <-> P s \/ exists a, a ∈ l /\ Q a.
Proof.
  intros Hstep l. induction l as [|a l IH]; intros s; simpl.
  - split; [auto |]. intros [H | (a & Hin & _)]; [exact H |].
    by apply elem_of_nil in Hin.
  - rewrite IH, Hstep. split.
    + intros [[H | H] | (a' & Hin & H)]; [auto | right | right].
      * exists a. split; [by apply elem_of_cons; left | exact H].
      * exists a'. split; [by apply elem_of_cons; right | exact H].
    + intros [H | (a' & Hin & H)]; [auto |].
      apply elem_of_cons in Hin as [-> | Hin]; [auto | eauto].
Qed.

Section Needed.
Context {ops : EventAuth.ContentOps}.
Variable thirdPartyInviteToken : EventAuth.memberContent -> option (error + string).

Lemma needsOf_Create (acc : needs) (event : Event) :
  result_Create (needsOf thirdPartyInviteToken acc event) = true <->
  result_Create acc = true \/ needsCreate event.
Proof.
  unfold needsOf, needsCreate, decodes, string_eqb.
  case_bool_decide as Hc.
  { split; [auto | intros [? | [? _]]; [auto | contradiction]]. }
  case_bool_decide as Ha.
  { simpl. split; [| auto]. intros _. right. split; [done | intros; congruence]. }
  case_bool_decide as Hm.
  - destruct (EventAuth.newMemberContentFromEvent event) as [content [e|]]; simpl.
    + split; [auto |]. intros [? | [_ Hd]]; [auto |].
      destruct (Hd Hm) as (c & Hd'). congruence.
    + split; [| auto]. intros _. right. split; [done | eauto].
  - simpl. split; [| auto]. intros _. right. split; [done | intros; contradiction].
Qed.

Lemma needsOf_PowerLevels (acc : needs) (event : Event) :
  result_PowerLevels (needsOf thirdPartyInviteToken acc event) = true <->
  result_PowerLevels acc = true \/ needsPowerLevels event.
Proof.
  unfold needsOf, needsPowerLevels, decodes, string_eqb.
  case_bool_decide as Hc.
  { split; [auto | intros [? | [? _]]; [auto | contradiction]]. }
  case_bool_decide as Ha.
  { simpl. split; [auto | intros [? | (_ & ? & _)]; [auto | contradiction]]. }
  case_bool_decide as Hm.
  - destruct (EventAuth.newMemberContentFromEvent event) as [content [e|]]; simpl.
    + split; [auto |]. intros [? | (_ & _ & Hd)]; [auto |].
      destruct (Hd Hm) as (c & Hd'). congruence.
    + split; [| auto]. intros _. right. repeat split; [done | done | eauto].
  - simpl. split; [| auto]. intros _. right.
    repeat split; [done | done | intros; contradiction].
Qed.

Lemma needsOf_JoinRules (acc : needs) (event : Event) :
  result_JoinRules (needsOf thirdPartyInviteToken acc event) = true <->
  result_JoinRules acc = true \/ needsJoinRules event.
Proof.
  unfold needsOf, needsJoinRules, decodes, string_eqb.
  case_bool_decide as Hc.
  { split; [auto | intros [? | [? _]]; [auto | congruence]]. }
  case_bool_decide as Ha.
  { simpl. split; [auto | intros [? | [? _]]; [auto | congruence]]. }
  case_bool_decide as Hm.
  - destruct (EventAuth.newMemberContentFromEvent event) as [content [e|]]; simpl.
    + split; [auto |]. intros [? | (_ & c & Hd & _)]; [auto | congruence].
    + case_bool_decide as Hj.
      * split; [| auto]. intros _. right. split; [done | eauto].
      * split; [auto |]. intros [? | (_ & c & Hd & Hj')]; [auto |].
        congruence.
  - simpl. split; [auto | intros [? | [? _]]; [auto | contradiction]].
Qed.

Lemma needsOf_members (userID : string) (acc : needs) (event : Event) :
  userID ∈ members (needsOf thirdPartyInviteToken acc event) <->
  userID ∈ members acc \/ needsMember event userID.
Proof.
  unfold needsOf, needsMember, decodes, string_eqb.
  case_bool_decide as Hc.
  { split; [auto | intros [? | [? _]]; [auto | contradiction]]. }
  case_bool_decide as Ha.
  { simpl. split; [auto | intros [? | (_ & ? & _)]; [auto | contradiction]]. }
  case_bool_decide as Hm.
  - destruct (EventAuth.newMemberContentFromEvent event) as [content [e|]]; simpl.
    + split; [auto |]. intros [? | (_ & _ & Hd & _)]; [auto |].
      destruct (Hd Hm) as ((c & Hd') & _). congruence.
    + destruct (StateKey event) as [stateKey|].
      * rewrite elem_of_app, !elem_of_cons, elem_of_nil. split.
        -- intros [? | Hin]; [auto |]. right.
           repeat split; [done | done | eauto | | intros; contradiction].
           exists stateKey. split; [reflexivity | tauto].
        -- intros [? | (_ & _ & Hd & _)]; [auto |].
           destruct (Hd Hm) as (_ & k & [= <-] & Hu). tauto.
      * split; [auto |]. intros [? | (_ & _ & Hd & _)]; [auto |].
        destruct (Hd Hm) as (_ & k & Hk & _). discriminate.
  - simpl. rewrite elem_of_app, list_elem_of_singleton. split.
    + intros [? | ->]; [auto |]. right.
      split; [done |]. split; [done |].
      split; [intros; contradiction | intros; reflexivity].
    + intros [? | (_ & _ & _ & Hu)]; [auto |]. right. by apply Hu.
Qed.

Lemma needsOf_thirdpartyinvites (token : string) (acc : needs) (event : Event) :
  token ∈ thirdpartyinvites (needsOf thirdPartyInviteToken acc event) <->
  token ∈ thirdpartyinvites acc \/ needsThirdPartyInvite thirdPartyInviteToken event token.
Proof.
  unfold needsOf, needsThirdPartyInvite, decodes, string_eqb.
  case_bool_decide as Hc.
  { split; [auto | intros [? | [? _]]; [auto | congruence]]. }
  case_bool_decide as Ha.
  { simpl. split; [auto | intros [? | [? _]]; [auto | congruence]]. }
  case_bool_decide as Hm.
  - destruct (EventAuth.newMemberContentFromEvent event) as [content [e|]]; simpl.
    + split; [auto |]. intros [? | (_ & c & Hd & _)]; [auto | congruence].
    + destruct (thirdPartyInviteToken content) as [[e|token']|] eqn:Htoken.
      * split; [auto |]. intros [? | (_ & c & [= <-] & Ht)]; [auto | congruence].
      * rewrite elem_of_app, list_elem_of_singleton. split.
        -- intros [? | ->]; [auto |]. right. split; [done | eauto].
        -- intros [? | (_ & c & [= <-] & Ht)]; [auto |]. right. congruence.
      * split; [auto |]. intros [? | (_ & c & [= <-] & Ht)]; [auto | congruence].
  - simpl. split; [auto | intros [? | [? _]]; [auto | contradiction]].
Qed.

Lemma StateNeededForAuth_neededFor (events : list Event) :
  exists r,
    StateNeededForAuth thirdPartyInviteToken events = Some r
    /\ neededFor thirdPartyInviteToken events r.
Proof.
  unfold StateNeededForAuth.
  set (acc := fold_left (needsOf thirdPartyInviteToken) events noNeeds).
  destruct (deduplicate_spec (members acc)) as (member & -> & Hn1 & Hs1 & He1).
  destruct (deduplicate_spec (thirdpartyinvites acc))
    as (tokens & -> & Hn2 & Hs2 & He2).
  eexists. split; [reflexivity |]. unfold neededFor. simpl.
  assert (Hfalse : forall P : Prop, false = true \/ P <-> P)
    by (intros P; split; [intros [? | ?]; [discriminate | done] | auto]).
  assert (Hnil : forall (x : string) (P : Prop), x ∈ [] \/ P <-> P).
  { intros x P. split; [intros [H | ?]; [by apply elem_of_nil in H | done] | auto]. }
  split; [| split; [| split; [| split]]].
  - unfold acc.
    rewrite (fold_left_or _ (fun s => result_Create s = true) _ needsOf_Create).
    apply Hfalse.
  - unfold acc.
    rewrite (fold_left_or _ (fun s => result_JoinRules s = true) _
               needsOf_JoinRules).
    apply Hfalse.
  - unfold acc.
    rewrite (fold_left_or _ (fun s => result_PowerLevels s = true) _
               needsOf_PowerLevels).
    apply Hfalse.
  - split; [exact Hn1 |]. split; [exact Hs1 |]. intros userID.
    rewrite He1. unfold acc.
    rewrite (fold_left_or _ (fun s => userID ∈ members s) _
               (needsOf_members userID)).
    apply Hnil.
  - split; [exact Hn2 |]. split; [exact Hs2 |]. intros token.
    rewrite He2. unfold acc.
    rewrite (fold_left_or _ (fun s => token ∈ thirdpartyinvites s) _
               (needsOf_thirdpartyinvites token)).
    apply Hnil.
Qed.

Lemma neededFor_unique (events events' : list Event) (r r' : StateNeeded) :
  (forall event, event ∈ events <-> event ∈ events') ->
  neededFor thirdPartyInviteToken events r ->
  neededFor thirdPartyInviteToken events' r' ->
  r = r'.
Proof.
  intros Hset (Hc & Hj & Hp & (Hn1 & Hs1 & He1) & (Hn2 & Hs2 & He2))
    (Hc' & Hj' & Hp' & (Hn1' & Hs1' & He1') & (Hn2' & Hs2' & He2')).
  assert (Hex : forall Q : Event -> Prop,
            (exists event, event ∈ events /\ Q event)
            <-> exists event, event ∈ events' /\ Q event).
  { intros Q. split; intros (event & Hin & HQ); exists event;
      (split; [by apply Hset | exact HQ]). }
  assert (Hbool : forall b b' : bool, (b = true <-> b' = true) -> b = b').
  { intros [|] [|] H; try reflexivity; [symmetry |]; by apply H. }
  destruct r as [c j p m t], r' as [c' j' p' m' t']. simpl in *. f_equal.
  - apply Hbool. rewrite Hc, Hc'. apply Hex.
  - apply Hbool. rewrite Hj, Hj'. apply Hex.
  - apply Hbool. rewrite Hp, Hp'. apply Hex.
  - apply sorted_set_unique; try assumption.
    intros x. rewrite He1, He1'. apply Hex.
  - apply sorted_set_unique; try assumption.
    intros x. rewrite He2, He2'. apply Hex.
Qed.

(** X12: StateNeededForAuth never panics, and its result says what the
    events need: the create flag is set exactly when some event is neither
    a create event nor a member event whose content does not decode, the
    power levels flag when such an event is not an alias event either, the
    join rules flag when some member event decodes to a join, and the member
    list holds, once and in increasing order, the senders of the other
    events and the senders and state keys of the member events that decode
    and have a state key; likewise for the third party invite tokens. *)
Theorem StateNeededForAuth_needs (events : list Event) :
  exists r,
    StateNeededForAuth thirdPartyInviteToken events = Some r
    /\ neededFor thirdPartyInviteToken events r.
Proof. apply StateNeededForAuth_neededFor. Qed.

(** X13: the state needed for a list of events depends only on which events
    are in the list, not on their order or on how often they occur. *)
Theorem StateNeededForAuth_set (events events' : list Event) :
  (forall event, event ∈ events <-> event ∈ events') ->
  StateNeededForAuth thirdPartyInviteToken events
  = StateNeededForAuth thirdPartyInviteToken events'.
Proof.
  intros Hset.
  destruct (StateNeededForAuth_neededFor events) as (r & -> & Hr).
  destruct (StateNeededForAuth_neededFor events') as (r' & -> & Hr').
  f_equal. by apply (neededFor_unique events events').
Qed.

(** X14: the state needed for two lists of events together is the state
    needed for each, taken together: a flag is set when it is set for one
    of them, and a state key is listed when it is listed for one of
    them. *)
Theorem StateNeededForAuth_app (events1 events2 : list Event) :
  exists r1 r2 r,
    StateNeededForAuth thirdPartyInviteToken events1 = Some r1
    /\ StateNeededForAuth thirdPartyInviteToken events2 = Some r2
    /\ StateNeededForAuth thirdPartyInviteToken (events1 ++ events2) = Some r
    /\ Create r = Create r1 || Create r2
    /\ JoinRules r = JoinRules r1 || JoinRules r2
    /\ PowerLevels r = PowerLevels r1 || PowerLevels r2
    /\ (forall userID,
          userID ∈ Member r <-> userID ∈ Member r1 \/ userID ∈ Member r2)
    /\ (forall token,
          token ∈ ThirdPartyInvite r <->
          token ∈ ThirdPartyInvite r1 \/ token ∈ ThirdPartyInvite r2).
Proof.
  destruct (StateNeededForAuth_neededFor events1) as (r1 & H1 & Hr1).
  destruct (StateNeededForAuth_neededFor events2) as (r2 & H2 & Hr2).
  destruct (StateNeededForAuth_neededFor (events1 ++ events2)) as (r & H & Hr).
  exists r1, r2, r. split; [exact H1 |]. split; [exact H2 |]. split; [exact H |].
  destruct Hr1 as (Hc1 & Hj1 & Hp1 & (_ & _ & He1) & (_ & _ & Ht1)).
  destruct Hr2 as (Hc2 & Hj2 & Hp2 & (_ & _ & He2) & (_ & _ & Ht2)).
  destruct Hr as (Hc & Hj & Hp & (_ & _ & He) & (_ & _ & Ht)).
  assert (Hex : forall Q : Event -> Prop,
            (exists event, event ∈ events1 ++ events2 /\ Q event)
            <-> (exists event, event ∈ events1 /\ Q event)
                \/ (exists event, event ∈ events2 /\ Q event)).
  { intros Q. split.
    - intros (event & Hin & HQ). apply elem_of_app in Hin as [Hin | Hin]; eauto.
    - intros [(event & Hin & HQ) | (event & Hin & HQ)]; exists event;
        (split; [apply elem_of_app; auto | exact HQ]). }
  assert (Hbool : forall b b1 b2 : bool,
            (b = true <-> b1 = true \/ b2 = true) -> b = b1 || b2).
  { intros b b1 b2 Hb. apply eq_true_iff_eq. rewrite orb_true_iff. exact Hb. }
  split; [apply Hbool; rewrite Hc, Hc1, Hc2; apply Hex |].
  split; [apply Hbool; rewrite Hj, Hj1, Hj2; apply Hex |].
  split; [apply Hbool; rewrite Hp, Hp1, Hp2; apply Hex |].
  split.
  - intros userID. rewrite He, He1, He2. apply Hex.
  - intros token. rewrite Ht, Ht1, Ht2. apply Hex.
Qed.

End Needed.

End StateNeededFacts.

(** * Further properties of the room input handler *)
Section InputMore.
Import Input Terms MoreTerms.

(** ** [unique] *)

Lemma compress_from_head (lastValue : string) (l : list string) :
  exists t, compress_from lastValue l = lastValue :: t.
Proof.
  revert lastValue. induction l as [|value l IH]; intros lastValue; simpl.
  - eauto.
  - destruct (string_eqb value lastValue); [apply IH | eauto].
Qed.

Lemma compress_from_length (lastValue : string) (l : list string) :
  (length (compress_from lastValue l) <= S (length l))%nat.
Proof.
  revert lastValue. induction l as [|value l IH]; intros lastValue; simpl.
  - lia.
  - destruct (string_eqb value lastValue); simpl.
    + specialize (IH lastValue). lia.
    + specialize (IH value). lia.
Qed.

Lemma compress_from_no_repeat (lastValue : string) (l : list string) :
  Sorted (fun a b : string => a <> b) (compress_from lastValue l).
Proof.
  revert lastValue. induction l as [|value l IH]; intros lastValue; simpl.
  - repeat constructor.
  - unfold string_eqb. case_bool_decide as Heq; [apply IH |].
    constructor; [apply IH |].
    destruct (compress_from_head value l) as (t & ->).
    constructor. congruence.
Qed.

Lemma compress_from_fixed (lastValue : string) (t : list string) :
  Sorted (fun a b : string => a <> b) (lastValue :: t) ->
  compress_from lastValue t = lastValue :: t.
Proof.
  revert lastValue. induction t as [|value t IH]; intros lastValue Hs; simpl.
  - reflexivity.
  - apply Sorted_inv in Hs as [Ht Hhd]. apply HdRel_inv in Hhd.
    unfold string_eqb. rewrite bool_decide_eq_false_2 by congruence.
    f_equal. by apply IH.
Qed.

(** X15: [unique] of the input handler returns a slice that has the
    elements of the given one, is not longer, has no two equal neighbours
    and is left as it is by a second [unique]; for a sorted slice it holds
    each element once, in increasing order. *)
Theorem unique_slice (a : list string) :
  (forall x, x ∈ unique a <-> x ∈ a)
  /\ (length (unique a) <= length a)%nat
  /\ Sorted (fun x y : string => x <> y) (unique a)
  /\ unique (unique a) = unique a
  /\ (StronglySorted string_le a ->
      NoDup (unique a) /\ StronglySorted string_le (unique a)).
Proof.
  rewrite !unique_compress.
  split; [intros x; apply elem_of_compress |].
  assert (Hno : Sorted (fun x y : string => x <> y) (compress a)).
  { destruct a as [|a0 a]; simpl; [constructor | apply compress_from_no_repeat]. }
  split; [| split; [exact Hno | split]].
  - destruct a as [|a0 a]; simpl; [lia |].
    pose proof (compress_from_length a0 a). lia.
  - destruct a as [|a0 a]; [reflexivity |]. simpl.
    destruct (compress_from_head a0 a) as (t & Ht). rewrite Ht.
    simpl in Hno. rewrite Ht in Hno. simpl. by apply compress_from_fixed.
  - intros Hs. destruct (compress_sorted a Hs). auto.
Qed.

(** ** Method bodies in sequence *)

Lemma run_bind {DB : Type} `{Database DB} {A B : Type} (p : prog A)
    (k : A -> prog B) (db : DB) :
  run (bind p k) db =
    let '(a, db1, calls1) := run p db in
    let '(b, db2, calls2) := run (k a) db1 in
    (b, db2, calls1 ++ calls2).
Proof.
  revert db. induction p as [a | X c k' IH]; intros db; simpl.
  - destruct (run (k a) db) as [[b db2] calls2]. reflexivity.
  - destruct (handle X c db) as [x db']. rewrite IH.
    destruct (run (k' x) db') as [[a db1] calls1].
    destruct (run (k a) db1) as [[b db2] calls2]. reflexivity.
Qed.

Section WithUnmarshal.
Variable Unmarshal : string -> event -> event * option error.

(** X16: with a state list, prepareState makes one database call, for the
    state events as listed, and never asks for the state at the
    prev_events; it returns the error of that call, else the missing state
    event error when the answer has not as many entries as the list, else
    no error. *)
Theorem prepareState_state_list {DB : Type} `{Database DB}
    (input : InputEvent) (state : list string) (ev : event) (db : DB) :
  State input = Some state ->
  Unmarshal (Event input) (set_raw zeroEvent (Event input)) = (ev, None) ->
  exists entries e db',
    handle _ (StateEventNIDs state) db = ((entries, e), db')
    /\ run (prepareState Unmarshal input) db
       = ((RoomID ev, set_stateBefore ev entries,
           match e with
           | Some e => Some e
           | None =>
             if decide (length entries = length state) then None
             else Some (Errorf "Missing necessary state event for %q"
                          [AString (EventID ev)])
           end),
          db', [called (StateEventNIDs state)]).
Proof.
  intros Hstate Hparse.
  unfold prepareState. simpl raw. rewrite Hparse, Hstate. simpl.
  destruct (handle _ (StateEventNIDs state) db) as [[entries e] db'].
  exists entries, e, db'. split; [reflexivity |].
  destruct e as [e|]; [reflexivity |]. simpl. unfold len.
  destruct (decide (length entries = length state)) as [Heq | Hne].
  - rewrite Heq, Z.eqb_refl. reflexivity.
  - destruct (Z.of_nat (length entries) =? Z.of_nat (length state))%Z eqn:Hz;
      [| reflexivity].
    apply Z.eqb_eq in Hz. lia.
Qed.

(** X17: Handle gives up on an event that does not decode: it returns the
    error of the decoder and makes no database call. *)
Theorem Handle_undecodable {DB : Type} `{Database DB}
    (input : InputEvent) (ev : event) (e : error) (db : DB) :
  Unmarshal (Event input) (set_raw zeroEvent (Event input)) = (ev, Some e) ->
  run (Handle Unmarshal input) db = (Some e, db, []).
Proof.
  intros Hparse. unfold Handle. rewrite run_bind.
  unfold prepareState. simpl raw. rewrite Hparse. reflexivity.
Qed.

(** Handle prepares the state and then the room: its calls are those of
    prepareState followed, when the state is there, by those of prepareRoom
    for the room id of the event; it returns the error of prepareState,
    else the error of prepareRoom, else none. *)
Lemma Handle_sequence {DB : Type} `{Database DB} (input : InputEvent) (db : DB) :
  run (Handle Unmarshal input) db =
    let '((roomID, ev, e), db1, calls1) :=
      run (prepareState Unmarshal input) db in
    match e with
    | Some e => (Some e, db1, calls1)
    | None =>
      let '((roomNID, e'), db2, calls2) :=
        run (prepareRoom (Kind input) roomID) db1 in
      (e', db2, calls1 ++ calls2)
    end.
Proof.
  unfold Handle. rewrite run_bind.
  destruct (run (prepareState Unmarshal input) db) as [[[[roomID ev] e] db1] calls1].
  destruct e as [e|]; [simpl; by rewrite app_nil_r |].
  cbv beta iota. rewrite run_bind.
  destruct (run (prepareRoom (Kind input) roomID) db1) as [[[roomNID e'] db2] calls2].
  destruct e' as [e'|]; [simpl; by rewrite app_nil_r |].
  cbv beta iota zeta.
  destruct (Kind input =? KindOutlier)%Z; simpl; by rewrite app_nil_r.
Qed.

End WithUnmarshal.

(** prepareRegion makes one database call, the lookup of the active
    region: it returns the region nid or the error of the lookup; when
    the room has no active region it fails for every kind but Join, and
    for a Join it returns the nid 0 without an error. *)
Lemma prepareRegion_outcomes {DB : Type} `{Database DB} (kind roomNID : Z)
    (db : DB) :
  exists regionNID e db',
    handle _ (ActiveRegionNID roomNID) db = ((regionNID, e), db')
    /\ run (prepareRegion kind roomNID) db
       = ((regionNID,
           match e with
           | Some e => Some e
           | None =>
             if (regionNID =? 0)%Z && negb (kind =? KindJoin)%Z
             then Some (Errorf "A room can only be actived by a Join: %d"
                          [AInt roomNID])
             else None
           end),
          db', [called (ActiveRegionNID roomNID)]).
Proof.
  unfold prepareRegion. simpl.
  destruct (handle _ (ActiveRegionNID roomNID) db) as [[regionNID e] db'].
  exists regionNID, e, db'. split; [reflexivity |].
  destruct e as [e|]; simpl; [reflexivity |].
  destruct (regionNID =? 0)%Z; simpl; [| reflexivity].
  destruct (kind =? KindJoin)%Z; reflexivity.
Qed.

(** ** The handler on the reference database *)

Section OnReference.
Variable others : refDB -> refDB.

Lemma prepareRoom_known (kind : Z) (roomID : string) (db : refDB) (nid : Z) :
  roomsAssigned db ->
  rooms db !! roomID = Some nid ->
  run (H := refHandle others) (prepareRoom kind roomID) db
  = ((nid, None), db, [called (RoomNID roomID)]).
Proof.
  intros [_ Hwf] Hsome. unfold prepareRoom. simpl. rewrite Hsome. simpl.
  assert (Hnz : (nid =? 0)%Z = false).
  { apply Z.eqb_neq. apply Hwf in Hsome. lia. }
  rewrite Hnz. reflexivity.
Qed.

Lemma prepareRoom_refused (kind : Z) (roomID : string) (db : refDB) :
  rooms db !! roomID = None ->
  kind <> KindOutlier ->
  run (H := refHandle others) (prepareRoom kind roomID) db
  = ((0%Z, Some (Errorf "The first events added to a room must be outliers: %q"
                   [AString roomID])),
     db, [called (RoomNID roomID)]).
Proof.
  intros Hnone Hkind. unfold prepareRoom. simpl. rewrite Hnone. simpl.
  apply Z.eqb_neq in Hkind. rewrite Hkind. reflexivity.
Qed.

Lemma prepareRoom_created (roomID : string) (db : refDB) :
  rooms db !! roomID = None ->
  rooms (others db) !! roomID = None ->
  exists db',
    run (H := refHandle others) (prepareRoom KindOutlier roomID) db
    = ((roomNIDSeq (others db), None), db',
       [called (RoomNID roomID); called (CreateRoomLock roomID);
        called (RoomNID roomID); called NextRoomNID;
        called (InsertNewRoom (roomNIDSeq (others db)) roomID);
        called (UnlockCreateRoom roomID)])
    /\ rooms db' = <[roomID:=roomNIDSeq (others db)]> (rooms (others db))
    /\ roomNIDSeq db' = (roomNIDSeq (others db) + 1)%Z
    /\ stateAtEvents db' = stateAtEvents (others db).
Proof.
  intros Hnone Hnone'. unfold prepareRoom. simpl.
  rewrite Hnone. simpl. rewrite Hnone'. simpl.
  eexists. split; [reflexivity |]. simpl. auto.
Qed.

Lemma prepareRoom_found (roomID : string) (db : refDB) (nid : Z) :
  roomsAssigned (others db) ->
  rooms db !! roomID = None ->
  rooms (others db) !! roomID = Some nid ->
  exists db',
    run (H := refHandle others) (prepareRoom KindOutlier roomID) db
    = ((nid, None), db',
       [called (RoomNID roomID); called (CreateRoomLock roomID);
        called (RoomNID roomID); called (UnlockCreateRoom roomID)])
    /\ rooms db' = rooms (others db)
    /\ roomNIDSeq db' = roomNIDSeq (others db).
Proof.
  intros [_ Hwf] Hnone Hsome. unfold prepareRoom. simpl.
  rewrite Hnone. simpl. rewrite Hsome. simpl.
  assert (Hnz : (nid =? 0)%Z = false).
  { apply Z.eqb_neq. apply Hwf in Hsome. lia. }
  rewrite Hnz. simpl. eexists. split; [reflexivity |]. auto.
Qed.

Lemma roomsAssigned_insert (db db' : refDB) (roomID : string) :
  roomsAssigned db ->
  rooms db' = <[roomID:=roomNIDSeq db]> (rooms db) ->
  roomNIDSeq db' = (roomNIDSeq db + 1)%Z ->
  roomsAssigned db'.
Proof.
  intros [Hpos Hwf] Hrooms Hseq. split; [lia |].
  intros r n. rewrite Hrooms, Hseq. intros Hr.
  apply lookup_insert_Some in Hr as [[_ <-] | [_ Hr]]; [lia |].
  apply Hwf in Hr. lia.
Qed.

(** X18: once prepareRoom has answered for an outlier, the room has its
    nid for good: whether the room was known, was created by another
    request in the meantime or is created now, the nid returned is not 0,
    is the one the registry holds afterwards, and a later prepareRoom for
    the same room, of any kind, returns it after a single lookup and leaves
    the database as it is. *)
Theorem prepareRoom_again (others2 : refDB -> refDB) (kind2 : Z)
    (roomID : string) (db : refDB) :
  roomsAssigned db ->
  roomsAssigned (others db) ->
  exists nid db1 calls,
    run (H := refHandle others) (prepareRoom KindOutlier roomID) db
    = ((nid, None), db1, calls)
    /\ nid <> 0%Z
    /\ rooms db1 !! roomID = Some nid
    /\ roomsAssigned db1
    /\ run (H := refHandle others2) (prepareRoom kind2 roomID) db1
       = ((nid, None), db1, [called (RoomNID roomID)]).
Proof.
  intros Hwf Hwf'.
  destruct (rooms db !! roomID) as [nid|] eqn:Hroom.
  - exists nid, db, [called (RoomNID roomID)].
    split; [by apply prepareRoom_known |].
    split; [destruct Hwf as [_ Hwf]; apply Hwf in Hroom; lia |].
    split; [exact Hroom |]. split; [exact Hwf |].
    unfold prepareRoom. simpl. rewrite Hroom. simpl.
    assert (Hnz : (nid =? 0)%Z = false).
    { apply Z.eqb_neq. destruct Hwf as [_ Hwf]. apply Hwf in Hroom. lia. }
    rewrite Hnz. reflexivity.
  - destruct (rooms (others db) !! roomID) as [nid|] eqn:Hroom'.
    + destruct (prepareRoom_found roomID db nid Hwf' Hroom Hroom')
        as (db1 & Hrun & Hrooms & Hseq).
      assert (Hwf1 : roomsAssigned db1).
      { destruct Hwf' as [Hpos Hwf']. split; [lia |].
        intros r n. rewrite Hrooms, Hseq. apply Hwf'. }
      assert (Hsome : rooms db1 !! roomID = Some nid) by (by rewrite Hrooms).
      do 3 eexists. split; [exact Hrun |].
      split; [destruct Hwf1 as [_ H1]; apply H1 in Hsome; lia |].
      split; [exact Hsome |]. split; [exact Hwf1 |].
      unfold prepareRoom. simpl. rewrite Hsome. simpl.
      assert (Hnz : (nid =? 0)%Z = false).
      { apply Z.eqb_neq. destruct Hwf1 as [_ H1]. apply H1 in Hsome. lia. }
      rewrite Hnz. reflexivity.
    + destruct (prepareRoom_created roomID db Hroom Hroom')
        as (db1 & Hrun & Hrooms & Hseq & _).
      assert (Hwf1 : roomsAssigned db1)
        by (by apply (roomsAssigned_insert (others db) db1 roomID)).
      assert (Hsome : rooms db1 !! roomID = Some (roomNIDSeq (others db)))
        by (rewrite Hrooms; apply lookup_insert_eq).
      do 3 eexists. split; [exact Hrun |].
      split; [destruct Hwf' as [Hpos _]; lia |].
      split; [exact Hsome |]. split; [exact Hwf1 |].
      unfold prepareRoom. simpl. rewrite Hsome. simpl.
      assert (Hnz : (roomNIDSeq (others db) =? 0)%Z = false).
      { apply Z.eqb_neq. destruct Hwf' as [Hpos _]. lia. }
      rewrite Hnz. reflexivity.
Qed.

Variable Unmarshal : string -> event -> event * option error.

(** X19: Handle on the reference database, for an input without a state
    list: when the state at a prev_event is missing it fails before the
    room is looked up, so that no room is created for such an event, not
    even for an outlier; when the state is there, an event of a known room
    is accepted with the database unchanged, an event of an unknown room
    that is not an outlier is refused with nothing allocated, and an
    outlier of an unknown room is accepted and the room registered under
    the next nid of the sequence. *)
Theorem Handle_on_reference (input : InputEvent) (ev : event) (db : refDB) :
  State input = None ->
  Unmarshal (Event input) (set_raw zeroEvent (Event input)) = (ev, None) ->
  roomsAssigned db ->
  let prevEventIDs := unique (sort_Strings (map ref_EventID (PrevEvents ev))) in
  ((exists id, id ∈ map ref_EventID (PrevEvents ev)
               /\ stateAtEvents db !! id = None) ->
   run (H := refHandle others) (Handle Unmarshal input) db
   = (Some (Errorf "Missing necessary state at prev_event for %q"
              [AString (EventID ev)]),
      db, [called (StateAtEvents prevEventIDs)]))
  /\ ((forall id, id ∈ map ref_EventID (PrevEvents ev) ->
                  is_Some (stateAtEvents db !! id)) ->
      (forall nid, rooms db !! RoomID ev = Some nid ->
         run (H := refHandle others) (Handle Unmarshal input) db
         = (None, db,
            [called (StateAtEvents prevEventIDs); called (RoomNID (RoomID ev))]))
      /\ (rooms db !! RoomID ev = None -> Kind input <> KindOutlier ->
          run (H := refHandle others) (Handle Unmarshal input) db
          = (Some (Errorf "The first events added to a room must be outliers: %q"
                     [AString (RoomID ev)]),
             db,
             [called (StateAtEvents prevEventIDs); called (RoomNID (RoomID ev))]))
      /\ (rooms db !! RoomID ev = None -> Kind input = KindOutlier ->
          rooms (others db) !! RoomID ev = None ->
          exists db' calls,
            run (H := refHandle others) (Handle Unmarshal input) db
            = (None, db', calls)
            /\ rooms db'
               = <[RoomID ev:=roomNIDSeq (others db)]> (rooms (others db))
            /\ roomNIDSeq db' = (roomNIDSeq (others db) + 1)%Z)).
Proof.
  intros Hstate Hparse Hwf prevEventIDs.
  assert (Hprep :
    run (H := refHandle others) (prepareState Unmarshal input) db
    = ((RoomID ev,
        set_stateAtPrevEvents ev
          (omap (fun id => stateAtEvents db !! id) prevEventIDs),
        if negb (len (omap (fun id => stateAtEvents db !! id) prevEventIDs)
                 =? len prevEventIDs)%Z
        then Some (Errorf "Missing necessary state at prev_event for %q"
                     [AString (EventID ev)])
        else None),
       db, [called (StateAtEvents prevEventIDs)])).
  { rewrite (run_prepareState_prev_events (H := refHandle others) Unmarshal
               input ev db Hstate Hparse). reflexivity. }
  assert (Hlen : (len (omap (fun id => stateAtEvents db !! id) prevEventIDs)
                  =? len prevEventIDs)%Z = true
                 <-> forall id, id ∈ map ref_EventID (PrevEvents ev) ->
                                is_Some (stateAtEvents db !! id)).
  { unfold len. rewrite Z.eqb_eq, Nat2Z.inj_iff, length_omap_eq.
    unfold prevEventIDs.
    split; intros Hall id Hid; apply Hall.
    - apply (proj2 (elem_of_unique_sort _ _)). exact Hid.
    - apply (proj1 (elem_of_unique_sort _ _)). exact Hid. }
  rewrite (Handle_sequence (H := refHandle others) Unmarshal input db), Hprep.
  split.
  - intros (id & Hin & Hnone).
    destruct (len _ =? len prevEventIDs)%Z eqn:Hz.
    + destruct (proj1 Hlen eq_refl id Hin) as [? ?]. congruence.
    + reflexivity.
  - intros Hall. apply Hlen in Hall. rewrite Hall. cbn [negb].
    cbv beta iota.
    split; [| split].
    + intros nid Hroom.
      rewrite (prepareRoom_known _ _ _ _ Hwf Hroom). reflexivity.
    + intros Hroom Hkind.
      rewrite (prepareRoom_refused _ _ _ Hroom Hkind). reflexivity.
    + intros Hroom Hkind Hroom'. rewrite Hkind.
      destruct (prepareRoom_created _ _ Hroom Hroom')
        as (db' & -> & Hrooms & Hs & _).
      do 2 eexists. split; [reflexivity |]. auto.
Qed.

End OnReference.

End InputMore.

(** * Further properties of the state snapshot storage *)
Section StorageMore.
Import Storage Terms MoreTerms.

(** ** The row loop on any result set *)

Lemma scanRows_prefix (good : list (Z * list Z)) (rest : list row)
    (results : list StateBlockNIDList) (i : nat) :
  (i + length good <= length results)%nat ->
  scanRows (map inr good ++ rest) results i
  = scanRows rest
      (take i results ++ map mkResult good ++ drop (i + length good) results)
      (i + length good).
Proof.
  revert results i. induction good as [|[nid blocks] good IH];
    intros results i Hfit; simpl in *.
  - rewrite Nat.add_0_r, take_drop. reflexivity.
  - rewrite bool_decide_eq_false_2 by lia.
    rewrite IH by (rewrite length_insert; lia).
    erewrite take_S_r; [| apply list_lookup_insert_eq; lia].
    rewrite take_insert_ge by lia.
    rewrite drop_insert_lt by lia.
    rewrite <- app_assoc. simpl.
    replace (i + S (length good))%nat with (S (i + length good)) by lia.
    reflexivity.
Qed.

Lemma scanRows_overflow (good : list (Z * list Z)) (rest : list row)
    (results : list StateBlockNIDList) (i : nat) :
  (i <= length results)%nat ->
  (length results < i + length good)%nat ->
  scanRows (map inr good ++ rest) results i = inr (panic "index out of range").
Proof.
  revert results i. induction good as [|[nid blocks] good IH];
    intros results i Hle Hlt; simpl in *; [lia |].
  case_bool_decide as Hi; [reflexivity |].
  apply IH; rewrite length_insert; lia.
Qed.

(** X20: bulkSelectStateBlockNIDs on any result set.  An error of the query
    is returned.  When every row scans, the results are the rows in the
    order of the result set if there are as many rows as requested nids,
    the missing-snapshot error if there are fewer, and an index out of
    range panic if there are more.  A row that does not scan ends the call
    with its error, unless as many rows as requested nids came before it:
    then the call panics. *)
Theorem bulkSelectStateBlockNIDs_any_query
    (Query : list Z -> list row * option error) (stateNIDs : list Z) :
  (forall rows e,
     Query stateNIDs = (rows, Some e) ->
     bulkSelectStateBlockNIDs Query stateNIDs = ([], err e))
  /\ (forall good,
        Query stateNIDs = (map inr good, None) ->
        bulkSelectStateBlockNIDs Query stateNIDs =
          if decide (length good = length stateNIDs) then
            (map mkResult good, ok)
          else if decide (length good < length stateNIDs)%nat then
            ([], err (Errorf "storage: state NIDs missing from the database (%d != %d)"
                        [AInt (len good); AInt (len stateNIDs)]))
          else ([], panic "index out of range"))
  /\ (forall good e rest,
        Query stateNIDs = (map inr good ++ inl e :: rest, None) ->
        bulkSelectStateBlockNIDs Query stateNIDs =
          if decide (length good < length stateNIDs)%nat then ([], err e)
          else ([], panic "index out of range")).
Proof.
  split; [| split].
  - intros rows e HQ. unfold bulkSelectStateBlockNIDs. rewrite HQ. reflexivity.
  - intros good HQ. unfold bulkSelectStateBlockNIDs. rewrite HQ.
    rewrite <- (app_nil_r (map inr good)).
    destruct (decide (length good = length stateNIDs)) as [Heq | Hne].
    + rewrite scanRows_prefix by (rewrite length_replicate; lia).
      simpl. unfold len. rewrite Heq, Z.eqb_refl. simpl.
      rewrite drop_ge by (rewrite length_replicate; lia).
      rewrite app_nil_r. reflexivity.
    + destruct (decide (length good < length stateNIDs)%nat) as [Hlt | Hge].
      * rewrite scanRows_prefix by (rewrite length_replicate; lia).
        simpl. unfold len.
        destruct (Z.of_nat (length good) =? Z.of_nat (length stateNIDs))%Z eqn:Hz;
          [apply Z.eqb_eq in Hz; lia | reflexivity].
      * rewrite scanRows_overflow; [reflexivity | lia |].
        rewrite length_replicate. lia.
  - intros good e rest HQ. unfold bulkSelectStateBlockNIDs. rewrite HQ.
    destruct (decide (length good < length stateNIDs)%nat) as [Hlt | Hge].
    + rewrite scanRows_prefix by (rewrite length_replicate; lia).
      cbn [scanRows plus]. rewrite bool_decide_eq_false_2; [reflexivity |].
      rewrite take_0, app_nil_l, length_app, length_map, length_drop,
        length_replicate. lia.
    + destruct (decide (length good = length stateNIDs)) as [Heq | Hne].
      * rewrite scanRows_prefix by (rewrite length_replicate; lia).
        cbn [scanRows plus]. rewrite bool_decide_eq_true_2; [reflexivity |].
        rewrite take_0, app_nil_l, length_app, length_map, length_drop,
          length_replicate. lia.
      * rewrite scanRows_overflow; [reflexivity | lia |].
        rewrite length_replicate. lia.
Qed.

(** ** The rows of a table *)

Lemma NoDup_fst_inj {A B : Type} (l : list (A * B)) (k : A) (v1 v2 : B) :
  NoDup (l.*1) -> (k, v1) ∈ l -> (k, v2) ∈ l -> v1 = v2.
Proof.
  induction l as [|[k' v'] l IH]; simpl; intros Hnd H1 H2.
  - by apply elem_of_nil in H1.
  - apply NoDup_cons in Hnd as [Hnotin Hnd].
    assert (Hkey : forall v, (k', v) ∈ l -> False).
    { intros v Hin. apply Hnotin. apply list_elem_of_fmap. by exists (k', v). }
    apply elem_of_cons in H1 as [E1 | H1];
      apply elem_of_cons in H2 as [E2 | H2].
    + congruence.
    + injection E1 as -> ->. exfalso. eauto.
    + injection E2 as -> ->. exfalso. eauto.
    + auto.
Qed.

(** The rows are fixed by what they hold: two selections with the same
    rows as sets are the same list. *)
Lemma selected_rows_unique (table table' : state_snapshots) (nids nids' : list Z) :
  (forall nid blocks,
     (nid ∈ nids /\ exists roomNID, table !! nid = Some (roomNID, blocks))
     <-> (nid ∈ nids' /\ exists roomNID, table' !! nid = Some (roomNID, blocks))) ->
  bulkSelectStateBlockNIDsSQL table nids = bulkSelectStateBlockNIDsSQL table' nids'.
Proof.
  intros Hsame.
  destruct (selected_keys table nids) as (Hnd & _ & Hrows).
  destruct (selected_keys table' nids') as (Hnd' & _ & Hrows').
  set (rows := bulkSelectStateBlockNIDsSQL table nids) in *.
  set (rows' := bulkSelectStateBlockNIDsSQL table' nids') in *.
  assert (Hperm : rows ≡ₚ rows').
  { apply NoDup_Permutation.
    - by apply (NoDup_fmap_1 fst).
    - by apply (NoDup_fmap_1 fst).
    - intros [nid blocks]. rewrite Hrows, Hrows'. apply Hsame. }
  apply (StronglySorted_unique_strong nid_le);
    [| apply orderByNID_sorted | apply orderByNID_sorted | exact Hperm].
  intros [k1 v1] [k2 v2] H1 H2 Hle Hge. unfold nid_le in *. simpl in *.
  assert (k1 = k2) as -> by lia. f_equal.
  rewrite <- Hperm in H2. by apply (NoDup_fst_inj rows k2).
Qed.

(** X21: the answer of the lookup on a table does not depend on the order
    in which the snapshot nids are requested. *)
Theorem bulkSelectStateBlockNIDs_request_order (table : state_snapshots)
    (stateNIDs stateNIDs' : list Z) :
  stateNIDs ≡ₚ stateNIDs' ->
  bulkSelectStateBlockNIDs (tableQuery table) stateNIDs
  = bulkSelectStateBlockNIDs (tableQuery table) stateNIDs'.
Proof.
  intros Hperm. rewrite !bulkSelectStateBlockNIDs_table.
  assert (Hrows : bulkSelectStateBlockNIDsSQL table stateNIDs
                  = bulkSelectStateBlockNIDsSQL table stateNIDs').
  { apply selected_rows_unique. intros nid blocks. by rewrite Hperm. }
  rewrite Hrows. unfold len. rewrite (Permutation_length Hperm). reflexivity.
Qed.

(** ** insertState *)

(** X22: on a table whose nids all came from the sequence, insertState
    succeeds and returns the next nid of the sequence, which was not in the
    table; afterwards the lookup of that nid returns the block nids that
    were inserted, as they were given, the lookup of any list of other nids
    answers as before, and the nids of the table still all come from the
    sequence. *)
Theorem insertState_lookup (db : snapshotDB) (roomNID : Z)
    (stateBlockNIDs : list Z) :
  snapshotsAssigned db ->
  exists db',
    insertState db roomNID stateBlockNIDs
    = ((state_snapshot_nid_seq db, None), db')
    /\ snapshots db !! state_snapshot_nid_seq db = None
    /\ snapshotsAssigned db'
    /\ bulkSelectStateBlockNIDs (tableQuery (snapshots db'))
         [state_snapshot_nid_seq db]
       = ([ {| StateSnapshotNID := state_snapshot_nid_seq db;
               StateBlockNIDs := stateBlockNIDs |} ], ok)
    /\ (forall stateNIDs,
          state_snapshot_nid_seq db ∉ stateNIDs ->
          bulkSelectStateBlockNIDs (tableQuery (snapshots db')) stateNIDs
          = bulkSelectStateBlockNIDs (tableQuery (snapshots db)) stateNIDs).
Proof.
  intros Hwf.
  assert (Hfresh : snapshots db !! state_snapshot_nid_seq db = None).
  { destruct (snapshots db !! state_snapshot_nid_seq db) eqn:Hl; [| reflexivity].
    assert (state_snapshot_nid_seq db < state_snapshot_nid_seq db)%Z; [| lia].
    apply Hwf. rewrite Hl. eauto. }
  eexists. split.
  { unfold insertState, insertStateSQL. rewrite Hfresh. reflexivity. }
  simpl.
  set (nid := state_snapshot_nid_seq db).
  set (table' := <[nid:=(roomNID, stateBlockNIDs)]> (snapshots db)).
  split; [exact Hfresh |]. split; [| split].
  - intros k [v Hk]. unfold table' in *. simpl in *.
    apply lookup_insert_Some in Hk as [[<- _] | [_ Hk]]; [lia |].
    assert (Hlt : (k < state_snapshot_nid_seq db)%Z)
      by (apply Hwf; rewrite Hk; eauto).
    unfold nid. lia.
  - rewrite bulkSelectStateBlockNIDs_table.
    destruct (selected_length table' [nid]) as [_ Hlen].
    destruct (selected_keys table' [nid]) as (_ & _ & Hrows).
    set (rows := bulkSelectStateBlockNIDsSQL table' [nid]) in *.
    assert (Hl : length rows = length [nid]).
    { apply Hlen. split; [apply NoDup_singleton |].
      intros k Hk. apply list_elem_of_singleton in Hk as ->.
      unfold table'. rewrite lookup_insert_eq. eauto. }
    rewrite decide_True by exact Hl.
    destruct rows as [|[k blocks] [|? ?]]; try discriminate.
    assert (Hin : (k, blocks) ∈ [(k, blocks)]) by (apply list_elem_of_singleton; done).
    apply Hrows in Hin as (Hk & room & Hlook).
    apply list_elem_of_singleton in Hk as ->.
    unfold table' in Hlook. rewrite lookup_insert_eq in Hlook.
    injection Hlook as <- <-. reflexivity.
  - intros stateNIDs Hnotin. rewrite !bulkSelectStateBlockNIDs_table.
    assert (Hrows : bulkSelectStateBlockNIDsSQL table' stateNIDs
                    = bulkSelectStateBlockNIDsSQL (snapshots db) stateNIDs).
    { apply selected_rows_unique. intros k blocks. unfold table'.
      split; intros (Hin & room & Hlook); (split; [exact Hin |]); exists room.
      - rewrite lookup_insert_ne in Hlook by (intros ->; contradiction).
        exact Hlook.
      - rewrite lookup_insert_ne by (intros ->; contradiction). exact Hlook. }
    rewrite Hrows. reflexivity.
Qed.

End StorageMore.
